(** * LazyLoad: a shallow embedding of [src/lazyload.js]

    The development models the exported [LazyLoad] class (the last class of
    [src/lazyload.js]): its configuration, the three batch operations
    [loadImage], [loadVideo] and [executeFn], the observer callbacks they
    install and [destroy].

    JavaScript values are an inductive type, numbers are rationals extended
    with [NaN] and the two infinities, the document is a store of element
    records, and every method is a function in a state-and-exception monad
    whose state survives a [throw], so that what a failing call has already
    mutated stays visible. The browser's selector engine, its attribute
    names, the constructor of its observers and the user callbacks are
    parameters of the model; the dispatch of the visibility primitive is
    modelled by [deliver]. *)

From Stdlib Require Import QArith.
From stdpp Require Import gmap strings list pretty.

Set Warnings "-register-all,-clear-no-such-hyp".

Open Scope string_scope.

(** ** JavaScript values *)

(** DOM elements and user functions are referred to by identity. *)
Definition elem := nat.
Definition fn_id := nat.

(** A JS number: every finite double is a rational, so [Fin] over-approximates
    the finite doubles; [-0] and [+0] are both [Fin 0], which agrees with
    [<], [>] and [!==], the only operators the code applies to numbers. *)
Inductive jsnum : Type :=
| NaN
| PInf
| NInf
| Fin (q : Q).

Inductive jsval : Type :=
| JUndefined
| JNull
| JBool (b : bool)
| JNum (n : jsnum)
| JStr (s : string)
| JArray (items : list jsval)
| JFunction (f : fn_id)
| JElement (e : elem)
| JObject.

Inductive jstype : Type :=
| TUndefined | TObject | TBoolean | TNumber | TString | TFunction.

Definition typeof (v : jsval) : jstype :=
  match v with
  | JUndefined => TUndefined
  | JNull => TObject
  | JBool _ => TBoolean
  | JNum _ => TNumber
  | JStr _ => TString
  | JArray _ => TObject
  | JFunction _ => TFunction
  | JElement _ => TObject
  | JObject => TObject
  end.

Definition jstype_eqb (a b : jstype) : bool :=
  match a, b with
  | TUndefined, TUndefined | TObject, TObject | TBoolean, TBoolean
  | TNumber, TNumber | TString, TString | TFunction, TFunction => true
  | _, _ => false
  end.

(** [a < b] on numbers: any comparison with [NaN] is false. *)
Definition num_lt (a b : jsnum) : bool :=
  match a, b with
  | NaN, _ | _, NaN => false
  | PInf, _ => false
  | _, NInf => false
  | NInf, _ => true
  | Fin _, PInf => true
  | Fin x, Fin y => negb (Qle_bool y x)
  end.

(** The relational operators as the code uses them: both operands are numbers
    at every use, because a [typeof] test guards each comparison. *)
Definition js_lt (a b : jsval) : bool :=
  match a, b with
  | JNum x, JNum y => num_lt x y
  | _, _ => false
  end.

Definition js_gt (a b : jsval) : bool := js_lt b a.

Definition is_null (v : jsval) : bool :=
  match v with JNull => true | _ => false end.

Definition is_undefined (v : jsval) : bool :=
  match v with JUndefined => true | _ => false end.

(** [v === 0]. *)
Definition is_zero (v : jsval) : bool :=
  match v with
  | JNum (Fin q) => Qeq_bool q 0
  | _ => false
  end.

(** A destructuring default [{ x = d }]: it applies to [undefined] only. *)
Definition default_to (d v : jsval) : jsval :=
  match v with JUndefined => d | _ => v end.

(** Truthiness of a value that is [null] or a string ([None] is [null]). *)
Definition truthy (s : option string) : option string :=
  match s with
  | Some "" => None
  | other => other
  end.

Definition zero : jsval := JNum (Fin 0).
Definition one : jsval := JNum (Fin 1).

(** ** Errors *)

Inductive Slot : Type := ImageSlot | VideoSlot.

(** One constructor per [throw] of the class, and the errors the host raises. *)
Inductive Err : Type :=
| RootInvalid
| LoadBeforeInvalid
| LoadAfterInvalid
| SelectorInvalid
| SrcTargetInvalid
| AttrInvalid
| PathNotString (s : Slot)
| PathsNotArray (s : Slot)
| ExeFnNotFunction
| NullDereference        (* property access on null or undefined *)
| DomSyntaxError         (* the selector engine rejects the selector *)
| InvalidCharacterError  (* setAttribute rejects the attribute name *)
| HostTypeError          (* observe() called without an element *)
| ObserverInitError      (* the observer's constructor rejects the options *)
| UserError (code : nat) (* raised by a user callback *).

Inductive ErrClass : Type :=
| ConfigError | SelectorError | TypeError | NullDerefClass | HostError.

Definition err_class (e : Err) : ErrClass :=
  match e with
  | RootInvalid | LoadBeforeInvalid | LoadAfterInvalid => ConfigError
  | SelectorInvalid | SrcTargetInvalid => SelectorError
  | AttrInvalid | PathNotString _ | PathsNotArray _ | ExeFnNotFunction => TypeError
  | NullDereference => NullDerefClass
  | DomSyntaxError | InvalidCharacterError | HostTypeError | ObserverInitError
  | UserError _ => HostError
  end.

(** The double-quote character, and a name between double quotes. *)
Definition dquote : string := String (Ascii.ascii_of_nat 34) EmptyString.

Definition quoted (s : string) : string := dquote +:+ s +:+ dquote.

Definition failed_to_construct (what : string) : string :=
  "Failed to construct " +:+ quoted "LazyLoad" +:+ ": " +:+ what.

(** The message of each [new Error(...)] of the class. *)
Definition err_message (e : Err) : option string :=
  match e with
  | RootInvalid =>
      Some (failed_to_construct (quoted "root" +:+ " must be a valid DOM element!"))
  | LoadBeforeInvalid =>
      Some (failed_to_construct (quoted "loadBefore" +:+ " must be a positive number!"))
  | LoadAfterInvalid =>
      Some (failed_to_construct (quoted "loadAfter" +:+ " must be a number between 0 and 1!"))
  | SelectorInvalid =>
      Some (failed_to_construct
              (quoted "selector" +:+ " is required and must be a valid CSS selector"))
  | SrcTargetInvalid =>
      Some (failed_to_construct
              (quoted "srcTarget" +:+ " is must be a valid CSS selector or null"))
  | AttrInvalid =>
      Some (failed_to_construct (quoted "attr" +:+ " is must be a string or null"))
  | PathNotString ImageSlot =>
      Some (failed_to_construct "Image path must be a string")
  | PathNotString VideoSlot =>
      Some (failed_to_construct "Video path must be a string")
  | PathsNotArray ImageSlot =>
      Some (failed_to_construct (quoted "images" +:+ " must be an array of string!"))
  | PathsNotArray VideoSlot =>
      Some (failed_to_construct (quoted "videos" +:+ " must be an array of string!"))
  | ExeFnNotFunction =>
      Some (failed_to_construct (quoted "exeFn" +:+ " must be a function"))
  | _ => None
  end.

(** ** The document *)

(** An element: its content attributes, of which the [dataset] is a view of
    the [data-*] ones, and what an assignment to its property [src] means.
    On an element whose interface has [src] ([img], [video], [source],
    [iframe] and the like) the property reflects the content attribute
    [src]: [reflects_src] is [true], an assignment sets the attribute and
    [setAttribute] with the name [src] is an assignment. On any other
    element an assignment creates an own property, held in [src], that no
    attribute touches. *)
Record ElemData : Type := mkElem {
  attrs : gmap string string;
  src : option string;
  reflects_src : bool
}.

Definition Store : Type := elem -> ElemData.

(** [dataset.imageUrl] is the attribute [data-image-url], [dataset.videoUrl]
    the attribute [data-video-url]. *)
Definition slot_attr (s : Slot) : string :=
  match s with
  | ImageSlot => "data-image-url"
  | VideoSlot => "data-video-url"
  end.

Definition upd (d : Store) (e : elem) (x : ElemData) : Store :=
  fun e' => if Nat.eqb e' e then x else d e'.

(** An element after [setAttribute] has stored [v] under [k], and after the
    assignment [src = v]. *)
Definition with_attr (k v : string) (x : ElemData) : ElemData :=
  {| attrs := <[k := v]> (attrs x); src := src x; reflects_src := reflects_src x |}.

Definition with_src (v : string) (x : ElemData) : ElemData :=
  if reflects_src x then with_attr "src" v x
  else {| attrs := attrs x; src := Some v; reflects_src := false |}.

Definition store_set_attr (d : Store) (e : elem) (k v : string) : Store :=
  upd d e (with_attr k v (d e)).

Definition store_set_src (d : Store) (e : elem) (v : string) : Store :=
  upd d e (with_src v (d e)).

(** What the last assignment to [src] has left on an element. *)
Definition source_of (d : Store) (e : elem) : option string :=
  if reflects_src (d e) then attrs (d e) !! "src" else src (d e).

(** The pending payload of an element as markup or a setup left it. *)
Definition payload (d : Store) (e : elem) (s : Slot) : option string :=
  attrs (d e) !! slot_attr s.

(** ** Observers and the controller state *)

Record Options : Type := mkOptions {
  root : jsval;
  rootMargin : jsval;   (* the value [v] of the template literal `${v}px` *)
  threshold : jsval
}.

(** The closures the class hands to [IntersectionObserver]. *)
Inductive Callback : Type :=
| RenderImage (srcTarget attr : option string)
| RenderVideo (srcTarget attr : option string)
| HandleFunctionExecution (exeFn : fn_id).

Record Observer : Type := mkObserver {
  callback : Callback;
  init : option Options;
  observed : gset elem
}.

(** [options] and [observer] are the private fields [#options] and
    [#observer]; [heap] holds every observer ever constructed, an observer's
    identity being its index, so that an observer replaced in [#observer]
    lives on with its subscriptions. *)
Record State : Type := mkState {
  options : option Options;
  observer : option nat;
  heap : list Observer;
  document : Store
}.

Record Entry : Type := mkEntry {
  target : elem;
  isIntersecting : bool
}.

(** ** The monad: state that survives exceptions *)

Inductive Res (A : Type) : Type :=
| Ok (a : A)
| Throw (e : Err).

Arguments Ok {A} a.
Arguments Throw {A} e.

Definition M (A : Type) : Type := State -> Res A * State.

Definition ret {A} (a : A) : M A := fun st => (Ok a, st).

Definition throw {A} (e : Err) : M A := fun st => (Throw e, st).

Definition bind {A B} (m : M A) (k : A -> M B) : M B :=
  fun st =>
    match m st with
    | (Ok a, st') => k a st'
    | (Throw e, st') => (Throw e, st')
    end.

Notation "'let*' x ':=' c 'in' k" := (bind c (fun x => k))
  (at level 10, x pattern, c at level 100, k at level 200).

Definition gets {A} (f : State -> A) : M A := fun st => (Ok (f st), st).

Definition modify (f : State -> State) : M unit := fun st => (Ok tt, f st).

Fixpoint forEach {A} (l : list A) (f : A -> M unit) : M unit :=
  match l with
  | [] => ret tt
  | x :: rest => let* _ := f x in forEach rest f
  end.

Definition set_options (o : Options) (st : State) : State :=
  {| options := Some o; observer := observer st; heap := heap st; document := document st |}.

Definition set_observer (i : nat) (st : State) : State :=
  {| options := options st; observer := Some i; heap := heap st; document := document st |}.

Definition set_heap (h : list Observer) (st : State) : State :=
  {| options := options st; observer := observer st; heap := h; document := document st |}.

Definition set_document (d : Store) (st : State) : State :=
  {| options := options st; observer := observer st; heap := heap st; document := d |}.

(** ** The host *)

Inductive DomResult (A : Type) : Type :=
| DomOk (a : A)
| DomSyntax.

Arguments DomOk {A} a.
Arguments DomSyntax {A}.

(** What the class takes from the browser. [querySelectorAll] and
    [elementQuerySelector] answer against the current document and may reject
    a selector; [attributeKey] is the name under which [setAttribute] stores a
    value, [None] when it rejects the name; [acceptsOptions] tells whether
    the constructor [IntersectionObserver] takes an options object, which
    it does not when it cannot parse the margin ([NaNpx], [Infinitypx]) or
    when the threshold is not a finite number of [0,1]. [callFunction] runs
    a user function, which is arbitrary code: it may throw, and it may
    change the document and, through the public methods of the instance,
    the state of the controller, so that it is given the whole state and
    returns one. *)
Record Platform : Type := mkPlatform {
  querySelectorAll : Store -> string -> DomResult (list elem);
  elementQuerySelector : Store -> elem -> string -> DomResult (option elem);
  attributeKey : string -> option string;
  acceptsOptions : option Options -> bool;
  callFunction : fn_id -> State -> Res unit * State
}.

(** ** Arguments of the public methods

    Each method destructures one options object; a field that is absent is
    [JUndefined] and takes the method's default. *)

Module ConfigArgs.
Record t : Type := mk { root : jsval; loadBefore : jsval; loadAfter : jsval }.
Definition none : t := mk JUndefined JUndefined JUndefined.
End ConfigArgs.

(** [paths] is the field [images] of [loadImage] and [videos] of [loadVideo]. *)
Module LoadArgs.
Record t : Type := mk {
  selector : jsval;
  srcTarget : jsval;
  attr : jsval;
  paths : jsval;
  root : jsval;
  loadBefore : jsval;
  loadAfter : jsval
}.
End LoadArgs.

Module ExecArgs.
Record t : Type := mk {
  selector : jsval;
  exeFn : jsval;
  root : jsval;
  loadBefore : jsval;
  loadAfter : jsval
}.
End ExecArgs.

Section Controller.

Context (P : Platform).

(** *** Document access *)

Definition document_querySelectorAll (selector : string) : M (list elem) :=
  fun st =>
    match querySelectorAll P (document st) selector with
    | DomOk l => (Ok l, st)
    | DomSyntax => (Throw DomSyntaxError, st)
    end.

(** [querySelector] is the first match in document order, or [null]. *)
Definition document_querySelector (selector : string) : M (option elem) :=
  let* l := document_querySelectorAll selector in ret (head l).

Definition element_querySelector (e : elem) (selector : string) : M (option elem) :=
  fun st =>
    match elementQuerySelector P (document st) e selector with
    | DomOk r => (Ok r, st)
    | DomSyntax => (Throw DomSyntaxError, st)
    end.

(** [elem.dataset.imageUrl] and [elem.dataset.videoUrl], read and written. *)
Definition dataset_get (e : elem) (s : Slot) : M (option string) :=
  gets (fun st => payload (document st) e s).

Definition dataset_set (target : option elem) (s : Slot) (v : string) : M unit :=
  match target with
  | None => throw NullDereference
  | Some e =>
      modify (fun st => set_document (store_set_attr (document st) e (slot_attr s) v) st)
  end.

(** [target.setAttribute(name, value)] and [target.src = value], where
    [target] may be [null]. *)
Definition setAttribute (target : option elem) (name value : string) : M unit :=
  match target with
  | None => throw NullDereference
  | Some e =>
      match attributeKey P name with
      | None => throw InvalidCharacterError
      | Some k => modify (fun st => set_document (store_set_attr (document st) e k value) st)
      end
  end.

Definition set_src (target : option elem) (value : string) : M unit :=
  match target with
  | None => throw NullDereference
  | Some e => modify (fun st => set_document (store_set_src (document st) e value) st)
  end.

(** *** The observer interface *)

Definition with_observed (f : gset elem -> gset elem) (o : Observer) : Observer :=
  {| callback := callback o; init := init o; observed := f (observed o) |}.

(** [new IntersectionObserver(cb, opts)]: the constructor throws on options
    it rejects, and no observer is made then. *)
Definition new_IntersectionObserver (cb : Callback) (opts : option Options) : M nat :=
  fun st =>
    if acceptsOptions P opts then
      (Ok (length (heap st)),
       set_heap (heap st ++ [{| callback := cb; init := opts; observed := ∅ |}]) st)
    else (Throw ObserverInitError, st).

Definition observe (i : nat) (target : option elem) : M unit :=
  match target with
  | None => throw HostTypeError
  | Some e =>
      modify (fun st => set_heap (alter (with_observed (fun s => {[e]} ∪ s)) i (heap st)) st)
  end.

Definition unobserve (i : nat) (e : elem) : M unit :=
  modify (fun st => set_heap (alter (with_observed (fun s => s ∖ {[e]})) i (heap st)) st).

Definition disconnect (i : nat) : M unit :=
  modify (fun st => set_heap (alter (with_observed (fun _ => ∅)) i (heap st)) st).

(** A method call on the field [this.#observer], which is [null] until a
    batch operation has constructed an observer. *)
Definition on_this_observer (f : nat -> M unit) : M unit :=
  let* o := gets observer in
  match o with
  | Some i => f i
  | None => throw NullDereference
  end.

(** *** Validation helpers *)

Definition checkValidDOMElement (element : jsval) : bool :=
  match element with
  | JElement _ => true
  | _ => false
  end.

Definition checkValidCSSSelector (selector : string) : M bool :=
  let* checkSelector := document_querySelector selector in
  match checkSelector with
  | Some _ => ret true
  | None => ret false
  end.

(** *** config *)

Definition invalid_loadBefore (loadBefore : jsval) : bool :=
  is_null loadBefore || is_undefined loadBefore
  || negb (jstype_eqb (typeof loadBefore) TNumber) || js_lt loadBefore zero.

Definition invalid_loadAfter (loadAfter : jsval) : bool :=
  is_null loadAfter || is_undefined loadAfter
  || negb (jstype_eqb (typeof loadAfter) TNumber)
  || js_lt loadAfter zero || js_gt loadAfter one.

Definition config (a : ConfigArgs.t) : M unit :=
  let root := default_to JNull (ConfigArgs.root a) in
  let loadBefore := default_to zero (ConfigArgs.loadBefore a) in
  let loadAfter := default_to zero (ConfigArgs.loadAfter a) in
  let isValidDOM := if negb (is_null root) then checkValidDOMElement root else true in
  if negb isValidDOM then throw RootInvalid
  else if invalid_loadBefore loadBefore then throw LoadBeforeInvalid
  else if invalid_loadAfter loadAfter then throw LoadAfterInvalid
  else modify (set_options {| root := root; rootMargin := loadBefore; threshold := loadAfter |}).

(** The constructor: both private fields are [null], then [this.config()]. *)
Definition new_LazyLoad (d : Store) : Res unit * State :=
  config ConfigArgs.none {| options := None; observer := None; heap := []; document := d |}.

(** *** Argument checks shared by the batch operations *)

(** [if (typeof v !== "string" || this.#checkValidCSSSelector(v) === false)
    throw e]: the selector check runs only on a string. *)
Definition require_selector (v : jsval) (e : Err) : M string :=
  match v with
  | JStr s => let* ok := checkValidCSSSelector s in if ok then ret s else throw e
  | _ => throw e
  end.

Definition require_srcTarget (srcTarget : jsval) : M (option string) :=
  match srcTarget with
  | JNull => ret None
  | other => let* s := require_selector other SrcTargetInvalid in ret (Some s)
  end.

Definition require_attr (attr : jsval) : M (option string) :=
  match attr with
  | JNull => ret None
  | JStr s => ret (Some s)
  | _ => throw AttrInvalid
  end.

(** [if (root !== null || loadBefore !== 0 || loadAfter !== 0)
    this.config({root, loadBefore, loadAfter})]. *)
Definition reconfigure (root loadBefore loadAfter : jsval) : M unit :=
  if negb (is_null root) || negb (is_zero loadBefore) || negb (is_zero loadAfter)
  then config (ConfigArgs.mk root loadBefore loadAfter)
  else ret tt.

(** *** loadImage *)

(** The loop [for (let i = 0; i < images.length; i++)], entered at index [i]
    with [images] the entries from [i] on. [elements[i]] is [undefined] past
    the end of the node list. *)
Fixpoint assign_imageUrl (elements : list elem) (images : list jsval) (i : nat) : M unit :=
  match images with
  | [] => ret tt
  | JStr path :: rest =>
      let* _ := dataset_set (elements !! i) ImageSlot path in
      assign_imageUrl elements rest (S i)
  | _ :: _ => throw (PathNotString ImageSlot)
  end.

Definition loadImage (a : LoadArgs.t) : M unit :=
  let selector := default_to JNull (LoadArgs.selector a) in
  let srcTarget := default_to JNull (LoadArgs.srcTarget a) in
  let attr := default_to JNull (LoadArgs.attr a) in
  let images := default_to (JArray []) (LoadArgs.paths a) in
  let root := default_to JNull (LoadArgs.root a) in
  let loadBefore := default_to zero (LoadArgs.loadBefore a) in
  let loadAfter := default_to zero (LoadArgs.loadAfter a) in
  let* selector := require_selector selector SelectorInvalid in
  let* srcTarget := require_srcTarget srcTarget in
  let* attr := require_attr attr in
  let* _ := reconfigure root loadBefore loadAfter in
  let* opts := gets options in
  let* o := new_IntersectionObserver (RenderImage srcTarget attr) opts in
  let* _ := modify (set_observer o) in
  let* elements := document_querySelectorAll selector in
  let* _ :=
    match images with
    | JArray images =>
        if negb (Nat.eqb (length images) 0) then assign_imageUrl elements images 0 else ret tt
    | _ => throw (PathsNotArray ImageSlot)
    end in
  forEach elements (fun elem => on_this_observer (fun i => observe i (Some elem))).

(** The closure returned by [#renderImage(srcTarget, attr)], one entry at a
    time, then over the entries. *)
Definition renderImage_entry (srcTarget attr : option string) (observer : nat)
    (entry : Entry) : M unit :=
  if isIntersecting entry then
    let elem := target entry in
    let* path := dataset_get elem ImageSlot in
    let* _ :=
      match truthy path with
      | Some path =>
          match truthy srcTarget with
          | Some srcTarget =>
              let* srcElem := element_querySelector elem srcTarget in
              match truthy attr with
              | Some attr => setAttribute srcElem attr path
              | None => set_src srcElem path
              end
          | None =>
              match truthy attr with
              | Some attr => setAttribute (Some elem) attr path
              | None => set_src (Some elem) path
              end
          end
      | None => ret tt
      end in
    unobserve observer elem
  else ret tt.

Definition renderImage (srcTarget attr : option string) (entries : list Entry)
    (observer : nat) : M unit :=
  forEach entries (renderImage_entry srcTarget attr observer).

(** *** loadVideo *)

Fixpoint assign_videoUrl (elements : list elem) (videos : list jsval) (i : nat) : M unit :=
  match videos with
  | [] => ret tt
  | JStr path :: rest =>
      let* _ := dataset_set (elements !! i) VideoSlot path in
      assign_videoUrl elements rest (S i)
  | _ :: _ => throw (PathNotString VideoSlot)
  end.

Definition loadVideo (a : LoadArgs.t) : M unit :=
  let selector := default_to JNull (LoadArgs.selector a) in
  let srcTarget := default_to JNull (LoadArgs.srcTarget a) in
  let attr := default_to JNull (LoadArgs.attr a) in
  let videos := default_to (JArray []) (LoadArgs.paths a) in
  let root := default_to JNull (LoadArgs.root a) in
  let loadBefore := default_to zero (LoadArgs.loadBefore a) in
  let loadAfter := default_to zero (LoadArgs.loadAfter a) in
  let* selector := require_selector selector SelectorInvalid in
  let* srcTarget := require_srcTarget srcTarget in
  let* attr := require_attr attr in
  let* _ := reconfigure root loadBefore loadAfter in
  let* opts := gets options in
  let* o := new_IntersectionObserver (RenderVideo srcTarget attr) opts in
  let* _ := modify (set_observer o) in
  let* elements := document_querySelectorAll selector in
  let* _ :=
    match videos with
    | JArray videos =>
        if negb (Nat.eqb (length videos) 0) then assign_videoUrl elements videos 0 else ret tt
    | _ => throw (PathsNotArray VideoSlot)
    end in
  forEach elements (fun elem => on_this_observer (fun i => observe i (Some elem))).

Definition renderVideo_entry (srcTarget attr : option string) (observer : nat)
    (entry : Entry) : M unit :=
  if isIntersecting entry then
    let elem := target entry in
    let* path := dataset_get elem VideoSlot in
    let* _ :=
      match truthy path with
      | Some path =>
          match truthy srcTarget with
          | Some srcTarget =>
              let* srcElem := element_querySelector elem srcTarget in
              match truthy attr with
              | Some attr => setAttribute srcElem attr path
              | None => set_src srcElem path
              end
          | None =>
              match truthy attr with
              | Some attr => setAttribute (Some elem) attr path
              | None => set_src (Some elem) path
              end
          end
      | None => ret tt
      end in
    unobserve observer elem
  else ret tt.

Definition renderVideo (srcTarget attr : option string) (entries : list Entry)
    (observer : nat) : M unit :=
  forEach entries (renderVideo_entry srcTarget attr observer).

(** *** executeFn *)

(** [exeFn()]: the user function runs. *)
Definition call (f : fn_id) : M unit := callFunction P f.

Definition executeFn (a : ExecArgs.t) : M unit :=
  let selector := default_to JNull (ExecArgs.selector a) in
  let exeFn := default_to JNull (ExecArgs.exeFn a) in
  let root := default_to JNull (ExecArgs.root a) in
  let loadBefore := default_to zero (ExecArgs.loadBefore a) in
  let loadAfter := default_to zero (ExecArgs.loadAfter a) in
  let* selector := require_selector selector SelectorInvalid in
  match exeFn with
  | JFunction f =>
      let* _ := reconfigure root loadBefore loadAfter in
      let* opts := gets options in
      let* o := new_IntersectionObserver (HandleFunctionExecution f) opts in
      let* _ := modify (set_observer o) in
      let* element := document_querySelector selector in
      on_this_observer (fun i => observe i element)
  | _ => throw ExeFnNotFunction
  end.

Definition handleFunctionExecution_entry (exeFn : fn_id) (observer : nat)
    (entry : Entry) : M unit :=
  if isIntersecting entry then
    let* _ := call exeFn in
    unobserve observer (target entry)
  else ret tt.

Definition handleFunctionExecution (exeFn : fn_id) (entries : list Entry)
    (observer : nat) : M unit :=
  forEach entries (handleFunctionExecution_entry exeFn observer).

(** *** destroy *)

Definition destroy : M unit :=
  let* _ := config ConfigArgs.none in
  on_this_observer disconnect.

(** *** The host's dispatch *)

Definition run_entry (cb : Callback) (observer : nat) (entry : Entry) : M unit :=
  match cb with
  | RenderImage srcTarget attr => renderImage_entry srcTarget attr observer entry
  | RenderVideo srcTarget attr => renderVideo_entry srcTarget attr observer entry
  | HandleFunctionExecution exeFn => handleFunctionExecution_entry exeFn observer entry
  end.

Definition run_callback (cb : Callback) (entries : list Entry) (observer : nat) : M unit :=
  match cb with
  | RenderImage srcTarget attr => renderImage srcTarget attr entries observer
  | RenderVideo srcTarget attr => renderVideo srcTarget attr entries observer
  | HandleFunctionExecution exeFn => handleFunctionExecution exeFn entries observer
  end.

(** The contract of the visibility primitive: it reports transitions of the
    elements an observer tracks, and only of those, by calling the
    observer's callback with the entries and the observer itself. [deliver]
    is one such report: of the transitions [entries] it passes on those
    whose target observer [i] tracks, and does not call back for none. *)
Definition deliver (i : nat) (entries : list Entry) : M unit :=
  fun st =>
    match heap st !! i with
    | None => (Ok tt, st)
    | Some o =>
        match filter (fun en => target en ∈ observed o) entries with
        | [] => (Ok tt, st)
        | tracked => run_callback (callback o) tracked i st
        end
    end.

(** Observer [i] tracks element [e]. *)
Definition observes (st : State) (i : nat) (e : elem) : Prop :=
  exists o, heap st !! i = Some o /\ e ∈ observed o.

End Controller.

(** ** The stored configuration as the observer receives it *)

Definition default_options : Options :=
  {| root := JNull; rootMargin := zero; threshold := zero |}.

(** The decimal text of a number inside a template literal, given for the
    special values and for the integers below [2^53], each of which is a
    double that JavaScript prints as its plain digits; the model gives no
    text for the other numbers. *)
Definition number_text (n : jsnum) : option string :=
  match n with
  | NaN => Some "NaN"
  | PInf => Some "Infinity"
  | NInf => Some "-Infinity"
  | Fin q =>
      let r := Qred q in
      if Pos.eqb (Qden r) 1 && Z.ltb (Z.abs (Qnum r)) (2 ^ 53)
      then Some (pretty (Qnum r))
      else None
  end.

(** The string [`${loadBefore}px`] that [config] stores as [rootMargin]. *)
Definition rootMargin_text (o : Options) : option string :=
  match rootMargin o with
  | JNum n => (fun digits => digits +:+ "px") <$> number_text n
  | _ => None
  end.

(** ** Vocabulary of the statements *)

(** The ranges the specification names for [loadAfter] and [loadBefore]. *)
Definition below_zero (n : jsnum) : Prop :=
  match n with
  | NInf => True
  | Fin q => (q < 0)%Q
  | _ => False
  end.

Definition above_one (n : jsnum) : Prop :=
  match n with
  | PInf => True
  | Fin q => (1 < q)%Q
  | _ => False
  end.

Definition in_unit_interval (v : jsval) : Prop :=
  exists q, v = JNum (Fin q) /\ (0 <= q)%Q /\ (q <= 1)%Q.

Definition nonnegative (v : jsval) : Prop :=
  v = JNum PInf \/ exists q, v = JNum (Fin q) /\ (0 <= q)%Q.

(** An argument that was passed, is not a number or is out of range. *)
Definition rejected_loadAfter (v : jsval) : Prop :=
  v <> JUndefined /\
  (typeof v <> TNumber \/ exists n, v = JNum n /\ (below_zero n \/ above_one n)).

Definition rejected_loadBefore (v : jsval) : Prop :=
  v <> JUndefined /\
  (typeof v <> TNumber \/ exists n, v = JNum n /\ below_zero n).

Definition valid_root (v : jsval) : Prop :=
  v = JUndefined \/ v = JNull \/ exists e, v = JElement e.

(** Every entry of an array is a string. *)
Definition all_strings (paths : list jsval) : Prop :=
  Forall (fun p => exists s, p = JStr s) paths.

(** The strings of an array of strings. *)
Definition string_of (v : jsval) : string :=
  match v with JStr s => s | _ => "" end.

(** A failure of the class the specification calls [c]. *)
Definition fails_with {A} (r : Res A) (c : ErrClass) : Prop :=
  exists e, r = Throw e /\ err_class e = c.

(** Writing payloads [values] to [targets], pairwise and in order. *)
Fixpoint write_all (s : Slot) (d : Store) (targets : list elem) (values : list string) : Store :=
  match targets, values with
  | e :: targets, v :: values => write_all s (store_set_attr d e (slot_attr s) v) targets values
  | _, _ => d
  end.

Section Specification.

Context (P : Platform).

(** A call of a batch operation in state [st] passes every check made
    before the payload loop: the selector is a string that matches the
    elements [els], at least one; [srcTarget] is omitted or a string that
    matches somewhere in the document; [attr] is omitted or a string; the
    reconfiguration, when the call asks for one, is accepted; and the
    host's constructor takes the configuration that is stored then. [t] and
    [at] are the [srcTarget] and [attr] the callback captures. *)
Record valid_setup (st : State) (a : LoadArgs.t) (s : string) (els : list elem)
    (t at' : option string) : Prop := mk_valid_setup {
  vs_selector : default_to JNull (LoadArgs.selector a) = JStr s;
  vs_elements : querySelectorAll P (document st) s = DomOk els;
  vs_matched : els <> [];
  vs_srcTarget :
    match default_to JNull (LoadArgs.srcTarget a) with
    | JNull => t = None
    | JStr ts =>
        t = Some ts /\
        exists m ms, querySelectorAll P (document st) ts = DomOk (m :: ms)
    | _ => False
    end;
  vs_attr :
    match default_to JNull (LoadArgs.attr a) with
    | JNull => at' = None
    | JStr x => at' = Some x
    | _ => False
    end;
  vs_config :
    fst (reconfigure (default_to JNull (LoadArgs.root a))
           (default_to zero (LoadArgs.loadBefore a))
           (default_to zero (LoadArgs.loadAfter a)) st) = Ok tt;
  vs_host :
    acceptsOptions P
      (options (snd (reconfigure (default_to JNull (LoadArgs.root a))
                       (default_to zero (LoadArgs.loadBefore a))
                       (default_to zero (LoadArgs.loadAfter a)) st))) = true
}.

(** The array argument of a batch operation, with its default. *)
Definition paths_of (a : LoadArgs.t) : jsval := default_to (JArray []) (LoadArgs.paths a).

(** *** The reveal operation of sections 4.2 and 4.3, once for both slots

    Section 4.3 describes the video operation as the image operation keyed
    on the other data slot. [reveal_batch] and [reveal_entry] are that one
    algorithm with the slot as a parameter: the slot selects the data
    attribute, the callback installed and the wording of the two payload
    errors, and nothing else. *)
Definition reveal_callback (slot : Slot) (srcTarget attr : option string) : Callback :=
  match slot with
  | ImageSlot => RenderImage srcTarget attr
  | VideoSlot => RenderVideo srcTarget attr
  end.

Fixpoint assign_payload (slot : Slot) (elements : list elem) (paths : list jsval)
    (i : nat) : M unit :=
  match paths with
  | [] => ret tt
  | JStr path :: rest =>
      let* _ := dataset_set (elements !! i) slot path in
      assign_payload slot elements rest (S i)
  | _ :: _ => throw (PathNotString slot)
  end.

(** Validation, optional reconfiguration, a fresh observer in
    [this.#observer], and the resolved elements. *)
Definition batch_setup (slot : Slot) (a : LoadArgs.t) : M (list elem) :=
  let* selector := require_selector P (default_to JNull (LoadArgs.selector a)) SelectorInvalid in
  let* srcTarget := require_srcTarget P (default_to JNull (LoadArgs.srcTarget a)) in
  let* attr := require_attr (default_to JNull (LoadArgs.attr a)) in
  let* _ := reconfigure (default_to JNull (LoadArgs.root a))
              (default_to zero (LoadArgs.loadBefore a))
              (default_to zero (LoadArgs.loadAfter a)) in
  let* opts := gets options in
  let* o := new_IntersectionObserver P (reveal_callback slot srcTarget attr) opts in
  let* _ := modify (set_observer o) in
  document_querySelectorAll P selector.

Definition assign_all (slot : Slot) (elements : list elem) (paths : jsval) : M unit :=
  match paths with
  | JArray paths =>
      if negb (Nat.eqb (length paths) 0) then assign_payload slot elements paths 0 else ret tt
  | _ => throw (PathsNotArray slot)
  end.

Definition subscribe_all (elements : list elem) : M unit :=
  forEach elements (fun elem => on_this_observer (fun i => observe i (Some elem))).

Definition reveal_batch (slot : Slot) (a : LoadArgs.t) : M unit :=
  let* elements := batch_setup slot a in
  let* _ := assign_all slot elements (paths_of a) in
  subscribe_all elements.

(** The write of a payload to its target: the match of [srcTarget] inside
    the element or the element itself, the attribute [attr] or the source
    property. *)
Definition write_payload (srcTarget attr : option string) (elem : elem)
    (path : string) : M unit :=
  match truthy srcTarget with
  | Some srcTarget =>
      let* srcElem := element_querySelector P elem srcTarget in
      match truthy attr with
      | Some attr => setAttribute P srcElem attr path
      | None => set_src srcElem path
      end
  | None =>
      match truthy attr with
      | Some attr => setAttribute P (Some elem) attr path
      | None => set_src (Some elem) path
      end
  end.

Definition reveal_entry (slot : Slot) (srcTarget attr : option string) (observer : nat)
    (entry : Entry) : M unit :=
  if isIntersecting entry then
    let* path := dataset_get (target entry) slot in
    let* _ :=
      match truthy path with
      | Some path => write_payload srcTarget attr (target entry) path
      | None => ret tt
      end in
    unobserve observer (target entry)
  else ret tt.

(** *** The one-shot policy of section 4, for the three batches

    The reveal action on one element: for an image or a video batch the
    pending payload, if there is one, is written to the write target; for a
    callback batch the function is called. A step of the policy is the
    action followed by the removal of the element from observation. *)
Definition reveal_payload (slot : Slot) (srcTarget attr : option string) (e : elem) : M unit :=
  let* path := dataset_get e slot in
  match truthy path with
  | Some path => write_payload srcTarget attr e path
  | None => ret tt
  end.

Definition reveal_action (cb : Callback) (e : elem) : M unit :=
  match cb with
  | RenderImage srcTarget attr => reveal_payload ImageSlot srcTarget attr e
  | RenderVideo srcTarget attr => reveal_payload VideoSlot srcTarget attr e
  | HandleFunctionExecution exeFn => call P exeFn
  end.

Definition reveal_step (cb : Callback) (observer : nat) (entry : Entry) : M unit :=
  let* _ := reveal_action cb (target entry) in
  unobserve observer (target entry).

(** The write target of a reveal of [e]: the match of [srcTarget] inside
    [e], or [e] itself; and the element a write of [v] makes of the write
    target [x]: [v] under the attribute [attr], or as the source. There is
    no write target when [srcTarget] has no match inside [e], and no write
    when the host rejects the name [attr]. *)
Definition write_target (d : Store) (srcTarget : option string) (e : elem) : option elem :=
  match truthy srcTarget with
  | Some srcTarget =>
      match elementQuerySelector P d e srcTarget with
      | DomOk srcElem => srcElem
      | DomSyntax => None
      end
  | None => Some e
  end.

Definition written (attr : option string) (v : string) (x : ElemData) : option ElemData :=
  match truthy attr with
  | Some attr => (fun k => with_attr k v x) <$> attributeKey P attr
  | None => Some (with_src v x)
  end.

End Specification.

(** ** Vocabulary of the batch statements *)

(** How the payload loop ends when it stops in front of entry [next]: past the
    last entry it returns; in front of a string it has run out of elements;
    in front of anything else it rejects the entry. *)
Definition loop_outcome (slot : Slot) (next : option jsval) : Res unit :=
  match next with
  | None => Ok tt
  | Some (JStr _) => Throw NullDereference
  | Some _ => Throw (PathNotString slot)
  end.

(** The state in which a batch operation enters its payload loop: the
    configuration as the reconfiguration left it, and a fresh observer with
    callback [cb], no subscription yet, held in [#observer]. *)
Definition after_setup (cb : Callback) (a : LoadArgs.t) (st : State) : State :=
  let st0 := snd (reconfigure (default_to JNull (LoadArgs.root a))
                    (default_to zero (LoadArgs.loadBefore a))
                    (default_to zero (LoadArgs.loadAfter a)) st) in
  set_observer (length (heap st))
    (set_heap (heap st ++ [{| callback := cb; init := options st0; observed := ∅ |}]) st0).

(** No observer tracks in [st'] an element it did not track in [st]. *)
Definition no_new_subscription (st st' : State) : Prop :=
  forall i e, observes st' i e -> observes st i e.

(** The payload is absent, or is the empty string. *)
Definition no_payload (d : Store) (e : elem) (s : Slot) : Prop :=
  payload d e s = None \/ payload d e s = Some "".

(** [loadImage] for the image slot, [loadVideo] for the video slot. *)
Definition batch_operation (P : Platform) (slot : Slot) : LoadArgs.t -> M unit :=
  match slot with
  | ImageSlot => loadImage P
  | VideoSlot => loadVideo P
  end.

(** The callback of a batch operation, one entry at a time. *)
Definition render_entry (P : Platform) (slot : Slot) :
    option string -> option string -> nat -> Entry -> M unit :=
  match slot with
  | ImageSlot => renderImage_entry P
  | VideoSlot => renderVideo_entry P
  end.

(** [observes], as a test. *)
Definition tracks (st : State) (i : nat) (e : elem) : bool :=
  match heap st !! i with
  | Some o => bool_decide (e ∈ observed o)
  | None => false
  end.

(** The error of the video operation that answers an error of the image
    operation: the two payload errors name the other array. *)
Definition video_error (e : Err) : Err :=
  match e with
  | PathNotString _ => PathNotString VideoSlot
  | PathsNotArray _ => PathsNotArray VideoSlot
  | other => other
  end.

Definition video_outcome (r : Res unit) : Res unit :=
  match r with
  | Ok x => Ok x
  | Throw e => Throw (video_error e)
  end.

(** A fresh observer with callback [cb], built from the stored configuration
    and put in [#observer]. *)
Definition install (cb : Callback) (st : State) : State :=
  set_observer (length (heap st))
    (set_heap (heap st ++ [{| callback := cb; init := options st; observed := ∅ |}]) st).

(** ** A small document to run the model on *)

Module Demo.

(** Two lazy images [0] and [1] (the second with an empty pending path), a
    call-to-action block [2] that contains the [source] element [3], and two
    video clips [4] and [5]. *)
Definition markup (e : elem) : ElemData :=
  match e with
  | 0 => {| attrs := {[ "data-image-url" := "m.jpg" ]}; src := None; reflects_src := true |}
  | 1 => {| attrs := {[ "data-image-url" := "" ]}; src := None; reflects_src := true |}
  | 2 => {| attrs := ∅; src := None; reflects_src := false |}
  | 4 => {| attrs := {[ "data-video-url" := "v.mp4" ]}; src := None; reflects_src := true |}
  | _ => {| attrs := ∅; src := None; reflects_src := true |}
  end.

Definition select_all (_ : Store) (selector : string) : DomResult (list elem) :=
  if String.eqb selector "img.lazy" then DomOk [0; 1]
  else if String.eqb selector "#a" then DomOk [0]
  else if String.eqb selector "#b" then DomOk [1]
  else if String.eqb selector "#cta" then DomOk [2]
  else if String.eqb selector "source" then DomOk [3]
  else if String.eqb selector "video.clip" then DomOk [4; 5]
  else if String.eqb selector "###" then DomSyntax
  else DomOk [].

Definition select_within (_ : Store) (e : elem) (selector : string) : DomResult (option elem) :=
  if String.eqb selector "###" then DomSyntax
  else if String.eqb selector "source" && Nat.eqb e 2 then DomOk (Some 3)
  else DomOk None.

Definition attribute_key (name : string) : option string :=
  if String.eqb name "" || String.eqb name "bad name" then None else Some name.

(** The constructor of this host takes a root that is [null] or an
    element, a margin that is a finite number and a threshold that is a
    number of [0,1]. *)
Definition accepts_options (o : option Options) : bool :=
  match o with
  | None => true
  | Some o =>
      match root o, rootMargin o, threshold o with
      | (JNull | JElement _), JNum (Fin _), JNum (Fin q) => Qle_bool 0 q && Qle_bool q 1
      | _, _, _ => false
      end
  end.

(** The block with one more mark in its attribute [log]. *)
Definition marked (d : Store) : Store :=
  store_set_attr d 2 "log" (default "" (attrs (d 2) !! "log") +:+ "x").

(** Function [0] shows the block; function [1] appends a mark to the
    attribute [log] of the block and then throws; function [2] appends the
    mark and returns; function [3] calls [destroy] on the instance. *)
Definition run_function (f : fn_id) (st : State) : Res unit * State :=
  match f with
  | 0 => (Ok tt, set_document (store_set_src (document st) 2 "shown") st)
  | 1 => (Throw (UserError 7), set_document (marked (document st)) st)
  | 2 => (Ok tt, set_document (marked (document st)) st)
  | 3 => destroy st
  | _ => (Ok tt, st)
  end.

Definition browser : Platform :=
  {| querySelectorAll := select_all;
     elementQuerySelector := select_within;
     attributeKey := attribute_key;
     acceptsOptions := accepts_options;
     callFunction := run_function |}.

(** The controller right after [new LazyLoad()]. *)
Definition fresh : State := snd (new_LazyLoad markup).

Definition load (selector : string) (paths : list jsval) : LoadArgs.t :=
  LoadArgs.mk (JStr selector) JUndefined JUndefined (JArray paths)
    JUndefined JUndefined JUndefined.

Definition load_into (selector srcTarget : string) (paths : list jsval) : LoadArgs.t :=
  LoadArgs.mk (JStr selector) (JStr srcTarget) JUndefined (JArray paths)
    JUndefined JUndefined JUndefined.

Definition run_on_visible (selector : string) (f : fn_id) : ExecArgs.t :=
  ExecArgs.mk (JStr selector) (JFunction f) JUndefined JUndefined JUndefined.

Definition visible (e : elem) : Entry := {| target := e; isIntersecting := true |}.

(** The block watched with the throwing function, and the same watch after
    the block has become visible once. *)
Definition cta_watch : State :=
  snd (executeFn browser (run_on_visible "#cta" 1) fresh).

Definition cta_seen_once : State :=
  snd (deliver browser 0 [visible 2] cta_watch).


(** The block watched with the function that counts its calls. *)
Definition counted_watch : State :=
  snd (executeFn browser (run_on_visible "#cta" 2) fresh).

End Demo.

(** ** Vocabulary of the further statements *)

(** What the two numeric checks of [config] let through: a field left out,
    or a number that is not below the lower bound nor, for [loadAfter],
    above 1. [NaN] is below nothing and above nothing. *)
Definition passes_loadBefore (v : jsval) : Prop :=
  v = JUndefined \/ exists n, v = JNum n /\ ~ below_zero n.

Definition passes_loadAfter (v : jsval) : Prop :=
  v = JUndefined \/ exists n, v = JNum n /\ ~ below_zero n /\ ~ above_one n.

(** The errors a batch operation raises while it checks its arguments. *)
Definition argument_error (e : Err) : Prop :=
  e = SelectorInvalid \/ e = SrcTargetInvalid \/ e = AttrInvalid \/
  e = ExeFnNotFunction \/ err_class e = ConfigError.

(** A call names no configuration of its own: [root], [loadBefore] and
    [loadAfter] are left out, or are [null], [0] and [0]. *)
Definition keeps_configuration (root loadBefore loadAfter : jsval) : Prop :=
  default_to JNull root = JNull /\
  is_zero (default_to zero loadBefore) = true /\
  is_zero (default_to zero loadAfter) = true.

(** The entries of a report that are intersecting, and their targets. *)
Definition intersecting (entries : list Entry) : list Entry :=
  filter (fun en => isIntersecting en = true) entries.

Definition intersecting_targets (entries : list Entry) : gset elem :=
  list_to_set (target <$> intersecting entries).

(** [st'] is [st] after a call has put a fresh observer in [#observer]:
    what the earlier observers track is still tracked, and a [destroy]
    releases what the fresh observer tracks and nothing else. *)
Definition replaces_the_observer (st st' : State) : Prop :=
  observer st' = Some (length (heap st)) /\
  (forall j x, observes st j x -> observes st' j x) /\
  exists st'',
    destroy st' = (Ok tt, st'') /\
    (forall j x, observes st j x -> observes st'' j x) /\
    (forall x, ~ observes st'' (length (heap st)) x).

(** [st'] differs from [st] in the document and in what observer [i]
    tracks, which has not grown. *)
Definition same_but_tracked (i : nat) (st st' : State) : Prop :=
  options st' = options st /\
  observer st' = observer st /\
  length (heap st') = length (heap st) /\
  (forall j, j <> i -> heap st' !! j = heap st !! j) /\
  (forall o, heap st !! i = Some o ->
     exists o', heap st' !! i = Some o' /\
       callback o' = callback o /\ init o' = init o /\ observed o' ⊆ observed o).

(** An element once its payload has been revealed to it: the payload has
    been assigned to its source, or it is as it was when it has no payload. *)
Definition revealed (slot : Slot) (x : ElemData) : ElemData :=
  match truthy (attrs x !! slot_attr slot) with
  | Some v => with_src v x
  | None => x
  end.

(** [d'] is [d] after the elements of [targets] have had their payloads
    assigned to their own source, and nothing else has changed. *)
Definition plain_reveal_of (slot : Slot) (targets : gset elem) (d d' : Store) : Prop :=
  (forall e, e ∈ targets -> d' e = revealed slot (d e)) /\
  (forall e, e ∉ targets -> d' e = d e).

(** The entries of a report on which the callback of observer [o] acts:
    those that are intersecting and whose target [o] tracks when the report
    arrives. *)
Definition fired (o : Observer) (es : list Entry) : list Entry :=
  filter (fun en => isIntersecting en = true /\ target en ∈ observed o) es.

(** A user function that leaves the controller alone: it calls no method
    of the instance. *)
Definition keeps_the_controller (P : Platform) (f : fn_id) : Prop :=
  forall st,
    options (snd (callFunction P f st)) = options st /\
    observer (snd (callFunction P f st)) = observer st /\
    heap (snd (callFunction P f st)) = heap st.

(** A callback that runs no code but the class's own, or a user function
    that leaves the controller alone. *)
Definition quiet_callback (P : Platform) (cb : Callback) : Prop :=
  match cb with
  | HandleFunctionExecution f => keeps_the_controller P f
  | _ => True
  end.

(** The failures of a batch operation that happen after its argument
    checks: in the selector engine, in the observer's constructor and in
    the payload phase. *)
Definition setup_error (slot : Slot) (e : Err) : Prop :=
  e = DomSyntaxError \/ e = ObserverInitError \/ e = PathNotString slot \/
  e = PathsNotArray slot \/ e = NullDereference.

(** What a caller sees of a call: that it returned, or the error it threw
    with the message the revision gives it. *)
Inductive Seen : Type :=
| Returned
| Threw (e : Err) (message : option string).

Definition seen (message : Err -> option string) (r : Res unit) : Seen :=
  match r with
  | Ok _ => Returned
  | Throw e => Threw e (message e)
  end.

(** The same outcome with the prefix the last revision puts in front of
    the messages of the class. *)
Definition prefixed (o : Seen) : Seen :=
  match o with
  | Returned => Returned
  | Threw e m => Threw e (failed_to_construct <$> m)
  end.

(** ** The earlier revisions of the class

    [src/lazyload.js] opens with the first revision of the class, and
    [src/unnamed/part_000] holds the second, whose methods are word for
    word those of the first but for [config], which validates its
    arguments, and for [checkValidDOMElement], which it adds. Both run
    [#checkValidCSSSelector] on the selector before they test its type, so
    that [document.querySelector] receives whatever the caller passed; the
    text the host makes of a value is the parameter [toDOMString]. *)

Module Rev1.

Section Revision.

Context (P : Platform) (toDOMString : jsval -> string).

(** [config({ root = null, rootMargin = 0, threshold = 0 } = {})]: no check. *)
Definition config (root rootMargin threshold : jsval) : M unit :=
  modify (set_options {| root := default_to JNull root;
                         rootMargin := default_to zero rootMargin;
                         threshold := default_to zero threshold |}).

Definition new_LazyLoad (d : Store) : Res unit * State :=
  config JUndefined JUndefined JUndefined
    {| options := None; observer := None; heap := []; document := d |}.

Definition checkValidCSSSelector (selector : jsval) : M bool :=
  let* checkSelector := document_querySelector P (toDOMString selector) in
  match checkSelector with
  | Some _ => ret true
  | None => ret false
  end.

(** The loop [for (let i = 0; i < elements.length; i++)], entered at index
    [i] with [todo] the elements from [i] on, of which [elements[i]] is the
    first; [images[i]] is [undefined] past the end of the array. *)
Fixpoint assign_imageUrl (todo : list elem) (images : list jsval) (i : nat) : M unit :=
  match todo with
  | [] => ret tt
  | elem :: rest =>
      match images !! i with
      | Some (JStr path) =>
          let* _ := dataset_set (Some elem) ImageSlot path in
          assign_imageUrl rest images (S i)
      | _ => throw (PathNotString ImageSlot)
      end
  end.

(** The method [#renderImage], which the class hands to the observer as
    it is: an entry at a time, then over the entries. *)
Definition renderImage_entry (observer : nat) (entry : Entry) : M unit :=
  if isIntersecting entry then
    let img := target entry in
    let* path := dataset_get img ImageSlot in
    let* _ :=
      match truthy path with
      | Some path => set_src (Some img) path
      | None => ret tt
      end in
    unobserve observer img
  else ret tt.

Definition renderImage (entries : list Entry) (observer : nat) : M unit :=
  forEach entries (renderImage_entry observer).

(** The callback [this.#renderImage] is recorded as [RenderImage None None],
    the callback of the last revision without [srcTarget] and [attr]: the
    two run alike on every report. *)
Definition loadImage (selector images : jsval) : M unit :=
  let selector := default_to JNull selector in
  let images := default_to (JArray []) images in
  let* isValidSelector := checkValidCSSSelector selector in
  if is_null selector || is_undefined selector
     || negb (jstype_eqb (typeof selector) TString) || negb isValidSelector
  then throw SelectorInvalid
  else
    let* opts := gets options in
    let* o := new_IntersectionObserver P (RenderImage None None) opts in
    let* _ := modify (set_observer o) in
    let* elements := document_querySelectorAll P (toDOMString selector) in
    let* _ :=
      match images with
      | JArray images =>
          if negb (Nat.eqb (length images) 0) then assign_imageUrl elements images 0
          else ret tt
      | _ => throw (PathsNotArray ImageSlot)
      end in
    forEach elements (fun elem => on_this_observer (fun i => observe i (Some elem))).

(** [#handleFunctionExecution] has the text it has in the last revision:
    its closure is the callback [HandleFunctionExecution]. *)
Definition executeFn (selector exeFn : jsval) : M unit :=
  let selector := default_to JNull selector in
  let exeFn := default_to JNull exeFn in
  let* isValidSelector := checkValidCSSSelector selector in
  if is_null selector || is_undefined selector
     || negb (jstype_eqb (typeof selector) TString) || negb isValidSelector
  then throw SelectorInvalid
  else
    match exeFn with
    | JFunction f =>
        if is_null selector || is_undefined selector then throw ExeFnNotFunction
        else
          let* opts := gets options in
          let* o := new_IntersectionObserver P (HandleFunctionExecution f) opts in
          let* _ := modify (set_observer o) in
          let* element := document_querySelector P (toDOMString selector) in
          on_this_observer (fun i => observe i element)
    | _ => throw ExeFnNotFunction
    end.

End Revision.

(** The messages of the errors of this revision. *)
Definition err_message (e : Err) : option string :=
  match e with
  | SelectorInvalid =>
      Some (quoted "selector" +:+ " is required and must be a valid CSS selector")
  | PathNotString ImageSlot => Some "Image path must be a string"
  | PathsNotArray ImageSlot => Some (quoted "images" +:+ " must be an array of string!")
  | ExeFnNotFunction => Some (quoted "exeFn" +:+ " must be a function")
  | _ => None
  end.

End Rev1.

Module Rev2.

Definition invalid_loadAfter (loadAfter : jsval) : bool :=
  is_null loadAfter || is_undefined loadAfter
  || negb (jstype_eqb (typeof loadAfter) TNumber) || js_lt loadAfter zero.

(** [config] of [src/unnamed/part_000]: the checks of the last revision but
    for the upper bound of [loadAfter]. *)
Definition config (root loadBefore loadAfter : jsval) : M unit :=
  let root := default_to JNull root in
  let loadBefore := default_to zero loadBefore in
  let loadAfter := default_to zero loadAfter in
  let isValidDOM := if negb (is_null root) then checkValidDOMElement root else true in
  if negb isValidDOM then throw RootInvalid
  else if invalid_loadBefore loadBefore then throw LoadBeforeInvalid
  else if invalid_loadAfter loadAfter then throw LoadAfterInvalid
  else modify (set_options {| root := root; rootMargin := loadBefore; threshold := loadAfter |}).

Definition err_message (e : Err) : option string :=
  match e with
  | RootInvalid => Some (quoted "root" +:+ " must be a valid DOM element!")
  | LoadBeforeInvalid => Some (quoted "loadBefore" +:+ " must be a positive number!")
  | LoadAfterInvalid => Some (quoted "loadAfter" +:+ " must be a positive number!")
  | other => Rev1.err_message other
  end.

End Rev2.

(** A stand-in for the host's conversion of a selector argument to text. *)
Definition demo_text (v : jsval) : string :=
  match v with
  | JStr s => s
  | JNull => "null"
  | JUndefined => "undefined"
  | JBool true => "true"
  | JBool false => "false"
  | _ => "[object Object]"
  end.

(** In [d] the selector text [s] matches the elements [els], which are
    distinct, and [toDOMString] leaves a string as it is. *)
Definition resolves (P : Platform) (toDOMString : jsval -> string) (d : Store)
    (s : string) (els : list elem) : Prop :=
  (forall x, toDOMString (JStr x) = x) /\
  querySelectorAll P d s = DomOk els /\
  NoDup els.

(** An options object passed to [config], with the keys the revisions
    read: the first destructures [root], [rootMargin] and [threshold], the
    second and the last [root], [loadBefore] and [loadAfter]. A key the
    caller left out is [undefined]. *)
Module ConfigObject.
Record t : Type := mk {
  root : jsval;
  rootMargin : jsval;
  threshold : jsval;
  loadBefore : jsval;
  loadAfter : jsval
}.
End ConfigObject.

Definition config_first (o : ConfigObject.t) : M unit :=
  Rev1.config (ConfigObject.root o) (ConfigObject.rootMargin o) (ConfigObject.threshold o).

Definition config_second (o : ConfigObject.t) : M unit :=
  Rev2.config (ConfigObject.root o) (ConfigObject.loadBefore o) (ConfigObject.loadAfter o).

Definition config_last (o : ConfigObject.t) : M unit :=
  config (ConfigArgs.mk (ConfigObject.root o) (ConfigObject.loadBefore o)
            (ConfigObject.loadAfter o)).

(** * Properties *)

(** ** The monad *)

Lemma bind_ok {A B} (m : M A) (k : A -> M B) st a st' :
  m st = (Ok a, st') -> bind m k st = k a st'.
Proof. intros H. unfold bind. now rewrite H. Qed.

Lemma bind_throw {A B} (m : M A) (k : A -> M B) st e st' :
  m st = (Throw e, st') -> bind m k st = (Throw e, st').
Proof. intros H. unfold bind. now rewrite H. Qed.

Lemma bind_assoc {A B C} (m : M A) (f : A -> M B) (g : B -> M C) st :
  bind (bind m f) g st = bind m (fun x => bind (f x) g) st.
Proof. unfold bind. destruct (m st) as [[a | e] st']; reflexivity. Qed.

Lemma bind_ext {A B} (m : M A) (f g : A -> M B) st :
  (forall a st', f a st' = g a st') -> bind m f st = bind m g st.
Proof. intros H. unfold bind. destruct (m st) as [[a | e] st']; [apply H | reflexivity]. Qed.

(** One step of comparing two programs that start with the same computation. *)
Ltac same_step := repeat rewrite bind_assoc; apply bind_ext; intros ? ?; cbv beta.

(** ** C2: validation in [config] *)

Section ConfigFacts.

Lemma num_lt_below_zero n : below_zero n -> num_lt n (Fin 0) = true.
Proof.
  destruct n as [| | |q]; simpl; try tauto.
  intros H. apply negb_true_iff. apply not_true_is_false.
  rewrite Qle_bool_iff. now apply Qlt_not_le.
Qed.

Lemma num_lt_above_one n : above_one n -> num_lt (Fin 1) n = true.
Proof.
  destruct n as [| | |q]; simpl; try tauto.
  intros H. apply negb_true_iff. apply not_true_is_false.
  rewrite Qle_bool_iff. now apply Qlt_not_le.
Qed.

Lemma num_lt_not_below q : (0 <= q)%Q -> num_lt (Fin q) (Fin 0) = false.
Proof.
  intros H. simpl. apply negb_false_iff. now apply Qle_bool_iff.
Qed.

Lemma num_lt_not_above q : (q <= 1)%Q -> num_lt (Fin 1) (Fin q) = false.
Proof.
  intros H. simpl. apply negb_false_iff. now apply Qle_bool_iff.
Qed.

Lemma rejected_loadAfter_invalid v :
  rejected_loadAfter v -> invalid_loadAfter (default_to zero v) = true.
Proof.
  intros [Hdef [Hty | (n & -> & Hn)]].
  - destruct v; simpl in *; try congruence; reflexivity.
  - unfold invalid_loadAfter, js_gt, js_lt, zero, one.
    cbn [default_to is_null is_undefined typeof jstype_eqb negb orb].
    destruct Hn as [Hn | Hn].
    + now rewrite (num_lt_below_zero _ Hn).
    + rewrite (num_lt_above_one _ Hn). apply orb_true_r.
Qed.

Lemma rejected_loadBefore_invalid v :
  rejected_loadBefore v -> invalid_loadBefore (default_to zero v) = true.
Proof.
  intros [Hdef [Hty | (n & -> & Hn)]].
  - destruct v; simpl in *; try congruence; reflexivity.
  - unfold invalid_loadBefore, js_lt, zero.
    cbn [default_to is_null is_undefined typeof jstype_eqb negb orb].
    now rewrite (num_lt_below_zero _ Hn).
Qed.

Lemma in_unit_interval_accepted v :
  in_unit_interval v -> invalid_loadAfter (default_to zero v) = false.
Proof.
  intros (q & -> & H0 & H1). unfold invalid_loadAfter, js_gt, js_lt, zero, one.
  cbn [default_to is_null is_undefined typeof jstype_eqb negb orb].
  now rewrite num_lt_not_below, num_lt_not_above.
Qed.

Lemma nonnegative_accepted v :
  nonnegative v -> invalid_loadBefore (default_to zero v) = false.
Proof.
  intros [-> | (q & -> & H0)]; [reflexivity|].
  unfold invalid_loadBefore, js_lt, zero.
  cbn [default_to is_null is_undefined typeof jstype_eqb negb orb].
  now rewrite num_lt_not_below.
Qed.

Lemma valid_root_accepted v :
  valid_root v ->
  (if negb (is_null (default_to JNull v))
   then checkValidDOMElement (default_to JNull v) else true) = true.
Proof. intros [-> | [-> | [e ->]]]; reflexivity. Qed.

(** Whatever [config] throws is a configuration error, and it throws before
    it stores anything. *)
Lemma config_throws_ConfigError a st e st' :
  config a st = (Throw e, st') -> err_class e = ConfigError /\ st' = st.
Proof.
  unfold config, throw, modify.
  repeat match goal with
         | |- context [if ?b then _ else _] => destruct b
         end;
    intros H; inversion H; subst; auto.
Qed.

End ConfigFacts.

(** C2. For every call to [config]: a [loadAfter] argument that is not a
    number, is below 0 or is above 1 makes the call throw a configuration
    error, and so does a [loadBefore] argument that is not a number or is
    negative; no [loadAfter] in [0,1] and no [loadBefore >= 0] is ever the
    reason of a rejection, and a call whose [root] is valid, whose
    [loadBefore] is [>= 0] and whose [loadAfter] is in [0,1] is accepted and
    stores exactly these values. A rejected call leaves the state as it was.
    An argument is a field the caller passed: a field left out, which is
    [undefined], takes its default [0]. *)
Theorem config_validation (root loadBefore loadAfter : jsval) (st : State) :
  let r := config (ConfigArgs.mk root loadBefore loadAfter) st in
  (rejected_loadAfter loadAfter -> fails_with (fst r) ConfigError /\ snd r = st) /\
  (rejected_loadBefore loadBefore -> fails_with (fst r) ConfigError /\ snd r = st) /\
  (in_unit_interval loadAfter -> fst r <> Throw LoadAfterInvalid) /\
  (nonnegative loadBefore -> fst r <> Throw LoadBeforeInvalid) /\
  (valid_root root -> nonnegative loadBefore -> in_unit_interval loadAfter ->
   r = (Ok tt,
        set_options {| root := default_to JNull root;
                       rootMargin := loadBefore;
                       threshold := loadAfter |} st)).
Proof.
  cbv zeta. repeat split.
  - apply rejected_loadAfter_invalid in H.
    unfold config, ConfigArgs.root, ConfigArgs.loadBefore, ConfigArgs.loadAfter.
    rewrite H.
    repeat match goal with
           | |- context [if ?b then _ else _] => destruct b
           end; simpl; eexists; split; try reflexivity; reflexivity.
  - apply rejected_loadAfter_invalid in H.
    unfold config, ConfigArgs.root, ConfigArgs.loadBefore, ConfigArgs.loadAfter.
    rewrite H.
    repeat match goal with
           | |- context [if ?b then _ else _] => destruct b
           end; reflexivity.
  - apply rejected_loadBefore_invalid in H.
    unfold config, ConfigArgs.root, ConfigArgs.loadBefore, ConfigArgs.loadAfter.
    rewrite H.
    repeat match goal with
           | |- context [if ?b then _ else _] => destruct b
           end; simpl; eexists; split; try reflexivity; reflexivity.
  - apply rejected_loadBefore_invalid in H.
    unfold config, ConfigArgs.root, ConfigArgs.loadBefore, ConfigArgs.loadAfter.
    rewrite H.
    repeat match goal with
           | |- context [if ?b then _ else _] => destruct b
           end; reflexivity.
  - intros Hin. apply in_unit_interval_accepted in Hin.
    unfold config, ConfigArgs.root, ConfigArgs.loadBefore, ConfigArgs.loadAfter.
    rewrite Hin.
    repeat match goal with
           | |- context [if ?b then _ else _] => destruct b
           end; simpl; congruence.
  - intros Hin. apply nonnegative_accepted in Hin.
    unfold config, ConfigArgs.root, ConfigArgs.loadBefore, ConfigArgs.loadAfter.
    rewrite Hin.
    repeat match goal with
           | |- context [if ?b then _ else _] => destruct b
           end; simpl; congruence.
  - intros Hr Hb Ha.
    pose proof (valid_root_accepted _ Hr) as Er.
    pose proof (nonnegative_accepted _ Hb) as Eb.
    pose proof (in_unit_interval_accepted _ Ha) as Ea.
    unfold config, ConfigArgs.root, ConfigArgs.loadBefore, ConfigArgs.loadAfter.
    rewrite Er, Eb, Ea. simpl.
    destruct Hb as [-> | (qb & -> & _)], Ha as (qa & -> & _); reflexivity.
Qed.

Lemma config_validation_witness :
  fails_with (fst (config (ConfigArgs.mk JNull zero (JNum (Fin 2))) Demo.fresh)) ConfigError /\
  fails_with (fst (config (ConfigArgs.mk JNull (JStr "50") zero) Demo.fresh)) ConfigError /\
  config (ConfigArgs.mk JNull (JNum (Fin 50)) (JNum (Fin (1 # 2)))) Demo.fresh =
    (Ok tt,
     set_options {| root := JNull; rootMargin := JNum (Fin 50); threshold := JNum (Fin (1 # 2)) |}
       Demo.fresh).
Proof.
  split; [| split].
  - pose proof (config_validation JNull zero (JNum (Fin 2)) Demo.fresh) as H.
    cbv zeta in H. destruct H as (H & _). apply H.
    split; [discriminate |]. right. exists (Fin 2). split; [reflexivity |].
    right. reflexivity.
  - pose proof (config_validation JNull (JStr "50") zero Demo.fresh) as H.
    cbv zeta in H. destruct H as (_ & H & _). apply H.
    split; [discriminate |]. left. discriminate.
  - pose proof (config_validation JNull (JNum (Fin 50)) (JNum (Fin (1 # 2))) Demo.fresh) as H.
    cbv zeta in H. destruct H as (_ & _ & _ & _ & H). apply H.
    + right. left. reflexivity.
    + right. exists 50%Q. split; [reflexivity | discriminate].
    + exists (1 # 2)%Q. split; [reflexivity |]. split; discriminate.
Defined.

(** ** C7: [destroy] *)

Lemma config_defaults st :
  config ConfigArgs.none st = (Ok tt, set_options default_options st).
Proof. reflexivity. Qed.

Lemma new_LazyLoad_fresh d :
  new_LazyLoad d =
    (Ok tt, {| options := Some default_options; observer := None; heap := []; document := d |}).
Proof. reflexivity. Qed.

Lemma alter_observed_lookup (f : gset elem -> gset elem) (h : list Observer) (i j : nat) :
  alter (with_observed f) i h !! j =
    if decide (i = j) then with_observed f <$> h !! j else h !! j.
Proof.
  rewrite list_lookup_alter. destruct (decide (i = j)) as [-> | Hne]; reflexivity.
Qed.

(** C7. [destroy] stores the default configuration (root [null], margin
    [0px], threshold [0]) and disconnects the observer held in [#observer],
    which then tracks no element, every other observer and the document
    being left alone; when [#observer] is still [null], as it is until a
    batch operation has built an observer and in particular right after
    construction, the call resets the configuration and then fails on the
    [null] dereference. *)
Theorem destroy_resets_and_disconnects (st : State) :
  (root default_options = JNull /\
   rootMargin_text default_options = Some "0px" /\
   threshold default_options = zero) /\
  (forall i, observer st = Some i ->
     exists st',
       destroy st = (Ok tt, st') /\
       options st' = Some default_options /\
       (forall e, ~ observes st' i e) /\
       (forall j, j <> i -> heap st' !! j = heap st !! j) /\
       observer st' = Some i /\ document st' = document st) /\
  (observer st = None ->
     destroy st = (Throw NullDereference, set_options default_options st)) /\
  (forall d, fst (destroy (snd (new_LazyLoad d))) = Throw NullDereference).
Proof.
  split; [| split; [| split]].
  - repeat split; reflexivity.
  - intros i Hi. eexists. split.
    + unfold destroy. rewrite (bind_ok _ _ _ _ _ (config_defaults st)).
      unfold on_this_observer, bind, gets. simpl. rewrite Hi. reflexivity.
    + simpl. repeat split; try assumption.
      * intros e (o & Ho & He). cbn [heap set_heap set_options] in Ho.
        rewrite alter_observed_lookup in Ho.
        rewrite decide_True in Ho by reflexivity.
        destruct (heap st !! i) as [o0 |]; simpl in Ho; [| discriminate].
        inversion Ho; subst. simpl in He. set_solver.
      * intros j Hj. cbn [heap set_heap set_options].
        rewrite alter_observed_lookup.
        now rewrite decide_False by congruence.
  - intros Hn. unfold destroy. rewrite (bind_ok _ _ _ _ _ (config_defaults st)).
    unfold on_this_observer, bind, gets. simpl. now rewrite Hn.
  - intros d. reflexivity.
Qed.

Lemma destroy_resets_and_disconnects_witness :
  exists st',
    destroy (set_observer 0 (set_heap [mkObserver (RenderImage None None) None {[ 3 ]}] Demo.fresh))
      = (Ok tt, st') /\
    options st' = Some default_options /\
    (forall e, ~ observes st' 0 e).
Proof.
  destruct (destroy_resets_and_disconnects
              (set_observer 0 (set_heap [mkObserver (RenderImage None None) None {[ 3 ]}] Demo.fresh)))
    as (_ & H & _).
  destruct (H 0 eq_refl) as (st' & Hrun & Hopt & Hobs & _).
  exists st'. repeat split; assumption.
Defined.

(** ** C6: a selector that matches nothing *)

Section SelectorFacts.

Context (P : Platform).

Lemma checkValidCSSSelector_run s st :
  checkValidCSSSelector P s st =
    match querySelectorAll P (document st) s with
    | DomOk [] => (Ok false, st)
    | DomOk (_ :: _) => (Ok true, st)
    | DomSyntax => (Throw DomSyntaxError, st)
    end.
Proof.
  unfold checkValidCSSSelector, document_querySelector, document_querySelectorAll, bind, ret.
  destruct (querySelectorAll P (document st) s) as [[| m ms] |]; reflexivity.
Qed.

Lemma require_selector_run s e st :
  require_selector P (JStr s) e st =
    match querySelectorAll P (document st) s with
    | DomOk [] => (Throw e, st)
    | DomOk (_ :: _) => (Ok s, st)
    | DomSyntax => (Throw DomSyntaxError, st)
    end.
Proof.
  unfold require_selector, bind. rewrite checkValidCSSSelector_run.
  destruct (querySelectorAll P (document st) s) as [[| m ms] |]; reflexivity.
Qed.


End SelectorFacts.




(** ** The document store *)

Lemma upd_same d e x : upd d e x e = x.
Proof. unfold upd. now rewrite Nat.eqb_refl. Qed.

Lemma upd_other d e x e' : e' <> e -> upd d e x e' = d e'.
Proof. intros H. unfold upd. apply Nat.eqb_neq in H. now rewrite H. Qed.

Lemma set_document_id st : set_document (document st) st = st.
Proof. now destruct st. Qed.

Lemma set_heap_id st : set_heap (heap st) st = st.
Proof. now destruct st. Qed.

Lemma write_all_other s d targets values e :
  e ∉ targets -> write_all s d targets values e = d e.
Proof.
  revert d values.
  induction targets as [| x targets IH]; intros d [| v values] He; simpl; try reflexivity.
  rewrite IH by set_solver. unfold store_set_attr. apply upd_other. set_solver.
Qed.

Lemma write_all_payload s targets :
  NoDup targets ->
  forall d values j e v,
    targets !! j = Some e -> values !! j = Some v ->
    payload (write_all s d targets values) e s = Some v.
Proof.
  induction 1 as [| x targets Hx Hnd IH]; intros d values j e v He Hv.
  - discriminate.
  - destruct values as [| v0 values]; [discriminate |].
    destruct j as [| j]; simpl in *.
    + inversion He; inversion Hv; subst. unfold payload.
      rewrite write_all_other by assumption.
      unfold store_set_attr. rewrite upd_same. simpl. apply lookup_insert_eq.
    + eapply IH; eassumption.
Qed.

(** A write of payloads touches the slot's data attribute and nothing else. *)
Lemma write_all_frame s targets :
  forall d values e,
    src (write_all s d targets values e) = src (d e) /\
    forall k, k <> slot_attr s ->
      attrs (write_all s d targets values e) !! k = attrs (d e) !! k.
Proof.
  induction targets as [| x targets IH]; intros d [| v values] e; simpl; auto.
  destruct (IH (store_set_attr d x (slot_attr s) v) values e) as [Hs Ha].
  unfold store_set_attr in *.
  destruct (decide (e = x)) as [-> | Hne].
  - rewrite upd_same in *. simpl in *. split; [exact Hs |].
    intros k Hk. rewrite Ha by assumption. now apply lookup_insert_ne.
  - rewrite upd_other in * by assumption. split; assumption.
Qed.

(** ** The payload loop and the subscription loop *)

Lemma assign_imageUrl_generic els paths :
  forall i st, assign_imageUrl els paths i st = assign_payload ImageSlot els paths i st.
Proof.
  induction paths as [| p paths IH]; intros i st; [reflexivity |].
  destruct p; try reflexivity. simpl. unfold bind.
  destruct (dataset_set (els !! i) ImageSlot s st) as [[[] | e] st1]; [apply IH | reflexivity].
Qed.

Lemma assign_videoUrl_generic els paths :
  forall i st, assign_videoUrl els paths i st = assign_payload VideoSlot els paths i st.
Proof.
  induction paths as [| p paths IH]; intros i st; [reflexivity |].
  destruct p; try reflexivity. simpl. unfold bind.
  destruct (dataset_set (els !! i) VideoSlot s st) as [[[] | e] st1]; [apply IH | reflexivity].
Qed.

(** The loop performs some number [k] of assignments, to the elements
    [i .. i+k-1] from the entries [0 .. k-1], and stops in front of entry [k]. *)
Lemma assign_payload_run slot els paths :
  forall i st, exists k,
    k <= length paths /\
    (forall j, j < k -> i + j < length els /\ exists v, paths !! j = Some (JStr v)) /\
    (forall v, paths !! k = Some (JStr v) -> length els <= i + k) /\
    assign_payload slot els paths i st =
      (loop_outcome slot (paths !! k),
       set_document
         (write_all slot (document st) (take k (drop i els)) (string_of <$> take k paths)) st).
Proof.
  induction paths as [| p paths IH]; intros i st.
  - exists 0. repeat split; try (simpl; lia); try discriminate.
    simpl. unfold ret. now rewrite set_document_id.
  - assert (Hstop : forall r, (forall v, p = JStr v -> length els <= i) ->
              assign_payload slot els (p :: paths) i st = (r, st) ->
              r = loop_outcome slot (Some p) ->
              exists k, k <= length (p :: paths) /\
                (forall j, j < k -> i + j < length els /\
                   exists v, (p :: paths) !! j = Some (JStr v)) /\
                (forall v, (p :: paths) !! k = Some (JStr v) -> length els <= i + k) /\
                assign_payload slot els (p :: paths) i st =
                  (loop_outcome slot ((p :: paths) !! k),
                   set_document
                     (write_all slot (document st) (take k (drop i els))
                        (string_of <$> take k (p :: paths))) st)).
    { intros r Hlen Hrun ->. exists 0. repeat split; try (simpl; lia).
      - intros v Hv. simpl in Hv. inversion Hv; subst. rewrite Nat.add_0_r. eauto.
      - rewrite Hrun. simpl. now rewrite set_document_id. }
    destruct p as [| | b | n | v | items | f | e |];
      try (eapply Hstop; [discriminate | reflexivity | reflexivity]).
    destruct (els !! i) as [e |] eqn:He.
    + destruct (IH (S i) (set_document (store_set_attr (document st) e (slot_attr slot) v) st))
        as (k & Hk & Hpre & Hstr & Hrun).
      exists (S k). split; [simpl; lia |]. split; [| split].
      * intros [| j] Hj.
        -- split; [| exists v; reflexivity].
           rewrite Nat.add_0_r. eapply lookup_lt_Some; eassumption.
        -- destruct (Hpre j) as [Hlt Hv]; [lia |]. split; [lia | exact Hv].
      * intros w Hw. simpl in Hw. specialize (Hstr w Hw). lia.
      * simpl. unfold bind. rewrite He. simpl.
        unfold modify. rewrite Hrun. rewrite (drop_S _ _ _ He). reflexivity.
    + eapply Hstop.
      * intros w _. now apply lookup_ge_None.
      * simpl. unfold bind. rewrite He. reflexivity.
      * reflexivity.
Qed.

Lemma with_observed_compose f g o :
  with_observed f (with_observed g o) = with_observed (fun s => f (g s)) o.
Proof. reflexivity. Qed.

Lemma subscribe_all_run els :
  forall st n,
    observer st = Some n ->
    subscribe_all els st =
      (Ok tt, set_heap (alter (with_observed (fun s => list_to_set els ∪ s)) n (heap st)) st).
Proof.
  induction els as [| e els IH]; intros st n Hn.
  - unfold subscribe_all. simpl. unfold ret. f_equal.
    rewrite list_alter_id; [now rewrite set_heap_id |].
    intros [cb ini obs]. unfold with_observed. simpl. f_equal. set_solver.
  - unfold subscribe_all in *. simpl.
    unfold bind at 1. unfold on_this_observer at 1. unfold bind at 1, gets at 1.
    rewrite Hn. simpl. unfold modify at 1.
    rewrite (IH _ n) by exact Hn. f_equal. simpl.
    rewrite list_alter_alter_eq. unfold set_heap. simpl. f_equal.
    apply list_alter_ext; [| reflexivity].
    intros [cb ini obs] _. unfold with_observed. simpl. f_equal. set_solver.
Qed.

(** ** Setting up a batch *)

Section BatchFacts.

Context (P : Platform).

(** A reconfiguration touches the stored configuration only. *)
Lemma reconfigure_frame root loadBefore loadAfter st r st' :
  reconfigure root loadBefore loadAfter st = (r, st') ->
  observer st' = observer st /\ heap st' = heap st /\ document st' = document st.
Proof.
  unfold reconfigure, config, throw, modify, ret.
  repeat match goal with
         | |- context [if ?b then _ else _] => destruct b
         end;
    intros H; inversion H; subst; auto.
Qed.

Lemma after_setup_document cb a st : document (after_setup cb a st) = document st.
Proof.
  unfold after_setup. cbn [document set_observer set_heap].
  eapply reconfigure_frame. apply surjective_pairing.
Qed.

Lemma after_setup_observer cb a st : observer (after_setup cb a st) = Some (length (heap st)).
Proof. reflexivity. Qed.

Lemma after_setup_heap cb a st :
  exists opts,
    heap (after_setup cb a st) =
      (heap st ++ [{| callback := cb; init := opts; observed := ∅ |}])%list.
Proof.
  unfold after_setup. cbn [heap set_observer set_heap]. eexists. reflexivity.
Qed.

(** The image and the video operation are the one reveal operation. *)
Lemma loadImage_generic a st : loadImage P a st = reveal_batch P ImageSlot a st.
Proof.
  unfold loadImage, reveal_batch, batch_setup. cbv zeta.
  do 8 same_step.
  unfold bind, assign_all, paths_of, subscribe_all.
  destruct (default_to (JArray []) (LoadArgs.paths a)) as [| | | | | items | | |];
    try reflexivity.
  destruct (negb (Nat.eqb (length items) 0)); [| reflexivity].
  now rewrite assign_imageUrl_generic.
Qed.

Lemma loadVideo_generic a st : loadVideo P a st = reveal_batch P VideoSlot a st.
Proof.
  unfold loadVideo, reveal_batch, batch_setup. cbv zeta.
  do 8 same_step.
  unfold bind, assign_all, paths_of, subscribe_all.
  destruct (default_to (JArray []) (LoadArgs.paths a)) as [| | | | | items | | |];
    try reflexivity.
  destruct (negb (Nat.eqb (length items) 0)); [| reflexivity].
  now rewrite assign_videoUrl_generic.
Qed.

Lemma renderImage_entry_generic t at' i en st :
  renderImage_entry P t at' i en st = reveal_entry P ImageSlot t at' i en st.
Proof. reflexivity. Qed.

Lemma renderVideo_entry_generic t at' i en st :
  renderVideo_entry P t at' i en st = reveal_entry P VideoSlot t at' i en st.
Proof. reflexivity. Qed.

(** A call that passes the checks enters the payload loop in [after_setup]
    with the elements its selector matches. *)
Lemma batch_setup_run slot st a s els t at' :
  valid_setup P st a s els t at' ->
  batch_setup P slot a st = (Ok els, after_setup (reveal_callback slot t at') a st).
Proof.
  intros [Hsel Hels Hne Htgt Hattr Hcfg Hhost].
  unfold batch_setup. rewrite Hsel.
  erewrite bind_ok; cycle 1.
  { rewrite require_selector_run, Hels. destruct els; [congruence | reflexivity]. }
  erewrite bind_ok with (a := t); cycle 1.
  { destruct (default_to JNull (LoadArgs.srcTarget a)); try contradiction.
    - now subst t.
    - destruct Htgt as (-> & m & ms & Hm). unfold require_srcTarget.
      erewrite bind_ok; [reflexivity |].
      now rewrite require_selector_run, Hm. }
  erewrite bind_ok with (a := at'); cycle 1.
  { destruct (default_to JNull (LoadArgs.attr a)); try contradiction; now subst at'. }
  set (rc := reconfigure _ _ _) in *.
  destruct (rc st) as [r st0] eqn:Hrc. simpl in Hcfg, Hhost. subst r.
  destruct (reconfigure_frame _ _ _ _ _ _ Hrc) as (Ho & Hh & Hd).
  erewrite bind_ok by exact Hrc.
  unfold bind, gets, new_IntersectionObserver, modify, document_querySelectorAll.
  rewrite Hhost.
  cbn [document set_observer set_heap heap]. rewrite Hd, Hels, Hh.
  unfold after_setup. fold rc. rewrite Hrc. reflexivity.
Qed.

Lemma reveal_batch_run slot st a s els t at' :
  valid_setup P st a s els t at' ->
  reveal_batch P slot a st =
    bind (assign_all slot els (paths_of a)) (fun _ => subscribe_all els)
      (after_setup (reveal_callback slot t at') a st).
Proof.
  intros H. unfold reveal_batch.
  now rewrite (bind_ok _ _ _ _ _ (batch_setup_run slot _ _ _ _ _ _ H)).
Qed.

End BatchFacts.

(** ** Running a batch on a valid call *)

Section BatchRuns.

Context (P : Platform).

Lemma batch_operation_generic slot a st :
  batch_operation P slot a st = reveal_batch P slot a st.
Proof. destruct slot; [apply loadImage_generic | apply loadVideo_generic]. Qed.

Lemma assign_all_array slot els paths st :
  assign_all slot els (JArray paths) st = assign_payload slot els paths 0 st.
Proof. destruct paths; reflexivity. Qed.

(** The whole run of a batch operation on a call that passes the checks and
    brings an array: [k] assignments, then either the subscription of every
    matched element or the error the loop stopped on. *)
Lemma batch_run slot st a s els t at' paths :
  valid_setup P st a s els t at' ->
  paths_of a = JArray paths ->
  exists k,
    k <= length paths /\
    (forall j, j < k -> j < length els /\ exists v, paths !! j = Some (JStr v)) /\
    (forall v, paths !! k = Some (JStr v) -> length els <= k) /\
    let st1 := after_setup (reveal_callback slot t at') a st in
    let st2 :=
      set_document
        (write_all slot (document st) (take k els) (string_of <$> take k paths)) st1 in
    batch_operation P slot a st =
      match paths !! k with
      | None =>
          (Ok tt,
           set_heap (alter (with_observed (fun tracked => list_to_set els ∪ tracked))
                       (length (heap st)) (heap st1)) st2)
      | Some p => (loop_outcome slot (Some p), st2)
      end.
Proof.
  intros Hv Hp.
  destruct (assign_payload_run slot els paths 0
              (after_setup (reveal_callback slot t at') a st))
    as (k & Hk & Hpre & Hstr & Hrun).
  exists k. split; [exact Hk |]. split; [exact Hpre |]. split; [exact Hstr |].
  cbv zeta. rewrite batch_operation_generic, (reveal_batch_run P slot _ _ _ _ _ _ Hv), Hp.
  unfold bind. rewrite assign_all_array, Hrun, after_setup_document. simpl drop.
  destruct (paths !! k) as [p |]; simpl loop_outcome.
  - destruct p; reflexivity.
  - now rewrite (subscribe_all_run els _ (length (heap st))).
Qed.

Lemma fresh_observer_no_new_subscription st st' o :
  heap st' = (heap st ++ [o])%list -> observed o = ∅ -> no_new_subscription st st'.
Proof.
  intros Hh Ho i e (o' & Hi & He). rewrite Hh in Hi.
  apply lookup_app_Some in Hi as [Hi | [_ Hi]].
  - exists o'. split; assumption.
  - destruct (i - length (heap st)) as [| n]; simpl in Hi; [| discriminate].
    inversion Hi; subst. rewrite Ho in He. set_solver.
Qed.

Lemma stopped_batch_no_new_subscription slot t at' a st d :
  no_new_subscription st (set_document d (after_setup (reveal_callback slot t at') a st)).
Proof.
  destruct (after_setup_heap (reveal_callback slot t at') a st) as [opts Hh].
  eapply fresh_observer_no_new_subscription; [exact Hh | reflexivity].
Qed.

End BatchRuns.

(** ** C9: more entries than elements *)

(** C9, as the code has it. For every call of [loadImage] (resp.
    [loadVideo]) that passes the checks made before the payload loop, so
    that its selector matches at least one element and the observer is
    built, whose array holds strings only and has more entries
    than the selector matches elements: the loop indexes past the end of the
    elements and the call fails on the dereference of [undefined], before
    any element is subscribed; by then every matched element has been given
    its payload. *)
Theorem overlong_array_runs_off_the_elements (P : Platform) (slot : Slot) (st : State)
    (a : LoadArgs.t) (s : string) (els : list elem) (t at' : option string)
    (paths : list jsval) :
  valid_setup P st a s els t at' ->
  paths_of a = JArray paths ->
  all_strings paths ->
  length els < length paths ->
  exists st',
    batch_operation P slot a st = (Throw NullDereference, st') /\
    err_class NullDereference = NullDerefClass /\
    no_new_subscription st st' /\
    (NoDup els ->
     forall j e v, els !! j = Some e -> paths !! j = Some (JStr v) ->
       payload (document st') e slot = Some v).
Proof.
  intros Hv Hp Hall Hlen.
  destruct (batch_run P slot st a s els t at' paths Hv Hp) as (k & Hk & Hpre & Hstr & Hrun).
  cbv zeta in Hrun.
  assert (Hkl : k <= length els).
  { destruct k as [| k]; [lia |]. destruct (Hpre k) as [? _]; lia. }
  destruct (paths !! k) as [p |] eqn:Hpk.
  2:{ apply lookup_ge_None in Hpk. lia. }
  assert (Hps : exists v, p = JStr v).
  { unfold all_strings in Hall. rewrite Forall_lookup in Hall. exact (Hall k p Hpk). }
  destruct Hps as [v ->].
  assert (k = length els) by (specialize (Hstr v eq_refl); lia). subst k.
  eexists. split; [exact Hrun |]. split; [reflexivity |]. split.
  - apply stopped_batch_no_new_subscription.
  - intros Hnd j e w He Hw. cbn [document set_document].
    rewrite firstn_all. eapply write_all_payload; [exact Hnd | exact He |].
    rewrite list_lookup_fmap, lookup_take_lt by (eapply lookup_lt_Some; eassumption).
    now rewrite Hw.
Qed.

Lemma demo_valid_setup (selector : string) (paths : list jsval) (m : elem) (ms : list elem) :
  Demo.select_all Demo.markup selector = DomOk (m :: ms) ->
  valid_setup Demo.browser Demo.fresh (Demo.load selector paths) selector (m :: ms) None None.
Proof.
  intros H. constructor; try reflexivity; [exact H | discriminate].
Qed.

Lemma overlong_array_runs_off_the_elements_witness :
  exists st',
    loadImage Demo.browser (Demo.load "#a" [JStr "x.jpg"; JStr "y.jpg"]) Demo.fresh
      = (Throw NullDereference, st') /\
    no_new_subscription Demo.fresh st' /\
    payload (document st') 0 ImageSlot = Some "x.jpg".
Proof.
  destruct (overlong_array_runs_off_the_elements Demo.browser ImageSlot Demo.fresh
              (Demo.load "#a" [JStr "x.jpg"; JStr "y.jpg"]) "#a" [0] None None
              [JStr "x.jpg"; JStr "y.jpg"])
    as (st' & Hrun & _ & Hsub & Hpay).
  - apply demo_valid_setup. reflexivity.
  - reflexivity.
  - repeat constructor; eexists; reflexivity.
  - simpl. lia.
  - exists st'. split; [exact Hrun |]. split; [exact Hsub |].
    apply (Hpay ltac:(repeat constructor; set_solver) 0 0 "x.jpg"); reflexivity.
Defined.

(** C9 as the specification states it fails on a call that does not reach
    the payload loop. A selector that matches nothing, with one path, is
    an array of strings longer than the elements: the call fails with the
    selector error. So does, with the error of its check, a call whose
    [attr] is a number; and a call that passes every check of the class
    with the margin [Infinity] fails in the constructor of the observer,
    which does not take [Infinitypx]. None of these errors is of the
    null-dereference class. *)
Lemma overlong_array_of_a_rejected_call :
  querySelectorAll Demo.browser (document Demo.fresh) ".none" = DomOk [] /\
  loadImage Demo.browser (Demo.load ".none" [JStr "a.jpg"]) Demo.fresh
    = (Throw SelectorInvalid, Demo.fresh) /\
  err_class SelectorInvalid <> NullDerefClass /\
  querySelectorAll Demo.browser (document Demo.fresh) "#a" = DomOk [0] /\
  loadVideo Demo.browser
    (LoadArgs.mk (JStr "#a") JUndefined (JNum (Fin 1)) (JArray [JStr "x.mp4"; JStr "y.mp4"])
       JUndefined JUndefined JUndefined) Demo.fresh
    = (Throw AttrInvalid, Demo.fresh) /\
  err_class AttrInvalid <> NullDerefClass /\
  fst (loadImage Demo.browser
         (LoadArgs.mk (JStr "#a") JUndefined JUndefined (JArray [JStr "x.jpg"; JStr "y.jpg"])
            JUndefined (JNum PInf) JUndefined) Demo.fresh)
    = Throw ObserverInitError /\
  err_class ObserverInitError <> NullDerefClass.
Proof. repeat split; try reflexivity; discriminate. Qed.

(** ** C5: arrays and matches of different lengths *)

Section Subscription.

Context (P : Platform).

(** After a batch has subscribed its elements, its observer tracks them. *)
Lemma subscribed_elements_observed cb a st d els e :
  e ∈ els ->
  observes
    (set_heap
       (alter (with_observed (fun tracked => list_to_set els ∪ tracked))
          (length (heap st)) (heap (after_setup cb a st)))
       (set_document d (after_setup cb a st)))
    (length (heap st)) e.
Proof.
  intros He. destruct (after_setup_heap cb a st) as [opts Hh].
  unfold observes. cbn [heap set_heap]. rewrite Hh, alter_observed_lookup.
  rewrite decide_True by reflexivity.
  rewrite lookup_app_r, Nat.sub_diag by lia. simpl.
  eexists. split; [reflexivity |]. simpl. set_solver.
Qed.

Lemma subscribed_observer_lookup cb a st d els :
  exists opts,
    heap
      (set_heap
         (alter (with_observed (fun tracked => list_to_set els ∪ tracked))
            (length (heap st)) (heap (after_setup cb a st)))
         (set_document d (after_setup cb a st)))
    !! length (heap st)
    = Some {| callback := cb; init := opts; observed := list_to_set els ∪ ∅ |}.
Proof.
  destruct (after_setup_heap cb a st) as [opts Hh]. exists opts.
  cbn [heap set_heap]. rewrite Hh, alter_observed_lookup.
  rewrite decide_True by reflexivity.
  now rewrite lookup_app_r, Nat.sub_diag by lia.
Qed.

End Subscription.

(** C5, as the code has it. For every call of [loadImage] that passes the
    checks made before the payload loop, so that the observer is built,
    brings an array of strings, and whose array and
    matched elements differ in length: for every index both possess, the
    i-th element carries the i-th path once the call has run; every matched
    element beyond the array is left exactly as it was, so that its payload
    is whatever its markup carries; and when the array is the shorter one the
    call returns and its observer tracks every matched element. *)
Theorem paths_are_assigned_in_order (P : Platform) (st : State) (a : LoadArgs.t)
    (s : string) (els : list elem) (t at' : option string) (paths : list jsval) :
  valid_setup P st a s els t at' ->
  paths_of a = JArray paths ->
  all_strings paths ->
  NoDup els ->
  length paths <> length els ->
  exists r st',
    loadImage P a st = (r, st') /\
    (forall j e v, els !! j = Some e -> paths !! j = Some (JStr v) ->
       payload (document st') e ImageSlot = Some v) /\
    (forall j e, els !! j = Some e -> length paths <= j ->
       document st' e = document st e /\
       payload (document st') e ImageSlot = payload (document st) e ImageSlot) /\
    (length paths < length els ->
       r = Ok tt /\ forall e, e ∈ els -> observes st' (length (heap st)) e).
Proof.
  intros Hv Hp Hall Hnd _.
  destruct (batch_run P ImageSlot st a s els t at' paths Hv Hp)
    as (k & Hk & Hpre & Hstr & Hrun).
  cbv zeta in Hrun. change (batch_operation P ImageSlot a st) with (loadImage P a st) in Hrun.
  assert (Hkl : k <= length els).
  { destruct k as [| k]; [lia |]. destruct (Hpre k) as [? _]; lia. }
  assert (Hstrings : forall j p, paths !! j = Some p -> exists v, p = JStr v).
  { unfold all_strings in Hall. rewrite Forall_lookup in Hall. exact Hall. }
  assert (Hdoc : exists r st', loadImage P a st = (r, st') /\
            document st' =
              write_all ImageSlot (document st) (take k els) (string_of <$> take k paths) /\
            (paths !! k = None -> r = Ok tt /\
               forall e, e ∈ els -> observes st' (length (heap st)) e)).
  { destruct (paths !! k) as [p |] eqn:Hpk.
    - do 2 eexists. split; [exact Hrun |]. split; [reflexivity | discriminate].
    - do 2 eexists. split; [exact Hrun |]. split; [reflexivity |].
      intros _. split; [reflexivity |]. intros e He.
      now apply subscribed_elements_observed. }
  destruct Hdoc as (r & st' & Hrun' & Hd & Hok).
  assert (Hmin : forall j, j < length paths -> j < length els -> j < k).
  { intros j Hjp Hje. destruct (paths !! k) as [p |] eqn:Hpk.
    - destruct (Hstrings k p Hpk) as [v ->]. specialize (Hstr v eq_refl). lia.
    - apply lookup_ge_None in Hpk. lia. }
  exists r, st'. split; [exact Hrun' |]. split; [| split].
  - intros j e v He Hpj. rewrite Hd.
    assert (Hj : j < k).
    { apply Hmin; eapply lookup_lt_Some; eassumption. }
    eapply write_all_payload.
    + eapply sublist_NoDup; [exact Hnd | apply sublist_take].
    + rewrite lookup_take_lt by exact Hj. exact He.
    + rewrite list_lookup_fmap, lookup_take_lt by exact Hj. now rewrite Hpj.
  - intros j e He Hj.
    assert (Hsame : document st' e = document st e).
    { rewrite Hd. apply write_all_other. intros Hin.
      apply elem_of_take in Hin as (j' & He' & Hj').
      pose proof (NoDup_lookup _ _ _ _ Hnd He He'). lia. }
    split; [exact Hsame |]. unfold payload. now rewrite Hsame.
  - intros Hlt. apply Hok. apply lookup_ge_None.
    destruct (paths !! k) as [p |] eqn:Hpk; [| apply lookup_ge_None in Hpk; lia].
    destruct (Hstrings k p Hpk) as [v ->]. specialize (Hstr v eq_refl). lia.
Qed.

Lemma paths_are_assigned_in_order_witness :
  exists st',
    loadImage Demo.browser (Demo.load "img.lazy" [JStr "a.jpg"]) Demo.fresh = (Ok tt, st') /\
    payload (document st') 0 ImageSlot = Some "a.jpg" /\
    document st' 1 = document Demo.fresh 1 /\
    observes st' 0 0 /\ observes st' 0 1.
Proof.
  destruct (paths_are_assigned_in_order Demo.browser Demo.fresh
              (Demo.load "img.lazy" [JStr "a.jpg"]) "img.lazy" [0; 1] None None [JStr "a.jpg"])
    as (r & st' & Hrun & Hpay & Hrest & Hok).
  - apply demo_valid_setup. reflexivity.
  - reflexivity.
  - repeat constructor; eexists; reflexivity.
  - repeat constructor; set_solver.
  - simpl. lia.
  - destruct Hok as [-> Hobs]; [simpl; lia |].
    exists st'. split; [exact Hrun |]. split; [| split; [| split]].
    + apply (Hpay 0 0 "a.jpg"); reflexivity.
    + apply (Hrest 1 1); [reflexivity | simpl; lia].
    + apply Hobs. set_solver.
    + apply Hobs. set_solver.
Defined.

(** C5 as the specification states it fails when the array holds an entry
    that is no string, and when the call does not pass its checks. Three
    entries for the two matched images, the first a number: the loop stops
    on it, and the second image does not carry the second entry but the
    empty payload of its markup. Two entries and an [attr] that is a
    number: the call is rejected before the loop, and the first image
    carries its markup payload, not the first entry. One entry and the
    margin [Infinity]: the call passes the checks of the class and fails in
    the constructor of the observer, before the loop, with the same
    result. *)
Lemma unassigned_paths_of_a_failed_call :
  querySelectorAll Demo.browser (document Demo.fresh) "img.lazy" = DomOk [0; 1] /\
  fst (loadImage Demo.browser
         (Demo.load "img.lazy" [JNum (Fin 1); JStr "b.jpg"; JStr "c.jpg"]) Demo.fresh)
    = Throw (PathNotString ImageSlot) /\
  payload
    (document
       (snd (loadImage Demo.browser
               (Demo.load "img.lazy" [JNum (Fin 1); JStr "b.jpg"; JStr "c.jpg"]) Demo.fresh)))
    1 ImageSlot = Some "" /\
  Some "" <> Some "b.jpg" /\
  loadImage Demo.browser
    (LoadArgs.mk (JStr "img.lazy") JUndefined (JNum (Fin 1)) (JArray [JStr "a.jpg"])
       JUndefined JUndefined JUndefined) Demo.fresh
    = (Throw AttrInvalid, Demo.fresh) /\
  payload (document Demo.fresh) 0 ImageSlot = Some "m.jpg" /\
  Some "m.jpg" <> Some "a.jpg" /\
  fst (loadImage Demo.browser
         (LoadArgs.mk (JStr "img.lazy") JUndefined JUndefined (JArray [JStr "a.jpg"])
            JUndefined (JNum PInf) JUndefined) Demo.fresh)
    = Throw ObserverInitError /\
  payload
    (document
       (snd (loadImage Demo.browser
               (LoadArgs.mk (JStr "img.lazy") JUndefined JUndefined (JArray [JStr "a.jpg"])
                  JUndefined (JNum PInf) JUndefined) Demo.fresh)))
    0 ImageSlot = Some "m.jpg".
Proof. repeat split; try (vm_compute; reflexivity); discriminate. Qed.

(** ** The callbacks *)

Lemma tracks_observes st i e : tracks st i e = true <-> observes st i e.
Proof.
  unfold tracks, observes. destruct (heap st !! i) as [o |].
  - rewrite bool_decide_eq_true. split.
    + intros H. exists o. split; [reflexivity | exact H].
    + intros (o' & Ho & H). now inversion Ho; subst.
  - split; [discriminate |]. intros (o & Ho & _). discriminate.
Qed.

Lemma bind_ret_tt (m : M unit) st : bind m (fun _ => ret tt) st = m st.
Proof. unfold bind, ret. destruct (m st) as [[[] | e] st']; reflexivity. Qed.

Lemma same_heap_no_new_subscription st st' :
  heap st' = heap st -> no_new_subscription st st'.
Proof. intros H i e (o & Ho & He). rewrite H in Ho. exists o. split; assumption. Qed.

Lemma unobserved_heap st st' i e :
  heap st' = alter (with_observed (fun tracked => tracked ∖ {[e]})) i (heap st) ->
  no_new_subscription st st' /\ ~ observes st' i e.
Proof.
  intros H. split.
  - intros j x (o & Ho & Hx). rewrite H, alter_observed_lookup in Ho.
    destruct (decide (i = j)) as [-> | Hne].
    + destruct (heap st !! j) as [o0 |] eqn:Hj; [| discriminate].
      simpl in Ho. inversion Ho; subst. simpl in Hx.
      exists o0. split; [exact Hj | set_solver].
    + exists o. split; assumption.
  - intros (o & Ho & Hx). rewrite H, alter_observed_lookup in Ho.
    rewrite decide_True in Ho by reflexivity.
    destruct (heap st !! i) as [o0 |]; [| discriminate].
    simpl in Ho. inversion Ho; subst. simpl in Hx. set_solver.
Qed.

Lemma no_new_subscription_trans st1 st2 st3 :
  no_new_subscription st1 st2 -> no_new_subscription st2 st3 -> no_new_subscription st1 st3.
Proof. intros H12 H23 i e H. apply H12, H23, H. Qed.

Lemma source_of_with_src d e v : source_of (upd d e (with_src v (d e))) e = Some v.
Proof.
  unfold source_of, with_src. rewrite upd_same.
  destruct (reflects_src (d e)) eqn:Hr; cbn [reflects_src with_attr attrs src].
  - rewrite Hr. apply lookup_insert_eq.
  - reflexivity.
Qed.

Section CallbackFacts.

Context (P : Platform).

Lemma run_callback_entries cb es i st :
  run_callback P cb es i st = forEach es (run_entry P cb i) st.
Proof. destruct cb; reflexivity. Qed.

Lemma run_entry_out_of_view cb i en st :
  isIntersecting en = false -> run_entry P cb i en st = (Ok tt, st).
Proof.
  intros H. destruct cb; simpl;
    unfold renderImage_entry, renderVideo_entry, handleFunctionExecution_entry;
    now rewrite H.
Qed.

(** On an intersecting entry each of the three callbacks makes one step of
    the one-shot policy: the reveal action, then [unobserve]. *)
Lemma run_entry_step cb i en st :
  isIntersecting en = true -> run_entry P cb i en st = reveal_step P cb i en st.
Proof.
  intros H. destruct cb; cbn [run_entry];
    unfold renderImage_entry, renderVideo_entry, handleFunctionExecution_entry,
      reveal_step, reveal_action, reveal_payload;
    rewrite H; [| | reflexivity]; now rewrite bind_assoc.
Qed.

(** The reveal action of a quiet callback leaves the controller alone. *)
Lemma reveal_action_controller cb e st r st1 :
  quiet_callback P cb ->
  reveal_action P cb e st = (r, st1) ->
  options st1 = options st /\ observer st1 = observer st /\ heap st1 = heap st.
Proof.
  intros Hq. destruct cb as [t a | t a | f]; cbn [reveal_action].
  1, 2: unfold reveal_payload, write_payload, bind, dataset_get, element_querySelector,
          setAttribute, set_src, gets, modify, ret, throw;
        repeat case_match; intros Hrun; simplify_eq; auto.
  unfold call. intros Hrun. specialize (Hq st). rewrite Hrun in Hq. exact Hq.
Qed.

Lemma reveal_step_effect cb i en st r st' :
  quiet_callback P cb ->
  reveal_step P cb i en st = (r, st') ->
  (r = Ok tt /\
   heap st' = alter (with_observed (fun tracked => tracked ∖ {[target en]})) i (heap st)) \/
  ((exists e, r = Throw e) /\ heap st' = heap st).
Proof.
  intros Hq. unfold reveal_step, bind.
  destruct (reveal_action P cb (target en) st) as [[[] | e] st1] eqn:Ha;
    destruct (reveal_action_controller _ _ _ _ _ Hq Ha) as (_ & _ & Hh).
  - unfold unobserve, modify. intros H. inversion H; subst. left.
    split; [reflexivity |]. cbn [heap set_heap]. now rewrite Hh.
  - intros H. inversion H; subst. right. split; [eauto | exact Hh].
Qed.

Lemma reveal_step_no_new_subscription cb i en st r st' :
  quiet_callback P cb ->
  reveal_step P cb i en st = (r, st') -> no_new_subscription st st'.
Proof.
  intros Hq H. destruct (reveal_step_effect _ _ _ _ _ _ Hq H) as [[_ Hh] | [_ Hh]].
  - now apply (unobserved_heap st st' i (target en)).
  - now apply same_heap_no_new_subscription.
Qed.

Lemma steps_no_new_subscription cb i es :
  quiet_callback P cb ->
  forall st r st',
    forEach es (reveal_step P cb i) st = (r, st') -> no_new_subscription st st'.
Proof.
  intros Hq. induction es as [| en es IH]; intros st r st' H.
  - inversion H; subst. intros j e Hje. exact Hje.
  - simpl in H. unfold bind in H.
    destruct (reveal_step P cb i en st) as [[[] | e] st1] eqn:Hen.
    + eapply no_new_subscription_trans.
      * eapply reveal_step_no_new_subscription; [exact Hq | exact Hen].
      * eapply IH. exact H.
    + inversion H; subst. eapply reveal_step_no_new_subscription; [exact Hq | exact Hen].
Qed.

(** Steps of a quiet callback that run to completion leave the target of
    each of them untracked. *)
Lemma steps_completed cb i es :
  quiet_callback P cb ->
  forall st st',
    forEach es (reveal_step P cb i) st = (Ok tt, st') ->
    forall en, en ∈ es -> ~ observes st' i (target en).
Proof.
  intros Hq. induction es as [| en0 es IH]; intros st st' H en Hin.
  - inversion Hin.
  - simpl in H. unfold bind in H.
    destruct (reveal_step P cb i en0 st) as [[[] | e] st1] eqn:Hen; [| discriminate].
    apply elem_of_cons in Hin as [-> | Hin].
    + destruct (reveal_step_effect _ _ _ _ _ _ Hq Hen) as [[_ Hh] | [[e He] _]];
        [| discriminate].
      intros Hobs. apply (steps_no_new_subscription _ _ _ Hq _ _ _ H) in Hobs.
      now apply (unobserved_heap st st1 i (target en0)) in Hobs.
    + eapply IH; eassumption.
Qed.

(** Steps about one element, whatever the callback does: the last of them
    leaves the element untracked. *)
Lemma steps_same_target cb i e es :
  es <> [] ->
  (forall en, en ∈ es -> target en = e) ->
  forall st st',
    forEach es (reveal_step P cb i) st = (Ok tt, st') -> ~ observes st' i e.
Proof.
  induction es as [| en es IH]; intros Hne Hall st st' H; [congruence |].
  cbn [forEach] in H. unfold bind at 1 in H.
  destruct (reveal_step P cb i en st) as [[[] | err] st1] eqn:Hen; [| discriminate].
  destruct es as [| en2 es].
  - cbn [forEach] in H. inversion H; subst st1.
    unfold reveal_step, bind in Hen.
    destruct (reveal_action P cb (target en) st) as [[[] | err] st0]; [| discriminate].
    unfold unobserve, modify in Hen. inversion Hen.
    rewrite <- (Hall en) by set_solver.
    now apply (unobserved_heap st0 _ i (target en)).
  - eapply IH; [discriminate | | exact H]. intros en0 H0. apply Hall. set_solver.
Qed.

Lemma deliver_run i es st o :
  heap st !! i = Some o ->
  deliver P i es st =
    forEach (filter (fun en => target en ∈ observed o) es) (run_entry P (callback o) i) st.
Proof.
  intros H. unfold deliver. rewrite H.
  destruct (filter (fun en => target en ∈ observed o) es); [reflexivity |].
  apply run_callback_entries.
Qed.

(** A report is the steps of the policy on its fired entries, in order. *)
Lemma deliver_fired i es st o :
  heap st !! i = Some o ->
  deliver P i es st = forEach (fired o es) (reveal_step P (callback o) i) st.
Proof.
  intros Ho. rewrite (deliver_run i es st o Ho). clear Ho. revert st.
  induction es as [| en es IH]; intros st; [reflexivity |].
  unfold fired in *.
  destruct (decide (target en ∈ observed o)) as [Hin | Hout].
  - rewrite (filter_cons_True (fun en => target en ∈ observed o)) by exact Hin.
    cbn [forEach]. destruct (isIntersecting en) eqn:Hint.
    + rewrite filter_cons_True by (split; assumption). cbn [forEach].
      unfold bind. rewrite (run_entry_step _ _ _ _ Hint).
      destruct (reveal_step P (callback o) i en st) as [[[] | e] st1];
        [apply IH | reflexivity].
    + rewrite (filter_cons_False (fun en => isIntersecting en = true /\ _))
        by (intros [H _]; congruence).
      unfold bind. rewrite (run_entry_out_of_view _ _ _ _ Hint). apply IH.
  - rewrite (filter_cons_False (fun en => target en ∈ observed o)) by exact Hout.
    rewrite filter_cons_False by (intros [_ H]; contradiction).
    apply IH.
Qed.

(** Transitions of elements an observer does not track reach no callback. *)
Lemma deliver_untracked i es st :
  (forall en, en ∈ es -> ~ observes st i (target en)) ->
  deliver P i es st = (Ok tt, st).
Proof.
  intros H. unfold deliver. destruct (heap st !! i) as [o |] eqn:Ho; [| reflexivity].
  destruct (filter (fun en => target en ∈ observed o) es) as [| en l] eqn:Hf; [reflexivity |].
  exfalso. assert (Hin : en ∈ filter (fun en => target en ∈ observed o) es)
    by (rewrite Hf; set_solver).
  apply list_elem_of_filter in Hin as [Hobs Hin].
  apply (H en Hin). exists o. split; assumption.
Qed.

Lemma untracked_stays_silent i e st :
  ~ observes st i e ->
  forall (d : Store) (later : list Entry),
    Forall (fun en2 => target en2 = e) later ->
    deliver P i later (set_document d st) = (Ok tt, set_document d st).
Proof.
  intros Hun d later Hl. apply deliver_untracked.
  intros en2 Hin2 Hobs. rewrite Forall_forall in Hl. rewrite (Hl en2 Hin2) in Hobs.
  apply Hun. exact Hobs.
Qed.

End CallbackFacts.

(** ** C1: the one-shot law *)

(** C1, as the code has it. For every observer a batch operation has built
    ([loadImage], [loadVideo] or [executeFn]: the three callbacks) and every
    report of transitions to it: on each entry that is intersecting and
    about an element the observer tracks when the report arrives, in the
    order of the report, the reveal action executes and the element is then
    unobserved; an error of an action ends the report there. When the
    report runs to completion, every such element is no longer tracked by
    the observer, and no later report of transitions of that element
    reaches the callback, whatever the document has become in between: the
    reveal action does not fire again. This is so for an image and a video
    batch, and for a callback batch whose observer tracks one element, as
    [executeFn] leaves it, or whose function calls no method of the
    instance. The action runs once for each such entry, not once for each
    element. *)
Theorem one_shot_after_completed_reveal (P : Platform) (i : nat) (es : list Entry)
    (st : State) (o : Observer) :
  heap st !! i = Some o ->
  deliver P i es st = forEach (fired o es) (reveal_step P (callback o) i) st /\
  forall st',
    deliver P i es st = (Ok tt, st') ->
    quiet_callback P (callback o) \/ (exists e, observed o ⊆ {[e]}) ->
    forall en, en ∈ fired o es ->
      ~ observes st' i (target en) /\
      forall (d : Store) (later : list Entry),
        Forall (fun en2 => target en2 = target en) later ->
        deliver P i later (set_document d st') = (Ok tt, set_document d st').
Proof.
  intros Ho. split; [now apply deliver_fired |].
  intros st' Hrun Hcase en Hin.
  rewrite (deliver_fired P i es st o Ho) in Hrun.
  assert (Hun : ~ observes st' i (target en)).
  { destruct Hcase as [Hq | [e He]].
    - eapply steps_completed; eassumption.
    - assert (Hall : forall en0, en0 ∈ fired o es -> target en0 = e).
      { intros en0 H0. apply list_elem_of_filter in H0 as [[_ H0] _]. set_solver. }
      rewrite (Hall en Hin).
      eapply (steps_same_target P (callback o) i e (fired o es)); [| exact Hall | exact Hrun].
      intros Hnil. rewrite Hnil in Hin. inversion Hin. }
  split; [exact Hun |]. now apply untracked_stays_silent.
Qed.

Lemma one_shot_after_completed_reveal_witness :
  exists st2,
    deliver Demo.browser 0 [Demo.visible 2]
      (snd (executeFn Demo.browser (Demo.run_on_visible "#cta" 0) Demo.fresh)) = (Ok tt, st2) /\
    source_of (document st2) 2 = Some "shown" /\
    ~ observes st2 0 2 /\
    deliver Demo.browser 0 [Demo.visible 2] (set_document Demo.markup st2)
      = (Ok tt, set_document Demo.markup st2).
Proof.
  set (st1 := snd (executeFn Demo.browser (Demo.run_on_visible "#cta" 0) Demo.fresh)).
  destruct (one_shot_after_completed_reveal Demo.browser 0 [Demo.visible 2] st1
              {| callback := HandleFunctionExecution 0; init := Some default_options;
                 observed := {[2]} ∪ ∅ |} eq_refl) as [_ Hshot].
  assert (Hrun : deliver Demo.browser 0 [Demo.visible 2] st1
                 = (Ok tt, snd (deliver Demo.browser 0 [Demo.visible 2] st1)))
    by reflexivity.
  assert (Hone : exists e : elem, ({[2]} ∪ ∅ : gset elem) ⊆ {[e]})
    by (exists 2; set_solver).
  destruct (Hshot _ Hrun (or_intror Hone) (Demo.visible 2)) as [Hun Hlater].
  - unfold fired. rewrite filter_cons_True by (split; [reflexivity | set_solver]).
    set_solver.
  - eexists. split; [exact Hrun |]. split; [vm_compute; reflexivity |].
    split; [exact Hun |]. apply Hlater. repeat constructor.
Defined.

(** C1 as the specification states it fails in two ways. When the reveal
    action throws: the function installed by [executeFn] leaves its mark
    and throws, the block stays tracked, and the next report runs the
    function a second time. When one report holds two intersecting entries
    about one element, as it does after the element has come into view, left
    and come back between two deliveries: the function that counts its
    calls runs twice within the report, which completes. *)
Lemma reveal_action_fires_again :
  (fst (executeFn Demo.browser (Demo.run_on_visible "#cta" 1) Demo.fresh) = Ok tt /\
   observes Demo.cta_watch 0 2 /\
   fst (deliver Demo.browser 0 [Demo.visible 2] Demo.cta_watch) = Throw (UserError 7) /\
   attrs (document Demo.cta_seen_once 2) !! "log" = Some "x" /\
   observes Demo.cta_seen_once 0 2 /\
   fst (deliver Demo.browser 0 [Demo.visible 2] Demo.cta_seen_once) = Throw (UserError 7) /\
   attrs (document (snd (deliver Demo.browser 0 [Demo.visible 2] Demo.cta_seen_once)) 2)
     !! "log" = Some "xx") /\
  (fst (executeFn Demo.browser (Demo.run_on_visible "#cta" 2) Demo.fresh) = Ok tt /\
   observes Demo.counted_watch 0 2 /\
   attrs (document Demo.counted_watch 2) !! "log" = None /\
   fst (deliver Demo.browser 0
          [Demo.visible 2; {| target := 2; isIntersecting := false |}; Demo.visible 2]
          Demo.counted_watch) = Ok tt /\
   attrs
     (document
        (snd (deliver Demo.browser 0
                [Demo.visible 2; {| target := 2; isIntersecting := false |}; Demo.visible 2]
                Demo.counted_watch)) 2) !! "log" = Some "xx").
Proof.
  repeat split; try (vm_compute; reflexivity);
    apply tracks_observes; vm_compute; reflexivity.
Qed.

(** The same happens in the image callback when [srcTarget] matches in the
    document, as the setup requires, but not inside the revealed element:
    the write dereferences [null] and the image stays tracked. *)
Lemma unmatched_srcTarget_keeps_the_image_tracked :
  fst (loadImage Demo.browser (Demo.load_into "#a" "source" []) Demo.fresh) = Ok tt /\
  fst (deliver Demo.browser 0 [Demo.visible 0]
         (snd (loadImage Demo.browser (Demo.load_into "#a" "source" []) Demo.fresh)))
    = Throw NullDereference /\
  observes
    (snd (deliver Demo.browser 0 [Demo.visible 0]
            (snd (loadImage Demo.browser (Demo.load_into "#a" "source" []) Demo.fresh))))
    0 0.
Proof.
  repeat split; try (vm_compute; reflexivity).
  apply tracks_observes. vm_compute. reflexivity.
Qed.

(** ** C10 and C4: what a reveal reads *)

Lemma truthy_nonempty v : v <> "" -> truthy (Some v) = Some v.
Proof. destruct v; [congruence | reflexivity]. Qed.

Lemma no_payload_truthy d e s : no_payload d e s -> truthy (payload d e s) = None.
Proof. intros [H | H]; now rewrite H. Qed.

Section RevealFacts.

Context (P : Platform).

(** A report of one transition of a tracked element runs the callback on it. *)
Lemma deliver_single_tracked i en st o :
  heap st !! i = Some o ->
  target en ∈ observed o ->
  deliver P i [en] st = run_entry P (callback o) i en st.
Proof.
  intros Ho He. rewrite (deliver_run P i [en] st o Ho).
  rewrite filter_cons_True by exact He. simpl. apply bind_ret_tt.
Qed.

(** An intersecting entry whose target has a payload: the callback writes
    that payload and then unobserves the target. *)
Lemma reveal_entry_with_payload slot t at' i en st v :
  isIntersecting en = true ->
  payload (document st) (target en) slot = Some v ->
  v <> "" ->
  render_entry P slot t at' i en st =
    bind (write_payload P t at' (target en) v) (fun _ => unobserve i (target en)) st.
Proof.
  intros Hint Hv Hne.
  assert (H : render_entry P slot t at' i en st = reveal_entry P slot t at' i en st)
    by (destruct slot; reflexivity).
  rewrite H. unfold reveal_entry. rewrite Hint.
  unfold bind at 1, dataset_get, gets. rewrite Hv, (truthy_nonempty v Hne). reflexivity.
Qed.


(** The write of a payload when there is a write target and the host takes
    the attribute name. *)
Lemma write_payload_run t at' e v st w x :
  write_target P (document st) t e = Some w ->
  written P at' v (document st w) = Some x ->
  write_payload P t at' e v st = (Ok tt, set_document (upd (document st) w x) st).
Proof.
  unfold write_target, written, write_payload.
  destruct (truthy t) as [sel |].
  - unfold bind, element_querySelector.
    destruct (elementQuerySelector P (document st) e sel) as [r |]; [| discriminate].
    intros ->. destruct (truthy at') as [a |].
    + unfold setAttribute. destruct (attributeKey P a) as [k |]; [| discriminate].
      simpl. intros H. inversion H. reflexivity.
    + intros H. inversion H. reflexivity.
  - intros Hw. inversion Hw; subst. destruct (truthy at') as [a |].
    + unfold setAttribute. destruct (attributeKey P a) as [k |]; [| discriminate].
      simpl. intros H. inversion H. reflexivity.
    + intros H. inversion H. reflexivity.
Qed.

(** The step of a reveal callback on an element that has no payload: it
    writes nothing and unobserves the element. *)
Lemma silent_step slot t at' i en st :
  no_payload (document st) (target en) slot ->
  reveal_step P (reveal_callback slot t at') i en st =
    (Ok tt,
     set_heap (alter (with_observed (fun tracked => tracked ∖ {[target en]})) i (heap st)) st).
Proof.
  intros Hen. unfold reveal_step, bind.
  assert (Ha : reveal_action P (reveal_callback slot t at') (target en) st = (Ok tt, st)).
  { destruct slot; cbn [reveal_callback reveal_action];
      unfold reveal_payload, bind, dataset_get, gets;
      rewrite (no_payload_truthy _ _ _ Hen); reflexivity. }
  rewrite Ha. reflexivity.
Qed.

(** The steps of a reveal callback on elements that have no payload: each
    of them writes nothing and unobserves its element. *)
Lemma silent_steps slot t at' i :
  forall es st,
    (forall en, en ∈ es -> no_payload (document st) (target en) slot) ->
    forEach es (reveal_step P (reveal_callback slot t at') i) st =
      (Ok tt,
       set_heap
         (alter (with_observed (fun tracked => tracked ∖ list_to_set (target <$> es))) i
            (heap st)) st).
Proof.
  induction es as [| en es IH]; intros st Hno.
  - cbn. unfold ret. f_equal. symmetry.
    rewrite list_alter_id; [apply set_heap_id |].
    intros [cb ini obs]. unfold with_observed. simpl. f_equal. set_solver.
  - cbn [forEach]. unfold bind at 1.
    rewrite (silent_step slot t at' i en st) by (apply Hno; set_solver).
    rewrite IH.
    + f_equal. unfold set_heap. cbn [heap options observer document]. f_equal.
      rewrite list_alter_alter_eq. apply list_alter_ext; [| reflexivity].
      intros [cb ini obs] _. unfold with_observed. simpl. f_equal. set_solver.
    + intros en' Hin. cbn [document set_heap]. apply Hno. set_solver.
Qed.

End RevealFacts.

(** C10. A report of transitions to the observer of an image or a video
    batch is processed an entry at a time: the callback acts, in the order
    of the report, on the entries that are intersecting and about an
    element the observer tracks. Whenever it acts on an entry whose target
    has no pending payload, or has the empty string, which it takes for
    absent, it writes nothing and unobserves the target all the same. So
    when the payload of each element the callback acts on is absent or
    empty, the report completes, the document is as it was, each of these
    elements is unobserved and the other elements stay tracked; and no
    later transition of such an element reaches the callback, also when a
    payload has been attached to the element in the meantime. *)
Theorem absent_payload_is_still_unobserved (P : Platform) (slot : Slot)
    (t at' : option string) (i : nat) (es : list Entry) (st : State) (o : Observer) :
  heap st !! i = Some o ->
  callback o = reveal_callback slot t at' ->
  deliver P i es st = forEach (fired o es) (reveal_step P (callback o) i) st /\
  (forall en st1,
     no_payload (document st1) (target en) slot ->
     reveal_step P (callback o) i en st1 =
       (Ok tt,
        set_heap
          (alter (with_observed (fun tracked => tracked ∖ {[target en]})) i (heap st1)) st1)) /\
  ((forall en, en ∈ fired o es -> no_payload (document st) (target en) slot) ->
   exists st',
     deliver P i es st = (Ok tt, st') /\
     document st' = document st /\
     (forall en, en ∈ fired o es ->
        ~ observes st' i (target en) /\
        forall (d : Store) (later : list Entry),
          Forall (fun en2 => target en2 = target en) later ->
          deliver P i later (set_document d st') = (Ok tt, set_document d st')) /\
     (forall e, e ∈ observed o -> (forall en, en ∈ fired o es -> target en <> e) ->
        observes st' i e)).
Proof.
  intros Ho Hcb.
  split; [now apply deliver_fired |].
  split; [intros en st1 Hen; rewrite Hcb; now apply silent_step |].
  intros Hno. eexists. split.
  - rewrite (deliver_fired P i es st o Ho), Hcb. now apply silent_steps.
  - split; [reflexivity |].
    assert (Hlook :
      heap
        (set_heap
           (alter (with_observed (fun tracked => tracked ∖ list_to_set (target <$> fired o es)))
              i (heap st)) st) !! i
      = Some (with_observed (fun tracked => tracked ∖ list_to_set (target <$> fired o es)) o)).
    { cbn [heap set_heap]. now rewrite alter_observed_lookup, decide_True, Ho by reflexivity. }
    split.
    + intros en Hin.
      assert (Hun : ~ observes
                (set_heap
                   (alter
                      (with_observed
                         (fun tracked => tracked ∖ list_to_set (target <$> fired o es)))
                      i (heap st)) st) i (target en)).
      { intros (o' & Ho' & He). rewrite Hlook in Ho'. inversion Ho'; subst o'.
        simpl in He. apply elem_of_difference in He as [_ He]. apply He.
        apply elem_of_list_to_set, list_elem_of_fmap. eauto. }
      split; [exact Hun |]. now apply untracked_stays_silent.
    + intros e He Hother. eexists. split; [exact Hlook |]. simpl.
      apply elem_of_difference. split; [exact He |].
      rewrite elem_of_list_to_set, list_elem_of_fmap. intros (en & -> & Hin).
      now apply (Hother en).
Qed.

Lemma absent_payload_is_still_unobserved_witness :
  exists st',
    deliver Demo.browser 0 [Demo.visible 5]
      (snd (loadVideo Demo.browser (Demo.load "video.clip" []) Demo.fresh)) = (Ok tt, st') /\
    ~ observes st' 0 5 /\
    observes st' 0 4 /\
    deliver Demo.browser 0 [Demo.visible 5]
      (set_document (store_set_attr Demo.markup 5 "data-video-url" "late.mp4") st')
      = (Ok tt, set_document (store_set_attr Demo.markup 5 "data-video-url" "late.mp4") st').
Proof.
  assert (Hfired :
    fired {| callback := RenderVideo None None; init := Some default_options;
             observed := list_to_set [4; 5] ∪ ∅ |} [Demo.visible 5] = [Demo.visible 5]).
  { unfold fired. rewrite filter_cons_True by (split; [reflexivity | set_solver]).
    reflexivity. }
  destruct (absent_payload_is_still_unobserved Demo.browser VideoSlot None None 0
              [Demo.visible 5]
              (snd (loadVideo Demo.browser (Demo.load "video.clip" []) Demo.fresh))
              {| callback := RenderVideo None None; init := Some default_options;
                 observed := list_to_set [4; 5] ∪ ∅ |})
    as (_ & _ & Hall).
  - reflexivity.
  - reflexivity.
  - destruct Hall as (st' & Hrun & _ & Hun & Hkeep).
    + rewrite Hfired. intros en Hen. apply list_elem_of_singleton in Hen as ->.
      left. vm_compute. reflexivity.
    + rewrite Hfired in Hun, Hkeep.
      destruct (Hun (Demo.visible 5) ltac:(set_solver)) as [H5 Hlater].
      exists st'. split; [exact Hrun |]. split; [exact H5 |]. split.
      * apply Hkeep; [set_solver |]. intros en Hen.
        apply list_elem_of_singleton in Hen as ->. discriminate.
      * apply Hlater. repeat constructor.
Defined.




(** ** C8: the video operation is the image operation on the other slot *)

Section SlotFacts.

Context (P : Platform).

Lemma require_selector_state v e st r st' :
  require_selector P v e st = (r, st') -> st' = st.
Proof.
  destruct v; try (intros H; now inversion H).
  rewrite require_selector_run.
  destruct (querySelectorAll P (document st) s) as [[| m ms] |]; intros H; now inversion H.
Qed.

Lemma require_srcTarget_state v st r st' :
  require_srcTarget P v st = (r, st') -> st' = st.
Proof.
  unfold require_srcTarget.
  destruct v; try (intros H; now inversion H);
    unfold bind;
    match goal with
    | |- context [require_selector P ?x ?e st] =>
        destruct (require_selector P x e st) as [[w | err] st1] eqn:Hsel
    end;
    apply require_selector_state in Hsel; subst st1; intros H; now inversion H.
Qed.

Lemma require_attr_state v st r st' :
  require_attr v st = (r, st') -> st' = st.
Proof. destruct v; intros H; now inversion H. Qed.

(** The setup of the two operations: the same answer, from the same state,
    up to the callback of the observer they install. *)
Lemma require_selector_error v e0 st e st' :
  require_selector P v e0 st = (Throw e, st') -> e = e0 \/ e = DomSyntaxError.
Proof.
  destruct v; try (intros H; inversion H; now left).
  rewrite require_selector_run.
  destruct (querySelectorAll P (document st) s) as [[| m ms] |]; intros H; inversion H; auto.
Qed.

Lemma require_srcTarget_error v st e st' :
  require_srcTarget P v st = (Throw e, st') -> e = SrcTargetInvalid \/ e = DomSyntaxError.
Proof.
  unfold require_srcTarget.
  destruct v; try discriminate;
    unfold bind;
    match goal with
    | |- context [require_selector P ?x ?e0 st] =>
        destruct (require_selector P x e0 st) as [[w | err] st1] eqn:Hsel
    end;
    try discriminate;
    intros H; inversion H; subst; eapply require_selector_error; eassumption.
Qed.

Lemma require_attr_error v st e st' :
  require_attr v st = (Throw e, st') -> e = AttrInvalid.
Proof. destruct v; intros H; now inversion H. Qed.

Lemma reconfigure_error root loadBefore loadAfter st e st' :
  reconfigure root loadBefore loadAfter st = (Throw e, st') -> err_class e = ConfigError.
Proof.
  unfold reconfigure.
  destruct (negb (is_null root) || negb (is_zero loadBefore) || negb (is_zero loadAfter));
    [| discriminate].
  intros H. now apply config_throws_ConfigError in H.
Qed.

Lemma config_error_is_shared e : err_class e = ConfigError -> video_error e = e.
Proof. destruct e; try discriminate; reflexivity. Qed.

Lemma batch_setup_slots a st :
  exists st0,
    document st0 = document st /\
    ((exists e, video_error e = e /\
        forall slot, batch_setup P slot a st = (Throw e, st0)) \/
     exists r t at',
       (forall e, r = Throw e -> video_error e = e) /\
       forall slot, batch_setup P slot a st = (r, install (reveal_callback slot t at') st0)).
Proof.
  unfold batch_setup.
  destruct (require_selector P (default_to JNull (LoadArgs.selector a)) SelectorInvalid st)
    as [[sel | e] st1] eqn:H1;
    pose proof (require_selector_state _ _ _ _ _ H1); subst st1.
  2:{ exists st. split; [reflexivity |]. left. exists e. split.
      - destruct (require_selector_error _ _ _ _ _ H1) as [-> | ->]; reflexivity.
      - intros slot. now rewrite (bind_throw _ _ _ _ _ H1). }
  destruct (require_srcTarget P (default_to JNull (LoadArgs.srcTarget a)) st)
    as [[t | e] st1] eqn:H2;
    pose proof (require_srcTarget_state _ _ _ _ H2); subst st1.
  2:{ exists st. split; [reflexivity |]. left. exists e. split.
      - destruct (require_srcTarget_error _ _ _ _ H2) as [-> | ->]; reflexivity.
      - intros slot. rewrite (bind_ok _ _ _ _ _ H1).
        now rewrite (bind_throw _ _ _ _ _ H2). }
  destruct (require_attr (default_to JNull (LoadArgs.attr a)) st)
    as [[at' | e] st1] eqn:H3;
    pose proof (require_attr_state _ _ _ _ H3); subst st1.
  2:{ exists st. split; [reflexivity |]. left. exists e. split.
      - now rewrite (require_attr_error _ _ _ _ H3).
      - intros slot. rewrite (bind_ok _ _ _ _ _ H1), (bind_ok _ _ _ _ _ H2).
        now rewrite (bind_throw _ _ _ _ _ H3). }
  destruct (reconfigure (default_to JNull (LoadArgs.root a))
              (default_to zero (LoadArgs.loadBefore a))
              (default_to zero (LoadArgs.loadAfter a)) st)
    as [[[] | e] st0] eqn:H4;
    destruct (reconfigure_frame _ _ _ _ _ _ H4) as (_ & _ & Hd).
  2:{ exists st0. split; [exact Hd |]. left. exists e. split.
      - apply config_error_is_shared. eapply reconfigure_error. exact H4.
      - intros slot.
        rewrite (bind_ok _ _ _ _ _ H1), (bind_ok _ _ _ _ _ H2), (bind_ok _ _ _ _ _ H3).
        now rewrite (bind_throw _ _ _ _ _ H4). }
  destruct (acceptsOptions P (options st0)) eqn:Hacc.
  2:{ exists st0. split; [exact Hd |]. left. exists ObserverInitError.
      split; [reflexivity |]. intros slot.
      rewrite (bind_ok _ _ _ _ _ H1), (bind_ok _ _ _ _ _ H2), (bind_ok _ _ _ _ _ H3).
      rewrite (bind_ok _ _ _ _ _ H4).
      unfold bind, gets, new_IntersectionObserver. now rewrite Hacc. }
  exists st0. split; [exact Hd |]. right.
  exists (match querySelectorAll P (document st0) sel with
          | DomOk l => Ok l
          | DomSyntax => Throw DomSyntaxError
          end), t, at'. split.
  { intros e. destruct (querySelectorAll P (document st0) sel); intros H; inversion H.
    reflexivity. }
  intros slot.
  rewrite (bind_ok _ _ _ _ _ H1), (bind_ok _ _ _ _ _ H2), (bind_ok _ _ _ _ _ H3).
  rewrite (bind_ok _ _ _ _ _ H4).
  unfold bind, gets, new_IntersectionObserver, modify, document_querySelectorAll.
  rewrite Hacc.
  cbn [document set_observer set_heap heap install].
  destruct (querySelectorAll P (document st0) sel); reflexivity.
Qed.

(** Where the payload loop stops depends on the array and on the number of
    elements only. *)
Lemma loop_stop_unique (els : list elem) (paths : list jsval) (i k1 k2 : nat) :
  (forall j, j < k1 -> i + j < length els /\ exists v, paths !! j = Some (JStr v)) ->
  (forall v, paths !! k1 = Some (JStr v) -> length els <= i + k1) ->
  (forall j, j < k2 -> i + j < length els /\ exists v, paths !! j = Some (JStr v)) ->
  (forall v, paths !! k2 = Some (JStr v) -> length els <= i + k2) ->
  k1 = k2.
Proof.
  intros Hp1 Hs1 Hp2 Hs2.
  destruct (Nat.lt_trichotomy k1 k2) as [Hlt | [Heq | Hgt]]; [| exact Heq |].
  - destruct (Hp2 k1 Hlt) as [Hl [v Hv]]. specialize (Hs1 v Hv). lia.
  - destruct (Hp1 k2 Hgt) as [Hl [v Hv]]. specialize (Hs2 v Hv). lia.
Qed.

Lemma video_outcome_loop next :
  loop_outcome VideoSlot next = video_outcome (loop_outcome ImageSlot next).
Proof. destruct next as [[] |]; reflexivity. Qed.

(** The two payload loops stop at the same entry, on answering outcomes,
    having written the same payloads to the same elements. *)
Lemma assign_all_slots els pv si sv :
  document si = document sv ->
  exists r targets values,
    assign_all ImageSlot els pv si =
      (r, set_document (write_all ImageSlot (document si) targets values) si) /\
    assign_all VideoSlot els pv sv =
      (video_outcome r, set_document (write_all VideoSlot (document sv) targets values) sv).
Proof.
  intros Hd.
  destruct pv as [| | | | | paths | | |];
    try (exists (Throw (PathsNotArray ImageSlot)), [], []; simpl;
         unfold throw; now rewrite !set_document_id).
  rewrite !assign_all_array.
  destruct (assign_payload_run ImageSlot els paths 0 si) as (k1 & _ & Hp1 & Hs1 & Hr1).
  destruct (assign_payload_run VideoSlot els paths 0 sv) as (k2 & _ & Hp2 & Hs2 & Hr2).
  assert (k2 = k1) as -> by (eapply loop_stop_unique; eassumption).
  exists (loop_outcome ImageSlot (paths !! k1)), (take k1 (drop 0 els)),
    (string_of <$> take k1 paths).
  split; [exact Hr1 |]. rewrite Hr2. now rewrite video_outcome_loop.
Qed.

Lemma observed_install cb1 cb2 st :
  observed <$> heap (install cb1 st) = observed <$> heap (install cb2 st).
Proof. unfold install. cbn [heap set_observer set_heap]. now rewrite !fmap_app. Qed.

Lemma observed_alter f i (h1 h2 : list Observer) :
  observed <$> h1 = observed <$> h2 ->
  observed <$> alter (with_observed f) i h1 = observed <$> alter (with_observed f) i h2.
Proof.
  intros H.
  rewrite !(list_fmap_alter observed (with_observed f) f) by (apply Forall_forall; reflexivity).
  now rewrite H.
Qed.

(** The outcomes of the two operations on one call in one state. *)
Lemma slot_operations_agree a st :
  exists r si sv targets values,
    reveal_batch P ImageSlot a st = (r, si) /\
    reveal_batch P VideoSlot a st = (video_outcome r, sv) /\
    options si = options sv /\
    observer si = observer sv /\
    observed <$> heap si = observed <$> heap sv /\
    document si = write_all ImageSlot (document st) targets values /\
    document sv = write_all VideoSlot (document st) targets values.
Proof.
  destruct (batch_setup_slots a st)
    as (st0 & Hd & [(e & He & Hsame) | (r0 & t & at' & He & Hinst)]).
  - (* the setup fails before an observer is built *)
    unfold reveal_batch.
    exists (Throw e), st0, st0, [], [].
    rewrite (bind_throw _ _ _ _ _ (Hsame ImageSlot)).
    rewrite (bind_throw _ _ _ _ _ (Hsame VideoSlot)).
    simpl. rewrite He. repeat split; try reflexivity; exact Hd.
  - unfold reveal_batch. destruct r0 as [els | e].
    2:{ exists (Throw e), (install (reveal_callback ImageSlot t at') st0),
          (install (reveal_callback VideoSlot t at') st0), [], [].
        rewrite (bind_throw _ _ _ _ _ (Hinst ImageSlot)).
        rewrite (bind_throw _ _ _ _ _ (Hinst VideoSlot)).
        simpl. rewrite (He e eq_refl). repeat split; try reflexivity; try exact Hd.
        apply observed_install. }
    rewrite (bind_ok _ _ _ _ _ (Hinst ImageSlot)).
    rewrite (bind_ok _ _ _ _ _ (Hinst VideoSlot)).
    set (sI := install (reveal_callback ImageSlot t at') st0).
    set (sV := install (reveal_callback VideoSlot t at') st0).
    destruct (assign_all_slots els (paths_of a) sI sV eq_refl)
      as (r & targets & values & HrI & HrV).
    change (document sI) with (document st0) in HrI.
    change (document sV) with (document st0) in HrV.
    rewrite Hd in HrI, HrV.
    destruct r as [[] | e].
    + rewrite (bind_ok _ _ _ _ _ HrI). simpl video_outcome in HrV.
      rewrite (bind_ok _ _ _ _ _ HrV).
      rewrite (subscribe_all_run els _ (length (heap st0))) by reflexivity.
      rewrite (subscribe_all_run els _ (length (heap st0))) by reflexivity.
      exists (Ok tt). do 2 eexists. exists targets, values.
      split; [reflexivity |]. split; [reflexivity |].
      repeat split. cbn [heap set_heap set_document].
      apply observed_alter, observed_install.
    + rewrite (bind_throw _ _ _ _ _ HrI). simpl video_outcome in HrV.
      rewrite (bind_throw _ _ _ _ _ HrV).
      exists (Throw e). do 2 eexists. exists targets, values.
      split; [reflexivity |]. split; [reflexivity |].
      repeat split. apply observed_install.
Qed.

End SlotFacts.

(** C8. For every call and every state, [loadVideo] is [loadImage] on the
    other data slot: both are the one reveal operation [reveal_batch], and
    their callbacks the one reveal action [reveal_entry], at the image slot
    and at the video slot, so that selector, [srcTarget], [attr], array and
    reconfiguration are checked alike, payloads are assigned and read back
    alike and the target is unobserved alike. Run on the same call in the
    same state, the two operations end alike: with the same outcome, the
    payload errors naming the other array and keeping their class, with the
    same stored configuration, the same observer in [#observer] and the
    same subscriptions, and with the same payloads written to the same
    elements, each operation in its own slot. *)
Theorem loadVideo_is_loadImage_on_the_video_slot (P : Platform) (a : LoadArgs.t)
    (st : State) :
  (loadImage P a st = reveal_batch P ImageSlot a st /\
   loadVideo P a st = reveal_batch P VideoSlot a st) /\
  (forall t at' entries i st0,
     renderImage P t at' entries i st0 =
       forEach entries (reveal_entry P ImageSlot t at' i) st0 /\
     renderVideo P t at' entries i st0 =
       forEach entries (reveal_entry P VideoSlot t at' i) st0) /\
  (exists r si sv targets values,
     loadImage P a st = (r, si) /\
     loadVideo P a st = (video_outcome r, sv) /\
     options si = options sv /\
     observer si = observer sv /\
     observed <$> heap si = observed <$> heap sv /\
     document si = write_all ImageSlot (document st) targets values /\
     document sv = write_all VideoSlot (document st) targets values) /\
  (forall e, err_class (video_error e) = err_class e).
Proof.
  split; [| split; [| split]].
  - split; [apply loadImage_generic | apply loadVideo_generic].
  - intros t at' entries i st0. split; reflexivity.
  - rewrite loadImage_generic, loadVideo_generic. apply slot_operations_agree.
  - intros e. destruct e; reflexivity.
Qed.

(** * Further properties of the class *)

(** ** [config]: which check fails, and what a call depends on *)

Lemma below_zero_iff n : num_lt n (Fin 0) = true <-> below_zero n.
Proof.
  destruct n as [| | | q]; simpl; try (split; [discriminate | tauto]); try tauto.
  rewrite negb_true_iff. split.
  - intros H. apply Qnot_le_lt. intros Hle. apply Qle_bool_iff in Hle. congruence.
  - intros H. apply not_true_is_false. rewrite Qle_bool_iff. now apply Qlt_not_le.
Qed.

Lemma above_one_iff n : num_lt (Fin 1) n = true <-> above_one n.
Proof.
  destruct n as [| | | q]; simpl; try (split; [discriminate | tauto]); try tauto.
  rewrite negb_true_iff. split.
  - intros H. apply Qnot_le_lt. intros Hle. apply Qle_bool_iff in Hle. congruence.
  - intros H. apply not_true_is_false. rewrite Qle_bool_iff. now apply Qlt_not_le.
Qed.

Lemma root_check_iff v :
  (if negb (is_null (default_to JNull v))
   then checkValidDOMElement (default_to JNull v) else true) = true <-> valid_root v.
Proof.
  unfold valid_root. destruct v; simpl; split; intros H; try discriminate; eauto;
    destruct H as [H | [H | [x H]]]; discriminate.
Qed.

Lemma loadBefore_check_iff v :
  invalid_loadBefore (default_to zero v) = false <-> passes_loadBefore v.
Proof.
  unfold passes_loadBefore.
  destruct v as [| | b | n | s | items | f | e |];
    try (split; [discriminate | intros [H | (n & H & _)]; discriminate]).
  - split; [intros _; now left | reflexivity].
  - unfold invalid_loadBefore, js_lt, zero.
    cbn [default_to is_null is_undefined typeof jstype_eqb negb orb].
    rewrite <- not_true_iff_false, below_zero_iff. split.
    + intros H. right. exists n. split; [reflexivity | exact H].
    + intros [H | (m & Hm & H)]; [discriminate | now inversion Hm; subst].
Qed.

Lemma loadAfter_check_iff v :
  invalid_loadAfter (default_to zero v) = false <-> passes_loadAfter v.
Proof.
  unfold passes_loadAfter.
  destruct v as [| | b | n | s | items | f | e |];
    try (split; [discriminate | intros [H | (n & H & _)]; discriminate]).
  - split; [intros _; now left | reflexivity].
  - unfold invalid_loadAfter, js_gt, js_lt, zero, one.
    cbn [default_to is_null is_undefined typeof jstype_eqb negb orb].
    rewrite orb_false_iff, <- !not_true_iff_false, below_zero_iff, above_one_iff. split.
    + intros [H0 H1]. right. exists n. split; [reflexivity | split; assumption].
    + intros [H | (m & Hm & H0 & H1)]; [discriminate |].
      inversion Hm; subst. split; assumption.
Qed.

(** X1. [config] reports the first check that fails, in the order [root],
    [loadBefore], [loadAfter], and accepts the call exactly when the three
    pass; a [NaN] passes both numeric checks. *)
Theorem config_reports_the_first_failing_check (root loadBefore loadAfter : jsval)
    (st : State) :
  let r := fst (config (ConfigArgs.mk root loadBefore loadAfter) st) in
  (r = Throw RootInvalid <-> ~ valid_root root) /\
  (r = Throw LoadBeforeInvalid <-> valid_root root /\ ~ passes_loadBefore loadBefore) /\
  (r = Throw LoadAfterInvalid <->
     valid_root root /\ passes_loadBefore loadBefore /\ ~ passes_loadAfter loadAfter) /\
  (r = Ok tt <->
     valid_root root /\ passes_loadBefore loadBefore /\ passes_loadAfter loadAfter) /\
  passes_loadBefore (JNum NaN) /\ passes_loadAfter (JNum NaN).
Proof.
  cbv zeta.
  pose proof (root_check_iff root) as Hr.
  pose proof (loadBefore_check_iff loadBefore) as Hb.
  pose proof (loadAfter_check_iff loadAfter) as Ha.
  unfold config, ConfigArgs.root, ConfigArgs.loadBefore, ConfigArgs.loadAfter.
  destruct (if negb (is_null (default_to JNull root))
            then checkValidDOMElement (default_to JNull root) else true) eqn:Er;
    destruct (invalid_loadBefore (default_to zero loadBefore)) eqn:Eb;
    destruct (invalid_loadAfter (default_to zero loadAfter)) eqn:Ea;
    simpl;
    (split; [| split; [| split; [| split; [| split]]]]);
    try (right; exists NaN; simpl; tauto);
    split; try discriminate; try reflexivity; intuition (try discriminate; auto).
Qed.

(** X2. Whether [config] accepts a call and what it then stores depend on
    the arguments only, not on the state it is called in, and a call touches
    nothing but the stored configuration: an accepted configuration is the
    same after a [destroy], after any earlier configuration, and when it is
    made twice. *)
Theorem config_depends_on_its_arguments_only (a : ConfigArgs.t) (st st' : State) :
  fst (config a st) = fst (config a st') /\
  (fst (config a st) = Ok tt ->
     options (snd (config a st)) = options (snd (config a st')) /\
     config a (snd (config a st)) = config a st /\
     options (snd (config a (snd (destroy st)))) = options (snd (config a st))) /\
  observer (snd (config a st)) = observer st /\
  heap (snd (config a st)) = heap st /\
  document (snd (config a st)) = document st.
Proof.
  unfold config.
  repeat match goal with
         | |- context [if ?b then _ else _] => destruct b
         end; simpl; repeat split; try discriminate; try reflexivity.
  all: intros _; repeat split; try reflexivity.
  all: unfold destroy, on_this_observer, bind, gets;
       rewrite config_defaults; simpl; destruct (observer st); reflexivity.
Qed.

Lemma config_depends_on_its_arguments_only_witness :
  options (snd (config (ConfigArgs.mk JNull (JNum (Fin 50)) zero) Demo.fresh)) =
  options (snd (config (ConfigArgs.mk JNull (JNum (Fin 50)) zero) Demo.cta_watch)).
Proof.
  destruct (config_depends_on_its_arguments_only
              (ConfigArgs.mk JNull (JNum (Fin 50)) zero) Demo.fresh Demo.cta_watch)
    as (_ & H & _).
  apply H. reflexivity.
Defined.

(** ** What a batch operation does to the controller *)

Section SetupFacts.

Context (P : Platform).

Lemma reconfigure_cases root loadBefore loadAfter st :
  (keeps_configuration root loadBefore loadAfter /\
   reconfigure (default_to JNull root) (default_to zero loadBefore)
     (default_to zero loadAfter) st = (Ok tt, st)) \/
  (~ keeps_configuration root loadBefore loadAfter /\
   reconfigure (default_to JNull root) (default_to zero loadBefore)
     (default_to zero loadAfter) st =
   config (ConfigArgs.mk (default_to JNull root) (default_to zero loadBefore)
             (default_to zero loadAfter)) st).
Proof.
  unfold reconfigure, keeps_configuration.
  destruct (is_null (default_to JNull root)) eqn:Hr;
    destruct (is_zero (default_to zero loadBefore)) eqn:Hb;
    destruct (is_zero (default_to zero loadAfter)) eqn:Ha; simpl;
    try (right; split; [intros (H1 & H2 & H3) | reflexivity];
         try discriminate; rewrite H1 in Hr; discriminate).
  left. split; [| reflexivity]. repeat split.
  destruct (default_to JNull root); try discriminate. reflexivity.
Qed.

Lemma default_to_idem d v : d <> JUndefined -> default_to d (default_to d v) = default_to d v.
Proof. intros Hd. destruct v; simpl; try reflexivity. destruct d; congruence || reflexivity. Qed.

(** A reconfiguration that is accepted stores the fields of the call. *)
Lemma reconfigure_stores root loadBefore loadAfter st st0 :
  ~ keeps_configuration root loadBefore loadAfter ->
  reconfigure (default_to JNull root) (default_to zero loadBefore)
    (default_to zero loadAfter) st = (Ok tt, st0) ->
  st0 = set_options {| root := default_to JNull root;
                       rootMargin := default_to zero loadBefore;
                       threshold := default_to zero loadAfter |} st.
Proof.
  intros Hk Hrun.
  destruct (reconfigure_cases root loadBefore loadAfter st) as [[Hk' _] | [_ Hc]];
    [contradiction |].
  rewrite Hc in Hrun. revert Hrun. unfold config.
  cbn [ConfigArgs.root ConfigArgs.loadBefore ConfigArgs.loadAfter].
  rewrite !default_to_idem by discriminate.
  repeat match goal with
         | |- context [if ?b then _ else _] => destruct b
         end; intros H; inversion H. reflexivity.
Qed.

Lemma reconfigure_throws root loadBefore loadAfter st e st' :
  reconfigure root loadBefore loadAfter st = (Throw e, st') ->
  err_class e = ConfigError /\ st' = st.
Proof.
  unfold reconfigure.
  destruct (negb (is_null root) || negb (is_zero loadBefore) || negb (is_zero loadAfter));
    [| discriminate].
  apply config_throws_ConfigError.
Qed.

(** The setup of a batch operation: it stops on an argument, or on the
    selector engine, with the state as it was; or it reconfigures as asked
    and then either the constructor rejects the stored configuration or the
    fresh observer is installed. *)
Lemma batch_setup_outcome slot a st :
  (exists e, (argument_error e \/ e = DomSyntaxError) /\
     batch_setup P slot a st = (Throw e, st)) \/
  (exists st0,
     reconfigure (default_to JNull (LoadArgs.root a))
       (default_to zero (LoadArgs.loadBefore a))
       (default_to zero (LoadArgs.loadAfter a)) st = (Ok tt, st0) /\
     ((acceptsOptions P (options st0) = false /\
       batch_setup P slot a st = (Throw ObserverInitError, st0)) \/
      (acceptsOptions P (options st0) = true /\
       exists t at' r,
         batch_setup P slot a st = (r, install (reveal_callback slot t at') st0) /\
         (r = Throw DomSyntaxError \/ exists els, r = Ok els)))).
Proof.
  unfold batch_setup, argument_error.
  destruct (require_selector P (default_to JNull (LoadArgs.selector a)) SelectorInvalid st)
    as [[sel | e] st1] eqn:H1;
    pose proof (require_selector_state _ _ _ _ _ _ H1); subst st1.
  2:{ left. exists e. split.
      - destruct (require_selector_error _ _ _ _ _ _ H1) as [-> | ->]; auto.
      - now rewrite (bind_throw _ _ _ _ _ H1). }
  destruct (require_srcTarget P (default_to JNull (LoadArgs.srcTarget a)) st)
    as [[t | e] st1] eqn:H2;
    pose proof (require_srcTarget_state _ _ _ _ _ H2); subst st1.
  2:{ left. exists e. split.
      - destruct (require_srcTarget_error _ _ _ _ _ H2) as [-> | ->]; auto.
      - rewrite (bind_ok _ _ _ _ _ H1). now rewrite (bind_throw _ _ _ _ _ H2). }
  destruct (require_attr (default_to JNull (LoadArgs.attr a)) st)
    as [[at' | e] st1] eqn:H3;
    pose proof (require_attr_state _ _ _ _ H3); subst st1.
  2:{ left. exists e. split.
      - rewrite (require_attr_error _ _ _ _ H3). auto.
      - rewrite (bind_ok _ _ _ _ _ H1), (bind_ok _ _ _ _ _ H2).
        now rewrite (bind_throw _ _ _ _ _ H3). }
  destruct (reconfigure (default_to JNull (LoadArgs.root a))
              (default_to zero (LoadArgs.loadBefore a))
              (default_to zero (LoadArgs.loadAfter a)) st)
    as [[[] | e] st0] eqn:H4.
  2:{ left. exists e. destruct (reconfigure_throws _ _ _ _ _ _ H4) as [Hc ->].
      split; [left; auto 10 |].
      rewrite (bind_ok _ _ _ _ _ H1), (bind_ok _ _ _ _ _ H2), (bind_ok _ _ _ _ _ H3).
      now rewrite (bind_throw _ _ _ _ _ H4). }
  right. exists st0. split; [reflexivity |].
  rewrite (bind_ok _ _ _ _ _ H1), (bind_ok _ _ _ _ _ H2), (bind_ok _ _ _ _ _ H3).
  rewrite (bind_ok _ _ _ _ _ H4).
  unfold bind, gets, new_IntersectionObserver, modify, document_querySelectorAll.
  destruct (acceptsOptions P (options st0)) eqn:Hacc; [right | left; auto].
  split; [reflexivity |]. exists t, at'.
  exists (match querySelectorAll P (document st0) sel with
          | DomOk l => Ok l
          | DomSyntax => Throw DomSyntaxError
          end).
  split.
  - cbn [document set_observer set_heap heap install].
    destruct (querySelectorAll P (document st0) sel); reflexivity.
  - destruct (querySelectorAll P (document st0) sel); eauto.
Qed.

(** The payload phase changes the document only, and fails in three ways. *)
Lemma assign_all_outcome slot els pv st :
  exists r d,
    assign_all slot els pv st = (r, set_document d st) /\
    (forall e, r = Throw e ->
       e = PathNotString slot \/ e = PathsNotArray slot \/ e = NullDereference).
Proof.
  destruct pv as [| | | | | paths | | |];
    try (exists (Throw (PathsNotArray slot)), (document st); simpl; unfold throw;
         rewrite set_document_id; split; [reflexivity |];
         intros err H; inversion H; auto).
  rewrite assign_all_array.
  destruct (assign_payload_run slot els paths 0 st) as (k & _ & _ & _ & Hr).
  do 2 eexists. split; [exact Hr |].
  intros e. destruct (paths !! k) as [[] |]; simpl; intros H; inversion H; auto.
Qed.

(** The state a batch operation ends in, whatever the call. *)
Lemma batch_operation_outcome slot a st :
  (exists e, (argument_error e \/ e = DomSyntaxError) /\
     batch_operation P slot a st = (Throw e, st)) \/
  (exists st0,
     reconfigure (default_to JNull (LoadArgs.root a))
       (default_to zero (LoadArgs.loadBefore a))
       (default_to zero (LoadArgs.loadAfter a)) st = (Ok tt, st0) /\
     ((acceptsOptions P (options st0) = false /\
       batch_operation P slot a st = (Throw ObserverInitError, st0)) \/
      (acceptsOptions P (options st0) = true /\
       exists t at' d,
         (exists e, (e = DomSyntaxError \/ e = PathNotString slot \/
                     e = PathsNotArray slot \/ e = NullDereference) /\
            batch_operation P slot a st =
              (Throw e, set_document d (install (reveal_callback slot t at') st0))) \/
         (exists els,
            batch_operation P slot a st =
              (Ok tt,
               set_heap
                 (alter (with_observed (fun tracked => list_to_set els ∪ tracked))
                    (length (heap st0)) (heap (install (reveal_callback slot t at') st0)))
                 (set_document d (install (reveal_callback slot t at') st0))))))).
Proof.
  rewrite batch_operation_generic. unfold reveal_batch.
  destruct (batch_setup_outcome slot a st)
    as [(e & He & Hrun) |
        (st0 & Hrc & [[Hacc Hrun] | (Hacc & t & at' & r & Hrun & Hr)])].
  - left. exists e. split; [exact He |]. now rewrite (bind_throw _ _ _ _ _ Hrun).
  - right. exists st0. split; [exact Hrc |]. left. split; [exact Hacc |].
    now rewrite (bind_throw _ _ _ _ _ Hrun).
  - right. exists st0. split; [exact Hrc |]. right. split; [exact Hacc |].
    exists t, at'.
    destruct Hr as [-> | [els ->]].
    + exists (document st0). left. exists DomSyntaxError.
      split; [auto |]. rewrite (bind_throw _ _ _ _ _ Hrun).
      reflexivity.
    + rewrite (bind_ok _ _ _ _ _ Hrun).
      destruct (assign_all_outcome slot els (paths_of a)
                  (install (reveal_callback slot t at') st0)) as (r & d & Ha & He).
      exists d.
      destruct r as [[] | e].
      * right. exists els. rewrite (bind_ok _ _ _ _ _ Ha).
        now rewrite (subscribe_all_run els _ (length (heap st0))).
      * left. exists e. split; [right; now apply He |].
        now rewrite (bind_throw _ _ _ _ _ Ha).
Qed.

(** A batch operation returns on an array of strings only. *)
Lemma assign_all_returns slot els paths st st' :
  assign_all slot els (JArray paths) st = (Ok tt, st') -> all_strings paths.
Proof.
  rewrite assign_all_array.
  destruct (assign_payload_run slot els paths 0 st) as (k & Hk & Hpre & _ & Hrun).
  rewrite Hrun. intros H. inversion H as [[Hout Hst]].
  destruct (paths !! k) as [p |] eqn:Hp.
  - destruct p; discriminate.
  - apply lookup_ge_None in Hp. apply Forall_lookup. intros j p Hj.
    destruct (Hpre j) as [_ [v Hv]]; [apply lookup_lt_Some in Hj; lia |].
    rewrite Hj in Hv. inversion Hv. eauto.
Qed.

Lemma batch_returns_on_strings slot a st st' paths :
  batch_operation P slot a st = (Ok tt, st') ->
  paths_of a = JArray paths ->
  all_strings paths.
Proof.
  rewrite batch_operation_generic. unfold reveal_batch, bind. intros Hrun Hp.
  destruct (batch_setup P slot a st) as [[els | e] st1]; [| discriminate].
  rewrite Hp in Hrun.
  destruct (assign_all slot els (JArray paths) st1) as [[[] | e] st2] eqn:Ha;
    [| discriminate].
  eapply assign_all_returns. exact Ha.
Qed.

End SetupFacts.

(** ** [executeFn] *)

Section ExecuteFacts.

Context (P : Platform).

Lemma require_selector_ok v e st s st' :
  require_selector P v e st = (Ok s, st') ->
  v = JStr s /\ st' = st /\
  exists m ms, querySelectorAll P (document st) s = DomOk (m :: ms).
Proof.
  destruct v as [| | | | s0 | | | |]; try discriminate.
  rewrite require_selector_run.
  destruct (querySelectorAll P (document st) s0) as [[| m ms] |] eqn:Hq;
    intros H; inversion H; subst. eauto.
Qed.

(** A call that passes its checks: the fresh observer tracks the first
    match of the selector. *)
Lemma executeFn_run a st s m ms f st0 :
  ExecArgs.selector a = JStr s ->
  querySelectorAll P (document st) s = DomOk (m :: ms) ->
  ExecArgs.exeFn a = JFunction f ->
  reconfigure (default_to JNull (ExecArgs.root a))
    (default_to zero (ExecArgs.loadBefore a))
    (default_to zero (ExecArgs.loadAfter a)) st = (Ok tt, st0) ->
  acceptsOptions P (options st0) = true ->
  executeFn P a st =
    (Ok tt,
     set_heap
       (alter (with_observed (fun tracked => {[m]} ∪ tracked)) (length (heap st0))
          (heap (install (HandleFunctionExecution f) st0)))
       (install (HandleFunctionExecution f) st0)).
Proof.
  intros Hs Hq Hf Hrc Hacc.
  destruct (reconfigure_frame _ _ _ _ _ _ Hrc) as (_ & _ & Hd).
  unfold executeFn. rewrite Hs, Hf. cbn [default_to].
  erewrite bind_ok; cycle 1.
  { rewrite require_selector_run, Hq. reflexivity. }
  cbv beta. rewrite (bind_ok _ _ _ _ _ Hrc).
  unfold document_querySelector, on_this_observer, observe.
  unfold bind, gets, new_IntersectionObserver, modify, document_querySelectorAll, ret.
  rewrite Hacc.
  cbn [document set_observer set_heap heap observer]. rewrite Hd, Hq. reflexivity.
Qed.

(** A failure of [executeFn] is a failure of its argument checks, which
    leaves the state as it was, or of the observer's constructor, which
    leaves the configuration of the call stored. *)
Lemma executeFn_failure a st e st' :
  executeFn P a st = (Throw e, st') ->
  ((argument_error e \/ e = DomSyntaxError) /\ st' = st) \/
  (e = ObserverInitError /\
   acceptsOptions P (options st') = false /\
   reconfigure (default_to JNull (ExecArgs.root a))
     (default_to zero (ExecArgs.loadBefore a))
     (default_to zero (ExecArgs.loadAfter a)) st = (Ok tt, st')).
Proof.
  unfold executeFn, argument_error.
  destruct (require_selector P (default_to JNull (ExecArgs.selector a)) SelectorInvalid st)
    as [[sel | e1] st1] eqn:H1.
  2:{ rewrite (bind_throw _ _ _ _ _ H1). intros H. inversion H; subst. left.
      split; [| eapply require_selector_state; exact H1].
      destruct (require_selector_error _ _ _ _ _ _ H1) as [-> | ->]; auto. }
  destruct (require_selector_ok _ _ _ _ _ H1) as (Hv & -> & m & ms & Hq).
  rewrite (bind_ok _ _ _ _ _ H1).
  destruct (default_to JNull (ExecArgs.exeFn a)) as [| | | | | | f | |] eqn:Hf;
    try (intros H; inversion H; subst; left; split; [auto 10 | reflexivity]).
  destruct (reconfigure (default_to JNull (ExecArgs.root a))
              (default_to zero (ExecArgs.loadBefore a))
              (default_to zero (ExecArgs.loadAfter a)) st) as [[[] | e2] st0] eqn:Hrc.
  - destruct (reconfigure_frame _ _ _ _ _ _ Hrc) as (_ & _ & Hd).
    rewrite (bind_ok _ _ _ _ _ Hrc).
    unfold document_querySelector, on_this_observer, observe.
    unfold bind, gets, new_IntersectionObserver, modify, document_querySelectorAll, ret.
    destruct (acceptsOptions P (options st0)) eqn:Hacc.
    + cbn [document set_observer set_heap heap observer]. rewrite Hd, Hq. discriminate.
    + intros H. inversion H; subst. right. auto.
  - rewrite (bind_throw _ _ _ _ _ Hrc). intros H. inversion H; subst.
    destruct (reconfigure_throws _ _ _ _ _ _ Hrc) as [Hc ->]. left.
    split; [auto 10 | reflexivity].
Qed.

End ExecuteFacts.

(** X3. A call of [executeFn] whose selector is a string with at least one
    match, whose [exeFn] is a function, whose reconfiguration, if it asks
    for one, is accepted, and whose stored configuration the observer's
    constructor takes, returns having built a fresh observer with that
    function as its callback action and put it in [#observer]; the observer
    tracks the first match of the selector and no other element, also when
    the selector matches several; the document and every earlier observer
    are as they were. *)
Theorem executeFn_watches_the_first_match (P : Platform) (a : ExecArgs.t) (st : State)
    (s : string) (m : elem) (ms : list elem) (f : fn_id) :
  ExecArgs.selector a = JStr s ->
  querySelectorAll P (document st) s = DomOk (m :: ms) ->
  ExecArgs.exeFn a = JFunction f ->
  fst (reconfigure (default_to JNull (ExecArgs.root a))
         (default_to zero (ExecArgs.loadBefore a))
         (default_to zero (ExecArgs.loadAfter a)) st) = Ok tt ->
  acceptsOptions P
    (options (snd (reconfigure (default_to JNull (ExecArgs.root a))
                     (default_to zero (ExecArgs.loadBefore a))
                     (default_to zero (ExecArgs.loadAfter a)) st))) = true ->
  exists st',
    executeFn P a st = (Ok tt, st') /\
    observer st' = Some (length (heap st)) /\
    (forall e, observes st' (length (heap st)) e <-> e = m) /\
    (exists o, heap st' !! length (heap st) = Some o /\
       callback o = HandleFunctionExecution f /\ init o = options st') /\
    document st' = document st /\
    (forall j o, heap st !! j = Some o -> heap st' !! j = Some o).
Proof.
  intros Hs Hq Hf Hcfg Hacc.
  destruct (reconfigure (default_to JNull (ExecArgs.root a))
              (default_to zero (ExecArgs.loadBefore a))
              (default_to zero (ExecArgs.loadAfter a)) st) as [r st0] eqn:Hrc.
  simpl in Hcfg, Hacc. subst r.
  destruct (reconfigure_frame _ _ _ _ _ _ Hrc) as (_ & Hh & Hd).
  eexists. split; [eapply executeFn_run; eassumption |].
  cbn [observer heap document set_heap set_observer install]. rewrite Hh.
  assert (Hnew :
    alter (with_observed (fun tracked => {[m]} ∪ tracked)) (length (heap st))
      (heap st ++ [{| callback := HandleFunctionExecution f; init := options st0;
                      observed := ∅ |}])%list !! length (heap st)
    = Some {| callback := HandleFunctionExecution f; init := options st0;
              observed := {[m]} ∪ ∅ |}).
  { rewrite alter_observed_lookup, decide_True by reflexivity.
    now rewrite lookup_app_r, Nat.sub_diag by lia. }
  split; [reflexivity |]. split; [| split; [| split]].
  - intros e. unfold observes. split.
    + intros (o & Ho & He). cbn [heap set_heap] in Ho. rewrite Hnew in Ho.
      inversion Ho; subst. simpl in He. set_solver.
    + intros ->. eexists. split; [exact Hnew |]. simpl. set_solver.
  - eexists. split; [exact Hnew |]. split; reflexivity.
  - exact Hd.
  - intros j o Hj. rewrite alter_observed_lookup.
    rewrite decide_False by (apply lookup_lt_Some in Hj; lia).
    now apply lookup_app_l_Some.
Qed.

Lemma executeFn_watches_the_first_match_witness :
  exists st',
    executeFn Demo.browser (Demo.run_on_visible "img.lazy" 0) Demo.fresh = (Ok tt, st') /\
    observes st' 0 0 /\ ~ observes st' 0 1.
Proof.
  destruct (executeFn_watches_the_first_match Demo.browser
              (Demo.run_on_visible "img.lazy" 0) Demo.fresh "img.lazy" 0 [1] 0)
    as (st' & Hrun & _ & Hobs & _); try reflexivity.
  exists st'. split; [exact Hrun |]. split.
  - apply Hobs. reflexivity.
  - intros H. apply Hobs in H. discriminate.
Defined.

(** X4. [executeFn] fails on its argument checks, on the selector engine,
    or in the constructor of the observer. A call that fails builds no
    observer and leaves [#observer] and the document as they were; after a
    failed check the whole state is as it was, and no configuration the
    call carries is stored; after a failure of the constructor the
    configuration the call carried is the stored one. A call whose
    selector matches but whose [exeFn] is not a function throws the error
    of the [exeFn] check, whatever configuration it carries. *)
Theorem executeFn_failure_builds_no_observer (P : Platform) (a : ExecArgs.t)
    (st : State) :
  (forall e st', executeFn P a st = (Throw e, st') ->
     observer st' = observer st /\ heap st' = heap st /\ document st' = document st /\
     (((argument_error e \/ e = DomSyntaxError) /\ st' = st) \/
      (e = ObserverInitError /\
       acceptsOptions P (options st') = false /\
       reconfigure (default_to JNull (ExecArgs.root a))
         (default_to zero (ExecArgs.loadBefore a))
         (default_to zero (ExecArgs.loadAfter a)) st = (Ok tt, st')))) /\
  (forall s m ms,
     ExecArgs.selector a = JStr s ->
     querySelectorAll P (document st) s = DomOk (m :: ms) ->
     typeof (ExecArgs.exeFn a) <> TFunction ->
     executeFn P a st = (Throw ExeFnNotFunction, st) /\
     err_class ExeFnNotFunction = TypeError).
Proof.
  split.
  - intros e st' Hrun.
    destruct (executeFn_failure P a st e st' Hrun) as [[He ->] | (He & Hacc & Hrc)].
    + repeat split; try reflexivity. left. split; [exact He | reflexivity].
    + destruct (reconfigure_frame _ _ _ _ _ _ Hrc) as (Ho & Hh & Hd).
      split; [exact Ho |]. split; [exact Hh |]. split; [exact Hd |]. right. auto.
  - intros s m ms Hs Hq Hf. split; [| reflexivity].
    unfold executeFn. rewrite Hs. cbn [default_to].
    erewrite bind_ok; cycle 1.
    { rewrite require_selector_run, Hq. reflexivity. }
    destruct (ExecArgs.exeFn a); simpl in *; congruence || reflexivity.
Qed.

Lemma executeFn_failure_builds_no_observer_witness :
  executeFn Demo.browser
    (ExecArgs.mk (JStr "#cta") (JStr "not a function") JNull (JNum (Fin 50)) zero) Demo.fresh
    = (Throw ExeFnNotFunction, Demo.fresh) /\
  heap
    (snd (executeFn Demo.browser
            (ExecArgs.mk (JStr "#cta") (JFunction 0) JNull (JNum NaN) zero) Demo.cta_watch))
    = heap Demo.cta_watch.
Proof.
  split.
  - destruct (executeFn_failure_builds_no_observer Demo.browser
                (ExecArgs.mk (JStr "#cta") (JStr "not a function") JNull (JNum (Fin 50)) zero)
                Demo.fresh) as [_ H].
    apply (H "#cta" 2 []); [reflexivity | reflexivity | discriminate].
  - destruct (executeFn_failure_builds_no_observer Demo.browser
                (ExecArgs.mk (JStr "#cta") (JFunction 0) JNull (JNum NaN) zero)
                Demo.cta_watch) as [H _].
    apply (H ObserverInitError). reflexivity.
Defined.

(** ** Failures, replaced observers and stored configuration *)

Lemma unobserved_heap_all st st' i :
  heap st' = alter (with_observed (fun _ => ∅)) i (heap st) ->
  forall x, ~ observes st' i x.
Proof.
  intros H x (o & Ho & Hx). rewrite H, alter_observed_lookup in Ho.
  rewrite decide_True in Ho by reflexivity.
  destruct (heap st !! i) as [o0 |]; [| discriminate].
  simpl in Ho. inversion Ho; subst. simpl in Hx. set_solver.
Qed.

Lemma installed_keeps_earlier cb st0 st f d j o :
  heap st0 = heap st ->
  heap st !! j = Some o ->
  heap
    (set_heap (alter (with_observed f) (length (heap st0)) (heap (install cb st0)))
       (set_document d (install cb st0))) !! j = Some o.
Proof.
  intros Hh Hj. cbn [heap set_heap set_document install set_observer].
  rewrite Hh, alter_observed_lookup.
  rewrite decide_False by (apply lookup_lt_Some in Hj; lia).
  now apply lookup_app_l_Some.
Qed.

Lemma argument_error_not_setup slot e : argument_error e -> ~ setup_error slot e.
Proof.
  intros [-> | [-> | [-> | [-> | H]]]] [He | [He | [He | [He | He]]]];
    try discriminate; subst e; discriminate.
Qed.

(** What a failed batch operation leaves. *)
Lemma batch_failure (P : Platform) (slot : Slot) (a : LoadArgs.t) (st st' : State)
    (e : Err) :
  batch_operation P slot a st = (Throw e, st') ->
  (argument_error e \/ setup_error slot e) /\
  (argument_error e -> st' = st) /\
  no_new_subscription st st' /\
  (forall j o, heap st !! j = Some o -> heap st' !! j = Some o).
Proof.
  intros Hrun. unfold setup_error.
  destruct (batch_operation_outcome P slot a st)
    as [(e0 & He0 & H0) |
        (st0 & Hrc & [[Hacc H0] | (Hacc & t & at' & d & [(e0 & He0 & H0) | (els & H0)])])];
    rewrite H0 in Hrun; inversion Hrun; subst; clear Hrun.
  - split; [tauto |]. split; [reflexivity |]. split; [| tauto].
    intros i x H. exact H.
  - destruct (reconfigure_frame _ _ _ _ _ _ Hrc) as (_ & Hh & _).
    split; [tauto |]. split; [| split].
    + intros Ha. exfalso. apply (argument_error_not_setup slot _ Ha).
      unfold setup_error. tauto.
    + now apply same_heap_no_new_subscription.
    + intros j o Hj. now rewrite Hh.
  - destruct (reconfigure_frame _ _ _ _ _ _ Hrc) as (_ & Hh & _).
    split; [tauto |]. split; [| split].
    + intros Ha. exfalso. apply (argument_error_not_setup slot _ Ha).
      unfold setup_error. tauto.
    + eapply fresh_observer_no_new_subscription with
        (o := {| callback := reveal_callback slot t at'; init := options st0;
                 observed := ∅ |}); [| reflexivity].
      cbn [heap set_document install set_observer set_heap]. now rewrite Hh.
    + intros j o Hj. cbn [heap set_document install set_observer set_heap].
      rewrite Hh. now apply lookup_app_l_Some.
Qed.

(** X5. A batch operation that fails has failed on an argument check, on
    the selector engine, in the constructor of the observer, or in its
    payload phase on an entry that is not a string, on an array that is
    none, or on an element that is not there. Whatever the failure, no
    element has been subscribed and every earlier observer is as it was;
    after a failed argument check the whole state is as it was. *)
Theorem failed_batch_subscribes_nothing (P : Platform) (slot : Slot) (a : LoadArgs.t)
    (st st' : State) (e : Err) :
  batch_operation P slot a st = (Throw e, st') ->
  (argument_error e \/ e = DomSyntaxError \/ e = ObserverInitError \/
   e = PathNotString slot \/ e = PathsNotArray slot \/ e = NullDereference) /\
  (argument_error e -> st' = st) /\
  no_new_subscription st st' /\
  (forall j o, heap st !! j = Some o -> heap st' !! j = Some o).
Proof. apply batch_failure. Qed.

Lemma failed_batch_subscribes_nothing_witness :
  no_new_subscription Demo.cta_watch
    (snd (loadVideo Demo.browser
            (LoadArgs.mk (JStr "video.clip") JUndefined JUndefined (JArray [JStr "v.mp4"])
               JUndefined (JNum PInf) JUndefined) Demo.cta_watch)).
Proof.
  assert (Hrun :
    batch_operation Demo.browser VideoSlot
      (LoadArgs.mk (JStr "video.clip") JUndefined JUndefined (JArray [JStr "v.mp4"])
         JUndefined (JNum PInf) JUndefined) Demo.cta_watch
    = (Throw ObserverInitError,
       snd (loadVideo Demo.browser
              (LoadArgs.mk (JStr "video.clip") JUndefined JUndefined
                 (JArray [JStr "v.mp4"]) JUndefined (JNum PInf) JUndefined) Demo.cta_watch)))
    by reflexivity.
  exact (proj1 (proj2 (proj2 (failed_batch_subscribes_nothing _ _ _ _ _ _ Hrun)))).
Defined.

(** X6. A batch operation whose arguments pass the checks but whose array
    argument is not an array throws the error of the array check only after
    it has built its observer: the document is as it was and nothing is
    subscribed, but [#observer] now holds the fresh observer, which tracks
    no element. *)
Theorem array_check_comes_after_the_observer (P : Platform) (slot : Slot) (st : State)
    (a : LoadArgs.t) (s : string) (els : list elem) (t at' : option string) :
  valid_setup P st a s els t at' ->
  (forall items, paths_of a <> JArray items) ->
  exists st',
    batch_operation P slot a st = (Throw (PathsNotArray slot), st') /\
    err_class (PathsNotArray slot) = TypeError /\
    document st' = document st /\
    observer st' = Some (length (heap st)) /\
    (exists o, heap st' !! length (heap st) = Some o /\
       callback o = reveal_callback slot t at' /\ observed o = ∅) /\
    (forall j o, heap st !! j = Some o -> heap st' !! j = Some o).
Proof.
  intros Hv Hp.
  exists (after_setup (reveal_callback slot t at') a st).
  split.
  - rewrite batch_operation_generic, (reveal_batch_run P slot _ _ _ _ _ _ Hv).
    apply bind_throw. unfold assign_all.
    destruct (paths_of a); try reflexivity. now destruct (Hp items).
  - split; [now destruct slot |]. split; [apply after_setup_document |].
    split; [reflexivity |].
    destruct (after_setup_heap (reveal_callback slot t at') a st) as [opts Hh].
    rewrite Hh. split.
    + eexists. split; [now rewrite lookup_app_r, Nat.sub_diag by lia |].
      split; reflexivity.
    + intros j o Hj. now apply lookup_app_l_Some.
Qed.

Lemma array_check_comes_after_the_observer_witness :
  exists st',
    loadImage Demo.browser
      (LoadArgs.mk (JStr "img.lazy") JUndefined JUndefined (JStr "a.jpg")
         JUndefined JUndefined JUndefined) Demo.fresh
      = (Throw (PathsNotArray ImageSlot), st') /\
    observer st' = Some 0.
Proof.
  destruct (array_check_comes_after_the_observer Demo.browser ImageSlot Demo.fresh
              (LoadArgs.mk (JStr "img.lazy") JUndefined JUndefined (JStr "a.jpg")
                 JUndefined JUndefined JUndefined) "img.lazy" [0; 1] None None)
    as (st' & Hrun & _ & _ & Hobs & _).
  - constructor; try reflexivity. discriminate.
  - discriminate.
  - exists st'. split; [exact Hrun | exact Hobs].
Defined.

(** ** C3: an entry that is not a string *)

Lemma loop_outcome_not_string slot p :
  typeof p <> TString -> loop_outcome slot (Some p) = Throw (PathNotString slot).
Proof. destruct p; simpl; congruence. Qed.

(** C3, as the code has it. Every call of [loadImage] (resp. [loadVideo])
    whose array holds an entry that is not a string throws, and has
    subscribed no element by then. For a call that passes the checks made
    before the payload loop, so that the observer is built, and whose first
    entry that is not a string is at index [k]: when [k] is not above the
    number of matched elements the call throws the type error of the
    payload loop, and otherwise the loop has run off the elements before it
    meets the entry and the call throws on the dereference of [undefined].
    By then the elements at the indices below [k] carry the entries at
    their indices as payload and no other element has changed, so that no
    element at all has changed when the first entry is the one that is not
    a string. *)
Theorem path_type_error_stops_the_setup (P : Platform) (slot : Slot) (st : State)
    (a : LoadArgs.t) (paths : list jsval) :
  paths_of a = JArray paths ->
  ~ all_strings paths ->
  (exists e st',
     batch_operation P slot a st = (Throw e, st') /\
     no_new_subscription st st' /\
     (forall j o, heap st !! j = Some o -> heap st' !! j = Some o)) /\
  (forall s els t at' k p,
     valid_setup P st a s els t at' ->
     NoDup els ->
     (forall j, j < k -> exists v, paths !! j = Some (JStr v)) ->
     paths !! k = Some p ->
     typeof p <> TString ->
     exists st',
       batch_operation P slot a st =
         (Throw (if decide (k <= length els) then PathNotString slot else NullDereference),
          st') /\
       err_class (PathNotString slot) = TypeError /\
       no_new_subscription st st' /\
       (forall j e v, j < k -> els !! j = Some e -> paths !! j = Some (JStr v) ->
          payload (document st') e slot = Some v) /\
       (forall e, e ∉ take k els -> document st' e = document st e) /\
       (k = 0 -> forall e, document st' e = document st e)).
Proof.
  intros Hp Hnot. split.
  - destruct (batch_operation P slot a st) as [[[] | e] st'] eqn:Hrun.
    + exfalso. apply Hnot. eapply batch_returns_on_strings; eassumption.
    + destruct (batch_failure P slot a st st' e Hrun) as (_ & _ & Hsub & Hkeep).
      exists e, st'. repeat split; assumption.
  - intros s els t at' k p Hv Hnd Hpre Hk Hty.
    destruct (batch_run P slot st a s els t at' paths Hv Hp)
      as (k' & Hk' & Hpre' & Hstr & Hrun).
    cbv zeta in Hrun.
    assert (Hkl : k' <= length els).
    { destruct k' as [| k']; [lia |]. destruct (Hpre' k') as [? _]; lia. }
    assert (Hkk : k' <= k).
    { destruct (decide (k' <= k)) as [| Hgt]; [assumption |].
      destruct (Hpre' k) as [_ [v Hv']]; [lia |]. rewrite Hk in Hv'.
      inversion Hv'; subst. now simpl in Hty. }
    assert (Hmin : k' = k \/ (k' = length els /\ length els < k)).
    { destruct (decide (k' = k)) as [| Hne]; [now left |]. right.
      destruct (Hpre k') as [v Hv']; [lia |]. specialize (Hstr v Hv'). lia. }
    assert (Hout :
      loop_outcome slot (paths !! k') =
        Throw (if decide (k <= length els) then PathNotString slot else NullDereference)).
    { destruct Hmin as [-> | [-> Hlt]].
      - rewrite Hk, (loop_outcome_not_string slot p Hty).
        now rewrite decide_True by exact Hkl.
      - destruct (Hpre (length els) Hlt) as [v Hv']. rewrite Hv'. simpl.
        now rewrite decide_False by lia. }
    assert (Hsome : exists q, paths !! k' = Some q).
    { destruct (paths !! k') as [q |]; [eauto | discriminate]. }
    destruct Hsome as [q Hq]. rewrite Hq in Hrun, Hout. rewrite Hout in Hrun.
    assert (Hother : forall e, e ∉ take k els ->
              write_all slot (document st) (take k' els) (string_of <$> take k' paths) e
                = document st e).
    { intros e He. apply write_all_other. intros Hin. apply He.
      apply elem_of_take in Hin as (j & Hj & Hlt). apply elem_of_take.
      exists j. split; [exact Hj | lia]. }
    eexists. split; [exact Hrun |]. split; [now destruct slot |].
    split; [apply stopped_batch_no_new_subscription |]. split; [| split].
    + intros j e v Hj He Hpj. cbn [document set_document].
      assert (Hjk : j < k').
      { apply lookup_lt_Some in He. destruct Hmin as [-> | [-> _]]; lia. }
      eapply write_all_payload.
      * eapply sublist_NoDup; [exact Hnd | apply sublist_take].
      * rewrite lookup_take_lt by exact Hjk. exact He.
      * rewrite list_lookup_fmap, lookup_take_lt by exact Hjk. now rewrite Hpj.
    + exact Hother.
    + intros -> e. apply Hother. simpl. set_solver.
Qed.

Lemma path_type_error_stops_the_setup_witness :
  (exists st',
     loadImage Demo.browser (Demo.load "img.lazy" [JNum (Fin 1); JStr "ok.jpg"]) Demo.fresh
       = (Throw (PathNotString ImageSlot), st') /\
     no_new_subscription Demo.fresh st' /\
     (forall e, document st' e = document Demo.fresh e)) /\
  fst (loadImage Demo.browser
         (Demo.load "img.lazy" [JStr "a.jpg"; JStr "b.jpg"; JNum (Fin 1)]) Demo.fresh)
    = Throw (PathNotString ImageSlot) /\
  fst (loadImage Demo.browser
         (Demo.load "#a" [JStr "a.jpg"; JStr "b.jpg"; JNum (Fin 1)]) Demo.fresh)
    = Throw NullDereference.
Proof.
  split; [| split].
  - destruct (path_type_error_stops_the_setup Demo.browser ImageSlot Demo.fresh
                (Demo.load "img.lazy" [JNum (Fin 1); JStr "ok.jpg"])
                [JNum (Fin 1); JStr "ok.jpg"]) as [_ H].
    + reflexivity.
    + intros Hall. inversion Hall as [| ? ? [v Hv] _]. discriminate.
    + destruct (H "img.lazy" [0; 1] None None 0 (JNum (Fin 1)))
        as (st' & Hrun & _ & Hsub & _ & _ & Hsame).
      * apply demo_valid_setup. reflexivity.
      * repeat constructor; set_solver.
      * intros j Hj. lia.
      * reflexivity.
      * discriminate.
      * exists st'. split; [exact Hrun |]. split; [exact Hsub |]. exact (Hsame eq_refl).
  - destruct (path_type_error_stops_the_setup Demo.browser ImageSlot Demo.fresh
                (Demo.load "img.lazy" [JStr "a.jpg"; JStr "b.jpg"; JNum (Fin 1)])
                [JStr "a.jpg"; JStr "b.jpg"; JNum (Fin 1)]) as [_ H].
    + reflexivity.
    + intros Hall. inversion Hall as [| ? ? _ Hall1]. inversion Hall1 as [| ? ? _ Hall2].
      inversion Hall2 as [| ? ? [v Hv] _]. discriminate.
    + destruct (H "img.lazy" [0; 1] None None 2 (JNum (Fin 1))) as (st' & Hrun & _).
      * apply demo_valid_setup. reflexivity.
      * repeat constructor; set_solver.
      * intros [| [| j]] Hj; [now exists "a.jpg" | now exists "b.jpg" | lia].
      * reflexivity.
      * discriminate.
      * change (batch_operation Demo.browser ImageSlot) with (loadImage Demo.browser) in Hrun.
        now rewrite Hrun.
  - destruct (path_type_error_stops_the_setup Demo.browser ImageSlot Demo.fresh
                (Demo.load "#a" [JStr "a.jpg"; JStr "b.jpg"; JNum (Fin 1)])
                [JStr "a.jpg"; JStr "b.jpg"; JNum (Fin 1)]) as [_ H].
    + reflexivity.
    + intros Hall. inversion Hall as [| ? ? _ Hall1]. inversion Hall1 as [| ? ? _ Hall2].
      inversion Hall2 as [| ? ? [v Hv] _]. discriminate.
    + destruct (H "#a" [0] None None 2 (JNum (Fin 1))) as (st' & Hrun & _).
      * apply demo_valid_setup. reflexivity.
      * repeat constructor; set_solver.
      * intros [| [| j]] Hj; [now exists "a.jpg" | now exists "b.jpg" | lia].
      * reflexivity.
      * discriminate.
      * change (batch_operation Demo.browser ImageSlot) with (loadImage Demo.browser) in Hrun.
        now rewrite Hrun.
Defined.

(** C3 as the specification states it fails: with a string in front of the entry that is
    not one, element [0] has been given the payload [a.jpg] in place of its
    markup value [m.jpg] by the time the type error is thrown. *)
Lemma type_error_after_a_partial_assignment :
  fst (loadImage Demo.browser (Demo.load "img.lazy" [JStr "a.jpg"; JNum (Fin 1)]) Demo.fresh)
    = Throw (PathNotString ImageSlot) /\
  payload (document Demo.fresh) 0 ImageSlot = Some "m.jpg" /\
  payload
    (document
       (snd (loadImage Demo.browser (Demo.load "img.lazy" [JStr "a.jpg"; JNum (Fin 1)])
               Demo.fresh))) 0 ImageSlot = Some "a.jpg" /\
  document
    (snd (loadImage Demo.browser (Demo.load "img.lazy" [JStr "a.jpg"; JNum (Fin 1)])
            Demo.fresh)) 0 <> document Demo.fresh 0.
Proof.
  assert (Hnew :
    payload
      (document
         (snd (loadImage Demo.browser (Demo.load "img.lazy" [JStr "a.jpg"; JNum (Fin 1)])
                 Demo.fresh))) 0 ImageSlot = Some "a.jpg") by (vm_compute; reflexivity).
  assert (Hold : payload (document Demo.fresh) 0 ImageSlot = Some "m.jpg")
    by (vm_compute; reflexivity).
  split; [vm_compute; reflexivity |]. split; [exact Hold |]. split; [exact Hnew |].
  intros Heq. unfold payload in Hnew. rewrite Heq in Hnew.
  unfold payload in Hold. congruence.
Qed.

Lemma destroy_effect st n :
  observer st = Some n ->
  exists st',
    destroy st = (Ok tt, st') /\
    (forall x, ~ observes st' n x) /\
    (forall j, j <> n -> heap st' !! j = heap st !! j).
Proof.
  intros Hn. eexists. split.
  - unfold destroy. rewrite (bind_ok _ _ _ _ _ (config_defaults st)).
    unfold on_this_observer, bind, gets. simpl. rewrite Hn. reflexivity.
  - split.
    + intros x. eapply unobserved_heap_all. reflexivity.
    + intros j Hj. cbn [heap set_heap set_options].
      rewrite alter_observed_lookup. now rewrite decide_False by congruence.
Qed.

Lemma destroy_keeps_earlier st st' n :
  observer st' = Some n ->
  length (heap st) <= n ->
  (forall j o, heap st !! j = Some o -> heap st' !! j = Some o) ->
  exists st'',
    destroy st' = (Ok tt, st'') /\
    (forall j x, observes st j x -> observes st'' j x) /\
    (forall x, ~ observes st'' n x).
Proof.
  intros Hn Hlen Hkeep.
  destruct (destroy_effect st' n Hn) as (st'' & Hrun & Hnone & Hother).
  exists st''. split; [exact Hrun |]. split; [| exact Hnone].
  intros j x (o & Ho & Hx). exists o. split; [| exact Hx].
  rewrite Hother by (apply lookup_lt_Some in Ho; lia). now apply Hkeep.
Qed.

Lemma keeps_earlier_observes st st' :
  (forall j o, heap st !! j = Some o -> heap st' !! j = Some o) ->
  forall j x, observes st j x -> observes st' j x.
Proof. intros H j x (o & Ho & Hx). exists o. split; [now apply H | exact Hx]. Qed.

Lemma replaces_the_observer_intro st st' :
  observer st' = Some (length (heap st)) ->
  (forall j o, heap st !! j = Some o -> heap st' !! j = Some o) ->
  replaces_the_observer st st'.
Proof.
  intros Hn Hkeep. split; [exact Hn |]. split; [now apply keeps_earlier_observes |].
  now apply (destroy_keeps_earlier st st' (length (heap st))).
Qed.

Section ReplacementFacts.

Context (P : Platform).

Lemma batch_success st slot a st' :
  batch_operation P slot a st = (Ok tt, st') ->
  exists t at' st0 d els,
    reconfigure (default_to JNull (LoadArgs.root a))
      (default_to zero (LoadArgs.loadBefore a))
      (default_to zero (LoadArgs.loadAfter a)) st = (Ok tt, st0) /\
    st' =
      set_heap
        (alter (with_observed (fun tracked => list_to_set els ∪ tracked))
           (length (heap st0)) (heap (install (reveal_callback slot t at') st0)))
        (set_document d (install (reveal_callback slot t at') st0)).
Proof.
  intros Hrun.
  destruct (batch_operation_outcome P slot a st)
    as [(e0 & He0 & H0) |
        (st0 & Hrc & [[Hacc H0] | (Hacc & t & at' & d & [(e0 & He0 & H0) | (els & H0)])])];
    rewrite H0 in Hrun; inversion Hrun; subst.
  exists t, at', st0, d, els. split; [exact Hrc | reflexivity].
Qed.

Lemma executeFn_success a st st' :
  executeFn P a st = (Ok tt, st') ->
  observer st' = Some (length (heap st)) /\
  (forall j o, heap st !! j = Some o -> heap st' !! j = Some o).
Proof.
  unfold executeFn.
  destruct (require_selector P (default_to JNull (ExecArgs.selector a)) SelectorInvalid st)
    as [[sel | e1] st1] eqn:H1.
  2:{ rewrite (bind_throw _ _ _ _ _ H1). discriminate. }
  destruct (require_selector_ok _ _ _ _ _ _ H1) as (Hv & -> & m & ms & Hq).
  rewrite (bind_ok _ _ _ _ _ H1).
  destruct (default_to JNull (ExecArgs.exeFn a)) as [| | | | | | f | |] eqn:Hf;
    try discriminate.
  destruct (reconfigure (default_to JNull (ExecArgs.root a))
              (default_to zero (ExecArgs.loadBefore a))
              (default_to zero (ExecArgs.loadAfter a)) st) as [[[] | e2] st0] eqn:Hrc.
  2:{ rewrite (bind_throw _ _ _ _ _ Hrc). discriminate. }
  destruct (reconfigure_frame _ _ _ _ _ _ Hrc) as (_ & Hh & Hd).
  rewrite (bind_ok _ _ _ _ _ Hrc).
  unfold document_querySelector, on_this_observer, observe.
  unfold bind, gets, new_IntersectionObserver, modify, document_querySelectorAll, ret.
  destruct (acceptsOptions P (options st0)); [| discriminate].
  cbn [document set_observer set_heap heap observer]. rewrite Hd, Hq. simpl.
  intros H. inversion H; subst. cbn [observer heap]. rewrite Hh.
  split; [reflexivity |].
  intros j o Hj. cbn [heap set_heap]. rewrite alter_observed_lookup.
  rewrite decide_False by (apply lookup_lt_Some in Hj; lia).
  now apply lookup_app_l_Some.
Qed.

End ReplacementFacts.

(** X7. Every batch operation that returns, [loadImage], [loadVideo] or
    [executeFn], has put a fresh observer in [#observer] and has left the
    observers of earlier batches with everything they track; the controller
    no longer refers to them, and a [destroy] called afterwards releases the
    elements of the latest batch only: the elements of the earlier batches
    stay subscribed. *)
Theorem destroy_releases_the_latest_batch_only (P : Platform) (st st' : State) :
  (forall slot a, batch_operation P slot a st = (Ok tt, st') ->
     replaces_the_observer st st') /\
  (forall a, executeFn P a st = (Ok tt, st') -> replaces_the_observer st st').
Proof.
  split.
  - intros slot a Hrun.
    destruct (batch_success P st slot a st' Hrun) as (t & at' & st0 & d & els & Hrc & ->).
    destruct (reconfigure_frame _ _ _ _ _ _ Hrc) as (_ & Hh & _).
    apply replaces_the_observer_intro.
    + cbn [observer set_heap set_document install set_observer]. now rewrite Hh.
    + intros j o Hj. exact (installed_keeps_earlier _ st0 st _ d j o Hh Hj).
  - intros a Hrun. destruct (executeFn_success P a st st' Hrun) as [Hn Hkeep].
    now apply replaces_the_observer_intro.
Qed.

Lemma destroy_releases_the_latest_batch_only_witness :
  exists st' st'',
    loadImage Demo.browser (Demo.load "img.lazy" []) Demo.cta_watch = (Ok tt, st') /\
    destroy st' = (Ok tt, st'') /\
    observes st'' 0 2 /\ ~ observes st'' 1 0.
Proof.
  eexists. 
  assert (Hrun :
    batch_operation Demo.browser ImageSlot (Demo.load "img.lazy" []) Demo.cta_watch
    = (Ok tt, snd (loadImage Demo.browser (Demo.load "img.lazy" []) Demo.cta_watch)))
    by reflexivity.
  destruct (proj1 (destroy_releases_the_latest_batch_only Demo.browser Demo.cta_watch _)
              ImageSlot _ Hrun) as (_ & _ & st'' & Hd & Hkeep & Hgone).
  exists st''. split; [exact Hrun |]. split; [exact Hd |]. split.
  - apply Hkeep. apply tracks_observes. vm_compute. reflexivity.
  - apply (Hgone 0).
Defined.

(** X8. A batch operation that returns has stored the configuration its
    call carries, for every later call to use: when the call names a
    [root], a [loadBefore] or a [loadAfter] other than [null], [0] and [0],
    the three fields of the call replace the stored configuration; when it
    names none, the stored configuration stays what an earlier call made
    it and is not reset to the defaults. The observer of the call is built
    from the configuration so stored. *)
Theorem batch_configuration_persists (P : Platform) (slot : Slot) (a : LoadArgs.t)
    (st st' : State) :
  batch_operation P slot a st = (Ok tt, st') ->
  (keeps_configuration (LoadArgs.root a) (LoadArgs.loadBefore a) (LoadArgs.loadAfter a) ->
     options st' = options st) /\
  (~ keeps_configuration (LoadArgs.root a) (LoadArgs.loadBefore a) (LoadArgs.loadAfter a) ->
     options st' =
       Some {| root := default_to JNull (LoadArgs.root a);
               rootMargin := default_to zero (LoadArgs.loadBefore a);
               threshold := default_to zero (LoadArgs.loadAfter a) |}) /\
  (exists o, heap st' !! length (heap st) = Some o /\ init o = options st').
Proof.
  intros Hrun.
  destruct (batch_success P st slot a st' Hrun) as (t & at' & st0 & d & els & Hrc & ->).
  destruct (reconfigure_frame _ _ _ _ _ _ Hrc) as (_ & Hh & _).
  cbn [options set_heap set_document install set_observer heap].
  split; [| split].
  - intros Hk.
    destruct (reconfigure_cases (LoadArgs.root a) (LoadArgs.loadBefore a)
                (LoadArgs.loadAfter a) st) as [[_ Hsame] | [Hn _]]; [| contradiction].
    rewrite Hsame in Hrc. now inversion Hrc.
  - intros Hk. now rewrite (reconfigure_stores _ _ _ _ _ Hk Hrc).
  - rewrite Hh, alter_observed_lookup, decide_True by reflexivity.
    rewrite lookup_app_r, Nat.sub_diag by lia. simpl. eexists. split; reflexivity.
Qed.

Lemma batch_configuration_persists_witness :
  exists st1 st2,
    loadImage Demo.browser
      (LoadArgs.mk (JStr "#a") JUndefined JUndefined JUndefined
         JUndefined (JNum (Fin 50)) JUndefined) Demo.fresh = (Ok tt, st1) /\
    loadVideo Demo.browser (Demo.load "video.clip" []) st1 = (Ok tt, st2) /\
    options st2 = Some {| root := JNull; rootMargin := JNum (Fin 50); threshold := zero |}.
Proof.
  eexists. eexists.
  assert (H1 :
    batch_operation Demo.browser ImageSlot
      (LoadArgs.mk (JStr "#a") JUndefined JUndefined JUndefined
         JUndefined (JNum (Fin 50)) JUndefined) Demo.fresh
    = (Ok tt,
       snd (loadImage Demo.browser
              (LoadArgs.mk (JStr "#a") JUndefined JUndefined JUndefined
                 JUndefined (JNum (Fin 50)) JUndefined) Demo.fresh))) by reflexivity.
  assert (H2 :
    batch_operation Demo.browser VideoSlot (Demo.load "video.clip" [])
      (snd (loadImage Demo.browser
              (LoadArgs.mk (JStr "#a") JUndefined JUndefined JUndefined
                 JUndefined (JNum (Fin 50)) JUndefined) Demo.fresh))
    = (Ok tt,
       snd (loadVideo Demo.browser (Demo.load "video.clip" [])
              (snd (loadImage Demo.browser
                      (LoadArgs.mk (JStr "#a") JUndefined JUndefined JUndefined
                         JUndefined (JNum (Fin 50)) JUndefined) Demo.fresh)))))
    by reflexivity.
  split; [exact H1 |]. split; [exact H2 |].
  destruct (batch_configuration_persists _ _ _ _ _ H2) as (Hkeep & _).
  rewrite Hkeep by (repeat split).
  destruct (batch_configuration_persists _ _ _ _ _ H1) as (_ & Hset & _).
  rewrite Hset; [reflexivity |].
  intros (_ & Hb & _). discriminate.
Defined.

(** ** Reports of the visibility primitive *)

Lemma same_but_tracked_refl i st : same_but_tracked i st st.
Proof.
  repeat split; try reflexivity. intros o Ho. exists o. repeat split; [exact Ho | set_solver].
Qed.

Lemma same_but_tracked_trans i st1 st2 st3 :
  same_but_tracked i st1 st2 -> same_but_tracked i st2 st3 -> same_but_tracked i st1 st3.
Proof.
  intros (Ho1 & Hb1 & Hl1 & Hn1 & Hi1) (Ho2 & Hb2 & Hl2 & Hn2 & Hi2).
  split; [congruence |]. split; [congruence |]. split; [congruence |]. split.
  - intros j Hj. rewrite Hn2, Hn1 by exact Hj. reflexivity.
  - intros o Ho. destruct (Hi1 o Ho) as (o' & Ho' & Hc & Hin & Hsub).
    destruct (Hi2 o' Ho') as (o'' & Ho'' & Hc' & Hin' & Hsub').
    exists o''. split; [exact Ho'' |]. split; [congruence |]. split; [congruence |].
    set_solver.
Qed.

Lemma same_but_tracked_document i st d : same_but_tracked i st (set_document d st).
Proof.
  repeat split; try reflexivity. intros o Ho. exists o. repeat split; [exact Ho | set_solver].
Qed.

Lemma same_but_tracked_unobserve i st e :
  same_but_tracked i st
    (set_heap (alter (with_observed (fun tracked => tracked ∖ {[e]})) i (heap st)) st).
Proof.
  split; [reflexivity |]. split; [reflexivity |]. cbn [heap set_heap].
  split; [apply length_alter |]. split.
  - intros j Hj. rewrite alter_observed_lookup. now rewrite decide_False by congruence.
  - intros o Ho. rewrite alter_observed_lookup, decide_True, Ho by reflexivity.
    eexists. split; [reflexivity |]. simpl. repeat split. set_solver.
Qed.

Section ReportFacts.

Context (P : Platform).

(** The entries that are not intersecting are skipped. *)
Lemma forEach_skips_out_of_view cb i es :
  forall st,
    forEach es (run_entry P cb i) st = forEach (intersecting es) (run_entry P cb i) st.
Proof.
  induction es as [| en es IH]; intros st; [reflexivity |].
  unfold intersecting in *. destruct (isIntersecting en) eqn:Hen.
  - rewrite filter_cons_True by exact Hen. simpl. apply bind_ext. intros _ st'. apply IH.
  - rewrite filter_cons_False by congruence. simpl. unfold bind.
    rewrite (run_entry_out_of_view P cb i en st Hen). apply IH.
Qed.

Lemma same_but_tracked_controller i st st' :
  options st' = options st -> observer st' = observer st -> heap st' = heap st ->
  same_but_tracked i st st'.
Proof.
  intros Ho Hb Hh. repeat split; try assumption; try (now rewrite Hh).
  intros o Hi. exists o. rewrite Hh. repeat split; [exact Hi | set_solver].
Qed.

Lemma reveal_step_same_but_tracked cb i en st r st' :
  quiet_callback P cb ->
  reveal_step P cb i en st = (r, st') -> same_but_tracked i st st'.
Proof.
  intros Hq. unfold reveal_step, bind.
  destruct (reveal_action P cb (target en) st) as [[[] | e] st1] eqn:Ha;
    destruct (reveal_action_controller P _ _ _ _ _ Hq Ha) as (Ho & Hb & Hh);
    intros H; inversion H; subst.
  - eapply same_but_tracked_trans;
      [apply same_but_tracked_controller; eassumption
      | apply (same_but_tracked_unobserve i _ (target en))].
  - apply same_but_tracked_controller; assumption.
Qed.

Lemma steps_same_but_tracked cb i es :
  quiet_callback P cb ->
  forall st r st',
    forEach es (reveal_step P cb i) st = (r, st') -> same_but_tracked i st st'.
Proof.
  intros Hq. induction es as [| en es IH]; intros st r st' H.
  - inversion H; subst. apply same_but_tracked_refl.
  - simpl in H. unfold bind in H.
    destruct (reveal_step P cb i en st) as [[[] | e] st1] eqn:Hen.
    + eapply same_but_tracked_trans;
        [eapply reveal_step_same_but_tracked; [exact Hq | exact Hen] | eapply IH; exact H].
    + inversion H; subst. eapply reveal_step_same_but_tracked; [exact Hq | exact Hen].
Qed.

End ReportFacts.

(** X9. The three callbacks act on intersecting entries only: a report is
    handled as the report of its intersecting entries alone, so that a
    report of transitions out of view calls no function, writes nothing and
    leaves every subscription in place. *)
Theorem reports_out_of_view_are_ignored (P : Platform) (i : nat) (es : list Entry)
    (st : State) :
  deliver P i es st = deliver P i (intersecting es) st /\
  (Forall (fun en => isIntersecting en = false) es -> deliver P i es st = (Ok tt, st)).
Proof.
  assert (Hskip : deliver P i es st = deliver P i (intersecting es) st).
  { destruct (heap st !! i) as [o |] eqn:Ho.
    - rewrite !(deliver_run P i _ st o Ho).
      rewrite forEach_skips_out_of_view. f_equal.
      unfold intersecting. rewrite !list_filter_filter.
      apply list_filter_iff. intros en. tauto.
    - unfold deliver. now rewrite Ho. }
  split; [exact Hskip |].
  intros Hall. rewrite Hskip.
  assert (Hnil : intersecting es = []).
  { clear Hskip. unfold intersecting.
    induction Hall as [| en es Hen _ IH]; [reflexivity |].
    rewrite filter_cons_False by congruence. exact IH. }
  rewrite Hnil. unfold deliver. destruct (heap st !! i); reflexivity.
Qed.

Lemma reports_out_of_view_are_ignored_witness :
  deliver Demo.browser 0 [{| target := 2; isIntersecting := false |}] Demo.cta_watch
    = (Ok tt, Demo.cta_watch).
Proof.
  apply (reports_out_of_view_are_ignored Demo.browser 0
           [{| target := 2; isIntersecting := false |}] Demo.cta_watch).
  repeat constructor.
Defined.

(** X10. A report to the observer of an image or a video batch, or to
    the observer of a callback batch whose function calls no method of the
    instance, leaves, whatever its outcome, the stored configuration,
    [#observer] and every other observer as they were, also when another
    observer tracks the same element; the observer itself keeps its
    callback and its configuration, and what it tracks can only have
    shrunk. *)
Theorem report_touches_its_own_observer_only (P : Platform) (i : nat) (es : list Entry)
    (st st' : State) (r : Res unit) :
  (forall o, heap st !! i = Some o -> quiet_callback P (callback o)) ->
  deliver P i es st = (r, st') -> same_but_tracked i st st'.
Proof.
  intros Hq Hrun. destruct (heap st !! i) as [o |] eqn:Ho.
  - rewrite (deliver_fired P i es st o Ho) in Hrun.
    eapply steps_same_but_tracked; [apply (Hq o eq_refl) | exact Hrun].
  - unfold deliver in Hrun. rewrite Ho in Hrun. inversion Hrun; subst.
    apply same_but_tracked_refl.
Qed.

Lemma report_touches_its_own_observer_only_witness :
  same_but_tracked 0 Demo.cta_watch Demo.cta_seen_once.
Proof.
  apply (report_touches_its_own_observer_only Demo.browser 0 [Demo.visible 2]
           Demo.cta_watch Demo.cta_seen_once (Throw (UserError 7))).
  - assert (Hh : heap Demo.cta_watch !! 0 =
                   Some {| callback := HandleFunctionExecution 1;
                           init := Some default_options; observed := {[2]} ∪ ∅ |})
      by reflexivity.
    intros o Ho. rewrite Hh in Ho. inversion Ho; subst o.
    intros st. repeat split; reflexivity.
  - reflexivity.
Defined.

(** A function that calls a method of the instance is not covered:
    function [3] calls [destroy], and the report that runs it resets the
    configuration the batch had stored. *)
Lemma reentrant_function_resets_the_configuration :
  options
    (snd (executeFn Demo.browser
            (ExecArgs.mk (JStr "#cta") (JFunction 3) JNull (JNum (Fin 50)) zero) Demo.fresh))
    = Some {| root := JNull; rootMargin := JNum (Fin 50); threshold := zero |} /\
  fst (deliver Demo.browser 0 [Demo.visible 2]
         (snd (executeFn Demo.browser
                 (ExecArgs.mk (JStr "#cta") (JFunction 3) JNull (JNum (Fin 50)) zero)
                 Demo.fresh))) = Ok tt /\
  options
    (snd (deliver Demo.browser 0 [Demo.visible 2]
            (snd (executeFn Demo.browser
                    (ExecArgs.mk (JStr "#cta") (JFunction 3) JNull (JNum (Fin 50)) zero)
                    Demo.fresh)))) = Some default_options.
Proof. repeat split; vm_compute; reflexivity. Qed.

(** ** Reveals without [srcTarget] and [attr] *)

Lemma slot_attr_not_src slot : "src" <> slot_attr slot.
Proof. destruct slot; discriminate. Qed.

Lemma with_src_payload slot v x :
  attrs (with_src v x) !! slot_attr slot = attrs x !! slot_attr slot.
Proof.
  unfold with_src. destruct (reflects_src x); [| reflexivity].
  cbn [with_attr attrs]. apply lookup_insert_ne, slot_attr_not_src.
Qed.

Lemma with_src_source v x :
  (if reflects_src (with_src v x) then attrs (with_src v x) !! "src"
   else src (with_src v x)) = Some v.
Proof.
  unfold with_src. destruct (reflects_src x) eqn:Hr; cbn [reflects_src with_attr attrs src].
  - rewrite Hr. apply lookup_insert_eq.
  - reflexivity.
Qed.

Lemma with_src_idem v x : with_src v (with_src v x) = with_src v x.
Proof.
  destruct x as [at0 sr [|]]; unfold with_src, with_attr; cbn; [| reflexivity].
  f_equal. apply insert_insert_eq.
Qed.

Lemma revealed_idem slot x : revealed slot (revealed slot x) = revealed slot x.
Proof.
  unfold revealed. destruct (truthy (attrs x !! slot_attr slot)) as [v |] eqn:Hv.
  - rewrite with_src_payload, Hv. apply with_src_idem.
  - now rewrite Hv.
Qed.

(** What a reveal leaves on an element that has a payload. *)
Lemma source_of_revealed slot d d' e v :
  d' e = revealed slot (d e) ->
  payload d e slot = Some v -> v <> "" ->
  source_of d' e = Some v /\ payload d' e slot = Some v.
Proof.
  intros Hd Hp Hne. unfold source_of, payload in *. rewrite Hd. unfold revealed.
  rewrite Hp, (truthy_nonempty v Hne). split; [apply with_src_source |].
  now rewrite with_src_payload.
Qed.

Lemma plain_reveal_of_nothing slot d : plain_reveal_of slot ∅ d d.
Proof. split; [intros e He; set_solver | reflexivity]. Qed.

Lemma plain_reveal_of_one slot d e :
  plain_reveal_of slot {[e]} d
    (match truthy (payload d e slot) with
     | Some v => store_set_src d e v
     | None => d
     end).
Proof.
  unfold plain_reveal_of, revealed, payload.
  destruct (truthy (attrs (d e) !! slot_attr slot)) as [v |] eqn:Hv.
  - unfold store_set_src. split.
    + intros x Hx. apply elem_of_singleton in Hx as ->. now rewrite Hv, upd_same.
    + intros x Hx. apply upd_other. set_solver.
  - split; [| reflexivity].
    intros x Hx. apply elem_of_singleton in Hx as ->. now rewrite Hv.
Qed.

Lemma plain_reveal_of_compose slot T1 T2 d d1 d' :
  plain_reveal_of slot T1 d d1 ->
  plain_reveal_of slot T2 d1 d' ->
  plain_reveal_of slot (T1 ∪ T2) d d'.
Proof.
  intros (Hs1 & Ho1) (Hs2 & Ho2). split.
  - intros e He. destruct (decide (e ∈ T2)) as [H2 | H2].
    + rewrite (Hs2 e H2). destruct (decide (e ∈ T1)) as [H1 | H1].
      * rewrite (Hs1 e H1). apply revealed_idem.
      * now rewrite (Ho1 e H1).
    + rewrite (Ho2 e H2). apply Hs1. set_solver.
  - intros e He. rewrite Ho2, Ho1 by set_solver. reflexivity.
Qed.

Lemma intersecting_targets_cons en es :
  intersecting_targets (en :: es) =
    if isIntersecting en then {[target en]} ∪ intersecting_targets es
    else intersecting_targets es.
Proof.
  unfold intersecting_targets, intersecting. destruct (isIntersecting en) eqn:Hen.
  - rewrite filter_cons_True by exact Hen. now rewrite fmap_cons, list_to_set_cons.
  - now rewrite filter_cons_False by congruence.
Qed.

Lemma intersecting_targets_tracked (X : gset elem) es e :
  e ∈ intersecting_targets (filter (fun en => target en ∈ X) es) <->
  e ∈ X /\ e ∈ intersecting_targets es.
Proof.
  unfold intersecting_targets, intersecting.
  rewrite !elem_of_list_to_set, !list_elem_of_fmap.
  setoid_rewrite list_elem_of_filter. setoid_rewrite list_elem_of_filter.
  naive_solver.
Qed.

Section PlainReveal.

Context (P : Platform).

Lemma render_entry_generic slot t at' i en st :
  render_entry P slot t at' i en st = reveal_entry P slot t at' i en st.
Proof. destruct slot; reflexivity. Qed.

Lemma run_entry_render slot t at' i en st :
  run_entry P (reveal_callback slot t at') i en st = render_entry P slot t at' i en st.
Proof. destruct slot; reflexivity. Qed.

Lemma plain_entry slot t at' i en st :
  truthy t = None -> truthy at' = None -> isIntersecting en = true ->
  render_entry P slot t at' i en st =
    (Ok tt,
     set_heap (alter (with_observed (fun tracked => tracked ∖ {[target en]})) i (heap st))
       (set_document
          (match truthy (payload (document st) (target en) slot) with
           | Some v => store_set_src (document st) (target en) v
           | None => document st
           end) st)).
Proof.
  intros Ht Hat Hint. rewrite render_entry_generic.
  unfold reveal_entry, write_payload. rewrite Hint, Ht, Hat.
  unfold bind, dataset_get, gets.
  destruct (truthy (payload (document st) (target en) slot)); [reflexivity |].
  simpl. unfold unobserve, modify. now rewrite set_document_id.
Qed.

(** A callback run without [srcTarget] and [attr] always completes: it
    assigns the payloads of the intersecting targets to their own source
    and takes these targets out of the observer. *)
Lemma plain_forEach slot t at' i :
  truthy t = None -> truthy at' = None ->
  forall es st,
    exists st',
      forEach es (render_entry P slot t at' i) st = (Ok tt, st') /\
      heap st' =
        alter (with_observed (fun tracked => tracked ∖ intersecting_targets es)) i (heap st) /\
      options st' = options st /\ observer st' = observer st /\
      plain_reveal_of slot (intersecting_targets es) (document st) (document st').
Proof.
  intros Ht Hat. induction es as [| en es IH]; intros st.
  - exists st. split; [reflexivity |]. split; [| repeat split; apply plain_reveal_of_nothing].
    symmetry. apply list_alter_id. intros [cb ini obs]. unfold with_observed. simpl.
    f_equal. unfold intersecting_targets, intersecting. simpl. set_solver.
  - rewrite intersecting_targets_cons. simpl forEach. unfold bind at 1.
    destruct (isIntersecting en) eqn:Hint.
    + rewrite (plain_entry slot t at' i en st Ht Hat Hint).
      match goal with
      | |- context [forEach es _ ?s1] =>
          destruct (IH s1) as (st' & Hrun & Hh & Hopt & Hobs & Hd)
      end.
      exists st'. split; [exact Hrun |]. split; [| split; [exact Hopt | split; [exact Hobs |]]].
      * rewrite Hh. cbn [heap set_heap set_document]. rewrite list_alter_alter_eq.
        apply list_alter_ext; [| reflexivity].
        intros [cb ini obs] _. unfold with_observed. simpl. f_equal. set_solver.
      * eapply plain_reveal_of_compose; [| exact Hd].
        apply plain_reveal_of_one.
    + rewrite render_entry_generic. unfold reveal_entry. rewrite Hint. apply IH.
Qed.

Lemma plain_deliver slot t at' i es st o :
  heap st !! i = Some o ->
  callback o = reveal_callback slot t at' ->
  truthy t = None -> truthy at' = None ->
  exists st',
    deliver P i es st = (Ok tt, st') /\
    plain_reveal_of slot (observed o ∩ intersecting_targets es) (document st) (document st') /\
    (forall e, observes st' i e <-> e ∈ observed o /\ e ∉ intersecting_targets es).
Proof.
  intros Ho Hcb Ht Hat.
  destruct (plain_forEach slot t at' i Ht Hat
              (filter (fun en => target en ∈ observed o) es) st)
    as (st' & Hrun & Hh & _ & _ & Hd).
  exists st'. split; [| split].
  - rewrite (deliver_run P i es st o Ho), Hcb. rewrite <- Hrun.
    clear. generalize (filter (fun en => target en ∈ observed o) es).
    intros l. revert st. induction l as [| en l IH]; intros st; [reflexivity |].
    cbn [forEach]. unfold bind. rewrite run_entry_render.
    destruct (render_entry P slot t at' i en st) as [[[] | e] st1]; [apply IH | reflexivity].
  - destruct Hd as (Hs & Hn). split.
    + intros e He. apply Hs. apply intersecting_targets_tracked. set_solver.
    + intros e He. apply Hn. rewrite intersecting_targets_tracked. set_solver.
  - intros e. unfold observes. rewrite Hh, alter_observed_lookup, decide_True, Ho by reflexivity.
    simpl. split.
    + intros (o' & Ho' & He). inversion Ho'; subst. simpl in He.
      apply elem_of_difference in He as [He Hn]. split; [exact He |].
      intros Hin. apply Hn. apply intersecting_targets_tracked. split; assumption.
    + intros [He Hn]. eexists. split; [reflexivity |]. simpl.
      apply elem_of_difference. split; [exact He |].
      rewrite intersecting_targets_tracked. tauto.
Qed.

End PlainReveal.

(** X11. A report to the observer of an image or video batch that was set
    up without [srcTarget] and without [attr] (or with empty ones) never
    fails. To each tracked element that has an intersecting entry in the
    report and a payload, it assigns the payload as the source: on an
    element whose source reflects the attribute [src] this sets that
    attribute, on another element it sets an own property. It leaves such
    an element alone when its payload is absent or empty, it changes no
    payload and no other element, and afterwards the observer tracks
    exactly the elements it tracked that had no intersecting entry. *)
Theorem plain_reveal_never_fails (P : Platform) (slot : Slot) (t at' : option string)
    (i : nat) (es : list Entry) (st : State) (o : Observer) :
  heap st !! i = Some o ->
  callback o = reveal_callback slot t at' ->
  truthy t = None -> truthy at' = None ->
  exists st',
    deliver P i es st = (Ok tt, st') /\
    plain_reveal_of slot (observed o ∩ intersecting_targets es) (document st) (document st') /\
    (forall e v,
       e ∈ observed o ∩ intersecting_targets es ->
       payload (document st) e slot = Some v -> v <> "" ->
       source_of (document st') e = Some v) /\
    (forall e, payload (document st') e slot = payload (document st) e slot) /\
    (forall e, observes st' i e <-> e ∈ observed o /\ e ∉ intersecting_targets es).
Proof.
  intros Ho Hcb Ht Hat.
  destruct (plain_deliver P slot t at' i es st o Ho Hcb Ht Hat) as (st' & Hrun & Hd & Hobs).
  exists st'. split; [exact Hrun |]. split; [exact Hd |]. split; [| split; [| exact Hobs]].
  - intros e v He Hp Hne.
    exact (proj1 (source_of_revealed slot _ _ e v (proj1 Hd e He) Hp Hne)).
  - intros e. destruct (decide (e ∈ observed o ∩ intersecting_targets es)) as [He | He].
    + unfold payload. rewrite (proj1 Hd e He). unfold revealed.
      destruct (truthy (attrs (document st e) !! slot_attr slot)); [| reflexivity].
      apply with_src_payload.
    + unfold payload. now rewrite (proj2 Hd e He).
Qed.

Lemma plain_reveal_never_fails_witness :
  exists st',
    deliver Demo.browser 0 [Demo.visible 1; Demo.visible 0]
      (snd (loadImage Demo.browser (Demo.load "img.lazy" []) Demo.fresh)) = (Ok tt, st') /\
    attrs (document st' 0) !! "src" = Some "m.jpg" /\
    ~ observes st' 0 0 /\ ~ observes st' 0 1.
Proof.
  destruct (plain_reveal_never_fails Demo.browser ImageSlot None None 0
              [Demo.visible 1; Demo.visible 0]
              (snd (loadImage Demo.browser (Demo.load "img.lazy" []) Demo.fresh))
              {| callback := RenderImage None None; init := Some default_options;
                 observed := list_to_set [0; 1] ∪ ∅ |})
    as (st' & Hrun & (Hrev & _) & _ & _ & Hobs); try reflexivity.
  exists st'. split; [exact Hrun |]. split; [| split].
  - rewrite (Hrev 0); [reflexivity |].
    apply elem_of_intersection. split; [set_solver |].
    unfold intersecting_targets, intersecting. simpl. set_solver.
  - intros H. apply Hobs in H as [_ H]. apply H.
    unfold intersecting_targets, intersecting. simpl. set_solver.
  - intros H. apply Hobs in H as [_ H]. apply H.
    unfold intersecting_targets, intersecting. simpl. set_solver.
Defined.

(** ** Where a reveal writes *)

(** X12. When the report of an intersecting entry is processed whose target
    the observer of an image or video batch tracks and which carries a
    payload, and the write target exists (the target itself when the batch
    has no [srcTarget], else the match of [srcTarget] inside the target) and
    the host takes the name [attr], if any: the report completes and the
    payload is written to the write target only, assigned to its source
    when the batch has no [attr] and else set as the attribute [attr],
    which is also an assignment to the source when the name is that of the
    attribute the source reflects; every other element stays as it was, and
    the target is then unobserved. *)
Theorem reveal_writes_one_element (P : Platform) (slot : Slot) (t at' : option string)
    (i : nat) (en : Entry) (st : State) (o : Observer) (v : string) (w : elem)
    (x : ElemData) :
  heap st !! i = Some o ->
  callback o = reveal_callback slot t at' ->
  target en ∈ observed o ->
  isIntersecting en = true ->
  payload (document st) (target en) slot = Some v ->
  v <> "" ->
  write_target P (document st) t (target en) = Some w ->
  written P at' v (document st w) = Some x ->
  exists st',
    deliver P i [en] st = (Ok tt, st') /\
    document st' w = x /\
    (forall e, e <> w -> document st' e = document st e) /\
    (truthy at' = None ->
       x = with_src v (document st w) /\ source_of (document st') w = Some v) /\
    (forall a k, truthy at' = Some a -> attributeKey P a = Some k ->
       x = with_attr k v (document st w) /\
       (k = "src" -> reflects_src (document st w) = true ->
        source_of (document st') w = Some v)) /\
    ~ observes st' i (target en).
Proof.
  intros Ho Hcb Hin Hint Hv Hne Hw Hx.
  rewrite (deliver_single_tracked P i en st o Ho Hin), Hcb, run_entry_render.
  rewrite (reveal_entry_with_payload P slot t at' i en st v Hint Hv Hne).
  unfold bind. rewrite (write_payload_run P t at' (target en) v st w x Hw Hx).
  eexists. split; [reflexivity |]. cbn [document set_heap set_document].
  split; [apply upd_same |]. split; [intros e He; now apply upd_other |].
  split; [| split].
  - intros Hat. unfold written in Hx. rewrite Hat in Hx. inversion Hx; subst x.
    split; [reflexivity |]. apply source_of_with_src.
  - intros a k Ha Hk. unfold written in Hx. rewrite Ha, Hk in Hx. inversion Hx; subst x.
    split; [reflexivity |]. intros -> Hr. unfold source_of. rewrite upd_same.
    cbn [with_attr reflects_src attrs]. rewrite Hr. apply lookup_insert_eq.
  - eapply unobserved_heap. reflexivity.
Qed.

Lemma reveal_writes_one_element_witness :
  exists st',
    deliver Demo.browser 0 [Demo.visible 2]
      (snd (loadVideo Demo.browser
              (LoadArgs.mk (JStr "#cta") (JStr "source") (JStr "data-src") JUndefined
                 JUndefined JUndefined JUndefined)
              (set_document (store_set_attr Demo.markup 2 "data-video-url" "clip.mp4")
                 Demo.fresh)))
      = (Ok tt, st') /\
    attrs (document st' 3) !! "data-src" = Some "clip.mp4" /\
    document st' 2 = store_set_attr Demo.markup 2 "data-video-url" "clip.mp4" 2.
Proof.
  destruct (reveal_writes_one_element Demo.browser VideoSlot (Some "source")
              (Some "data-src") 0 (Demo.visible 2)
              (snd (loadVideo Demo.browser
                      (LoadArgs.mk (JStr "#cta") (JStr "source") (JStr "data-src") JUndefined
                         JUndefined JUndefined JUndefined)
                      (set_document (store_set_attr Demo.markup 2 "data-video-url" "clip.mp4")
                         Demo.fresh)))
              {| callback := RenderVideo (Some "source") (Some "data-src");
                 init := Some default_options; observed := list_to_set [2] ∪ ∅ |}
              "clip.mp4" 3 (with_attr "data-src" "clip.mp4" (Demo.markup 3)))
    as (st' & Hrun & Hw & Hother & _).
  - reflexivity.
  - reflexivity.
  - simpl. set_solver.
  - reflexivity.
  - vm_compute. reflexivity.
  - discriminate.
  - reflexivity.
  - reflexivity.
  - exists st'. split; [exact Hrun |]. split.
    + rewrite Hw. apply lookup_insert_eq.
    + rewrite Hother by discriminate. reflexivity.
Defined.

(** X13. When the write of a reveal cannot be made, because [srcTarget] has
    no match inside the revealed element or because the host rejects the
    name [attr], the report of a tracked element with a payload throws and
    changes nothing: nothing is written and the element stays tracked, so
    that every later report of it fails in the same way. *)
Theorem failed_write_keeps_the_subscription (P : Platform) (slot : Slot)
    (t at' : option string) (i : nat) (en : Entry) (st : State) (o : Observer)
    (v : string) :
  heap st !! i = Some o ->
  callback o = reveal_callback slot t at' ->
  target en ∈ observed o ->
  isIntersecting en = true ->
  payload (document st) (target en) slot = Some v ->
  v <> "" ->
  ((exists sel, truthy t = Some sel /\
      elementQuerySelector P (document st) (target en) sel = DomOk None) \/
   (exists a, truthy at' = Some a /\ attributeKey P a = None /\
      (truthy t = None \/
       exists sel w, truthy t = Some sel /\
         elementQuerySelector P (document st) (target en) sel = DomOk (Some w)))) ->
  exists e,
    (e = NullDereference \/ e = InvalidCharacterError) /\
    deliver P i [en] st = (Throw e, st) /\
    observes st i (target en).
Proof.
  intros Ho Hcb Hin Hint Hv Hne Hfail.
  assert (Hobs : observes st i (target en)) by (exists o; split; assumption).
  rewrite (deliver_single_tracked P i en st o Ho Hin), Hcb, run_entry_render.
  rewrite (reveal_entry_with_payload P slot t at' i en st v Hint Hv Hne).
  unfold bind, write_payload.
  destruct Hfail as [(sel & -> & Hq) | (a & -> & Hk & [-> | (sel & w & -> & Hq)])].
  - exists NullDereference. split; [now left |]. split; [| exact Hobs].
    unfold bind, element_querySelector. rewrite Hq.
    destruct (truthy at'); reflexivity.
  - exists InvalidCharacterError. split; [now right |]. split; [| exact Hobs].
    unfold setAttribute. now rewrite Hk.
  - exists InvalidCharacterError. split; [now right |]. split; [| exact Hobs].
    unfold bind, element_querySelector. rewrite Hq. unfold setAttribute. now rewrite Hk.
Qed.

Lemma failed_write_keeps_the_subscription_witness :
  exists e,
    deliver Demo.browser 0 [Demo.visible 0]
      (snd (loadImage Demo.browser (Demo.load_into "#a" "source" []) Demo.fresh))
    = (Throw e,
       snd (loadImage Demo.browser (Demo.load_into "#a" "source" []) Demo.fresh)).
Proof.
  destruct (failed_write_keeps_the_subscription Demo.browser ImageSlot (Some "source") None 0
              (Demo.visible 0)
              (snd (loadImage Demo.browser (Demo.load_into "#a" "source" []) Demo.fresh))
              {| callback := RenderImage (Some "source") None; init := Some default_options;
                 observed := list_to_set [0] ∪ ∅ |} "m.jpg")
    as (e & _ & Hrun & _); try reflexivity.
  - discriminate.
  - left. exists "source". split; reflexivity.
  - exists e. exact Hrun.
Defined.

(** ** A batch and its reveals, end to end *)

(** X14. After a call of [loadImage] (resp. [loadVideo]) that passes its
    checks with an array of strings no longer than the matched elements and
    without [srcTarget] and [attr], any report to the observer of the call
    completes; every matched element that has an intersecting entry in the
    report is unobserved, the others stay observed; and such an element
    with a non-empty path assigned to it has had that path assigned to its
    source, the assigned path taking the place of a payload carried by the
    markup. *)
Theorem assigned_paths_are_revealed (P : Platform) (slot : Slot) (st : State)
    (a : LoadArgs.t) (s : string) (els : list elem) (t at' : option string)
    (paths : list jsval) (es : list Entry) :
  valid_setup P st a s els t at' ->
  paths_of a = JArray paths ->
  all_strings paths ->
  length paths <= length els ->
  NoDup els ->
  truthy t = None -> truthy at' = None ->
  exists st1 st2,
    batch_operation P slot a st = (Ok tt, st1) /\
    deliver P (length (heap st)) es st1 = (Ok tt, st2) /\
    (forall j e v,
       els !! j = Some e -> paths !! j = Some (JStr v) -> v <> "" ->
       e ∈ intersecting_targets es -> source_of (document st2) e = Some v) /\
    (forall e, e ∈ els ->
       (observes st2 (length (heap st)) e <-> e ∉ intersecting_targets es)).
Proof.
  intros Hv Hp Hall Hlen Hnd Ht Hat.
  destruct (batch_run P slot st a s els t at' paths Hv Hp) as (k & Hk & Hpre & Hstr & Hrun).
  cbv zeta in Hrun.
  assert (k = length paths) as ->.
  { destruct (paths !! k) as [p |] eqn:Hpk; [| apply lookup_ge_None in Hpk; lia].
    unfold all_strings in Hall. rewrite Forall_lookup in Hall.
    destruct (Hall k p Hpk) as [v ->]. specialize (Hstr v eq_refl).
    apply lookup_lt_Some in Hpk. lia. }
  rewrite (proj2 (lookup_ge_None paths (length paths)) (Nat.le_refl _)) in Hrun.
  set (d1 := write_all slot (document st) (take (length paths) els)
               (string_of <$> take (length paths) paths)) in *.
  destruct (subscribed_observer_lookup (reveal_callback slot t at') a st d1 els)
    as [opts Hlook].
  match type of Hrun with
  | _ = (Ok tt, ?s1) =>
      destruct (plain_deliver P slot t at' (length (heap st)) es s1 _ Hlook eq_refl Ht Hat)
        as (st2 & Hdel & Hd & Hobs);
      exists s1, st2
  end.
  split; [exact Hrun |]. split; [exact Hdel |]. split.
  - intros j e v He Hpj Hne Hin.
    assert (Hj : j < length paths) by (eapply lookup_lt_Some; exact Hpj).
    assert (Hpay : payload d1 e slot = Some v).
    { unfold d1. eapply write_all_payload.
      - eapply sublist_NoDup; [exact Hnd | apply sublist_take].
      - rewrite lookup_take_lt by exact Hj. exact He.
      - rewrite list_lookup_fmap, lookup_take_lt by exact Hj. now rewrite Hpj. }
    refine (proj1 (source_of_revealed slot d1 _ e v _ Hpay Hne)).
    apply (proj1 Hd). simpl. apply list_elem_of_lookup_2 in He. set_solver.
  - intros e He. rewrite Hobs. simpl. set_solver.
Qed.

Lemma assigned_paths_are_revealed_witness :
  exists st1 st2,
    loadImage Demo.browser (Demo.load "img.lazy" [JStr "a.jpg"; JStr "b.jpg"]) Demo.fresh
      = (Ok tt, st1) /\
    deliver Demo.browser 0 [Demo.visible 0; Demo.visible 1] st1 = (Ok tt, st2) /\
    source_of (document st2) 0 = Some "a.jpg" /\
    source_of (document st2) 1 = Some "b.jpg" /\
    ~ observes st2 0 0 /\ ~ observes st2 0 1.
Proof.
  destruct (assigned_paths_are_revealed Demo.browser ImageSlot Demo.fresh
              (Demo.load "img.lazy" [JStr "a.jpg"; JStr "b.jpg"]) "img.lazy" [0; 1]
              None None [JStr "a.jpg"; JStr "b.jpg"] [Demo.visible 0; Demo.visible 1])
    as (st1 & st2 & Hrun & Hdel & Hsrc & Hobs); try reflexivity.
  - apply demo_valid_setup. reflexivity.
  - repeat constructor; eexists; reflexivity.
  - repeat constructor; set_solver.
  - assert (H0 : 0 ∈ intersecting_targets [Demo.visible 0; Demo.visible 1])
      by (unfold intersecting_targets, intersecting; simpl; set_solver).
    assert (H1 : 1 ∈ intersecting_targets [Demo.visible 0; Demo.visible 1])
      by (unfold intersecting_targets, intersecting; simpl; set_solver).
    exists st1, st2. split; [exact Hrun |]. split; [exact Hdel |].
    split; [apply (Hsrc 0 0 "a.jpg"); try reflexivity; try discriminate; exact H0 |].
    split; [apply (Hsrc 1 1 "b.jpg"); try reflexivity; try discriminate; exact H1 |].
    split.
    + intros H. apply (Hobs 0) in H; [contradiction | set_solver].
    + intros H. apply (Hobs 1) in H; [contradiction | set_solver].
Defined.

(** * The earlier revisions *)

Section FirstRevision.

Context (P : Platform) (toDOMString : jsval -> string).

(** The loop of the first revision makes some number [k] of assignments,
    to the elements [0 .. k-1] of [todo] from the entries [i .. i+k-1], and
    stops on the first entry that is no string, or is missing, if there is
    an element left for it. *)
Lemma first_assign_run images :
  forall todo i st, exists k,
    k <= length todo /\
    (forall j, j < k -> exists v, images !! (i + j) = Some (JStr v)) /\
    (k < length todo -> forall v, images !! (i + k) <> Some (JStr v)) /\
    Rev1.assign_imageUrl todo images i st =
      (if decide (k = length todo) then Ok tt else Throw (PathNotString ImageSlot),
       set_document
         (write_all ImageSlot (document st) (take k todo)
            (string_of <$> take k (drop i images))) st).
Proof.
  induction todo as [| e todo IH]; intros i st.
  - exists 0. repeat split; try (simpl; lia).
    simpl. unfold ret. now rewrite set_document_id.
  - assert (Hstop : (forall v, images !! i <> Some (JStr v)) ->
              Rev1.assign_imageUrl (e :: todo) images i st
                = (Throw (PathNotString ImageSlot), st) ->
              exists k, k <= length (e :: todo) /\
                (forall j, j < k -> exists v, images !! (i + j) = Some (JStr v)) /\
                (k < length (e :: todo) -> forall v, images !! (i + k) <> Some (JStr v)) /\
                Rev1.assign_imageUrl (e :: todo) images i st =
                  (if decide (k = length (e :: todo)) then Ok tt
                   else Throw (PathNotString ImageSlot),
                   set_document
                     (write_all ImageSlot (document st) (take k (e :: todo))
                        (string_of <$> take k (drop i images))) st)).
    { intros Hno Hrun. exists 0. split; [simpl; lia |]. split; [intros j Hj; lia |].
      split; [intros _ v; rewrite Nat.add_0_r; apply Hno |].
      rewrite Hrun. simpl. now rewrite set_document_id. }
    destruct (images !! i) as [p |] eqn:Hp.
    2:{ apply Hstop; [discriminate |]. simpl. now rewrite Hp. }
    destruct p as [| | b | n | v | items | f | x |];
      try (apply Hstop; [discriminate |]; simpl; now rewrite Hp).
    destruct (IH (S i)
                (set_document (store_set_attr (document st) e (slot_attr ImageSlot) v) st))
      as (k & Hk & Hpre & Hno & Hrun).
    exists (S k). split; [simpl; lia |]. split; [| split].
    + intros [| j] Hj.
      * rewrite Nat.add_0_r. eauto.
      * replace (i + S j) with (S i + j) by lia. apply Hpre. lia.
    + intros Hlt w. replace (i + S k) with (S i + k) by lia. apply Hno. simpl in Hlt. lia.
    + cbn [Rev1.assign_imageUrl]. rewrite Hp. unfold bind, dataset_set, modify.
      rewrite Hrun. rewrite (drop_S _ _ _ Hp). simpl.
      destruct (decide (k = length todo)) as [-> | Hne].
      * now rewrite decide_True by reflexivity.
      * now rewrite decide_False by lia.
Qed.

(** A call with a selector that is a string and matches, in a state whose
    configuration the constructor takes: the first revision installs its
    observer, runs its loop and subscribes the matches. *)
Lemma first_loadImage_run st s els images :
  (forall x, toDOMString (JStr x) = x) ->
  querySelectorAll P (document st) s = DomOk els ->
  els <> [] ->
  acceptsOptions P (options st) = true ->
  Rev1.loadImage P toDOMString (JStr s) images st =
    bind
      (match default_to (JArray []) images with
       | JArray paths =>
           if negb (Nat.eqb (length paths) 0) then Rev1.assign_imageUrl els paths 0
           else ret tt
       | _ => throw (PathsNotArray ImageSlot)
       end)
      (fun _ => subscribe_all els)
      (install (RenderImage None None) st).
Proof.
  intros Htext Hq Hne Hacc.
  unfold Rev1.loadImage, Rev1.checkValidCSSSelector, document_querySelector,
    document_querySelectorAll.
  cbn [default_to is_null is_undefined typeof jstype_eqb negb orb].
  rewrite Htext. unfold bind, ret, gets, modify, new_IntersectionObserver, throw.
  rewrite Hq. destruct els as [| m ms]; [congruence |].
  cbn [head negb]. rewrite Hacc.
  cbn [document set_observer set_heap]. rewrite Hq. reflexivity.
Qed.



(** Writing stops with the shorter of the two lists. *)
Lemma write_all_take s :
  forall k targets d values,
    length targets <= k \/ length values <= k ->
    write_all s d (take k targets) (take k values) = write_all s d targets values.
Proof.
  induction k as [| k IH]; intros targets d values Hk.
  - destruct Hk as [H | H]; destruct targets, values; simpl in *; try lia; reflexivity.
  - destruct targets as [| e targets]; [reflexivity |].
    destruct values as [| v values]; [reflexivity |].
    simpl. apply IH. simpl in Hk. lia.
Qed.

(** The loop of the first revision on an array of strings that is shorter
    than the node list: it writes every entry and then fails. *)
Lemma first_loop_stops els paths st :
  all_strings paths -> length paths < length els ->
  Rev1.assign_imageUrl els paths 0 st =
    (Throw (PathNotString ImageSlot),
     set_document (write_all ImageSlot (document st) els (string_of <$> paths)) st).
Proof.
  intros Hall Hlen.
  destruct (first_assign_run paths els 0 st) as (k & Hk & Hpre & Hno & Hrun).
  assert (Hkp : k = length paths).
  { destruct (Nat.lt_trichotomy k (length paths)) as [Hlt | [Heq | Hgt]]; [| exact Heq |].
    - exfalso. assert (Hlt' : k < length els) by lia.
      destruct (lookup_lt_is_Some_2 paths k Hlt) as [p Hp].
      destruct (proj1 (Forall_lookup _ _) Hall k p Hp) as [v ->].
      exact (Hno Hlt' v Hp).
    - exfalso. destruct (Hpre (length paths)) as [v Hv]; [lia |].
      simpl in Hv. apply lookup_lt_Some in Hv. lia. }
  subst k. rewrite Hrun, decide_False by lia.
  rewrite <- (write_all_take ImageSlot (length paths) els (document st) (string_of <$> paths))
    by (right; rewrite length_fmap; lia).
  simpl drop. now rewrite fmap_take.
Qed.

(** The same loop when each element finds a string at its index. *)
Lemma first_loop_completes els paths st :
  (forall j, j < length els -> exists v, paths !! j = Some (JStr v)) ->
  Rev1.assign_imageUrl els paths 0 st =
    (Ok tt, set_document (write_all ImageSlot (document st) els (string_of <$> paths)) st).
Proof.
  intros Hall.
  destruct (first_assign_run paths els 0 st) as (k & Hk & Hpre & Hno & Hrun).
  assert (Hke : k = length els).
  { destruct (decide (k = length els)) as [| Hne]; [assumption |]. exfalso.
    destruct (Hall k) as [v Hv]; [lia |].
    assert (Hlt : k < length els) by lia. exact (Hno Hlt v Hv). }
  subst k. rewrite Hrun, decide_True by reflexivity.
  rewrite <- (write_all_take ImageSlot (length els) els (document st) (string_of <$> paths))
    by (left; lia).
  simpl drop. now rewrite fmap_take.
Qed.

Lemma written_payload d els paths j e v :
  NoDup els -> els !! j = Some e -> paths !! j = Some (JStr v) ->
  payload (write_all ImageSlot d els (string_of <$> paths)) e ImageSlot = Some v.
Proof.
  intros Hnd He Hp. eapply write_all_payload; [exact Hnd | exact He |].
  rewrite list_lookup_fmap, Hp. reflexivity.
Qed.

Lemma bind_cong {A B} (m m' : M A) (k : A -> M B) st :
  m st = m' st -> bind m k st = bind m' k st.
Proof. intros H. unfold bind. now rewrite H. Qed.

Lemma first_entry_runs_as_the_last i en st :
  Rev1.renderImage_entry i en st = renderImage_entry P None None i en st.
Proof.
  unfold Rev1.renderImage_entry, renderImage_entry.
  destruct (isIntersecting en); [| reflexivity].
  cbn [truthy]. apply bind_ext. intros path st1. apply bind_cong.
  destruct (truthy path); reflexivity.
Qed.



End FirstRevision.

(** X15. The loop of the first two revisions runs over the matched elements,
    not over the array: a call whose array of strings is not empty and has
    fewer entries than the selector has matches, made in a state whose
    configuration the observer's constructor takes, writes every entry to
    the element at its index and then throws [Image path must be a string]
    for the first element that is left without one. The observer of the
    call is in [#observer] by then, and nothing is subscribed. *)
Theorem first_revision_wants_a_path_per_element (P : Platform)
    (toDOMString : jsval -> string) (st : State) (s : string) (els : list elem)
    (paths : list jsval) :
  resolves P toDOMString (document st) s els ->
  acceptsOptions P (options st) = true ->
  paths <> [] -> all_strings paths -> length paths < length els ->
  exists st',
    Rev1.loadImage P toDOMString (JStr s) (JArray paths) st
      = (Throw (PathNotString ImageSlot), st') /\
    Rev1.err_message (PathNotString ImageSlot) = Some "Image path must be a string" /\
    document st' = write_all ImageSlot (document st) els (string_of <$> paths) /\
    (forall j e v, els !! j = Some e -> paths !! j = Some (JStr v) ->
       payload (document st') e ImageSlot = Some v) /\
    observer st' = Some (length (heap st)) /\
    no_new_subscription st st'.
Proof.
  intros (Htext & Hq & Hnd) Hacc Hne Hall Hlen.
  assert (Hels : els <> []) by (intros ->; simpl in Hlen; lia).
  eexists. split.
  - rewrite (first_loadImage_run P toDOMString st s els _ Htext Hq Hels Hacc).
    cbn [default_to]. destruct paths as [| p paths]; [congruence |].
    cbn [length Nat.eqb negb]. apply bind_throw.
    now apply first_loop_stops.
  - cbn [document set_document observer install set_observer set_heap].
    split; [reflexivity |]. split; [reflexivity |]. split; [| split; [reflexivity |]].
    + intros j e v He Hp. now apply (written_payload _ _ _ j).
    + eapply fresh_observer_no_new_subscription; reflexivity.
Qed.

Lemma first_revision_wants_a_path_per_element_witness :
  exists st',
    Rev1.loadImage Demo.browser demo_text (JStr "img.lazy") (JArray [JStr "a.jpg"]) Demo.fresh
      = (Throw (PathNotString ImageSlot), st') /\
    payload (document st') 0 ImageSlot = Some "a.jpg".
Proof.
  destruct (first_revision_wants_a_path_per_element Demo.browser demo_text Demo.fresh
              "img.lazy" [0; 1] [JStr "a.jpg"])
    as (st' & Hrun & _ & _ & Hpay & _).
  - split; [reflexivity |]. split; [reflexivity |]. apply NoDup_ListNoDup.
    repeat constructor; simpl; intuition discriminate.
  - reflexivity.
  - discriminate.
  - repeat constructor. now exists "a.jpg".
  - simpl. lia.
  - exists st'. split; [exact Hrun |]. now apply (Hpay 0).
Defined.

(** X16. The same loop never looks past the matched elements: when the
    selector matches at least one element, each matched element finds a
    string at its index and the observer's constructor takes the stored
    configuration, a call of the first revision succeeds whatever the array
    holds after that. Every element has the entry at its index as its
    payload, the observer of the call tracks every element, and the earlier
    observers are as they were. *)
Theorem first_revision_ignores_spare_paths (P : Platform)
    (toDOMString : jsval -> string) (st : State) (s : string) (els : list elem)
    (paths : list jsval) :
  resolves P toDOMString (document st) s els ->
  els <> [] ->
  acceptsOptions P (options st) = true ->
  (forall j, j < length els -> exists v, paths !! j = Some (JStr v)) ->
  exists st',
    Rev1.loadImage P toDOMString (JStr s) (JArray paths) st = (Ok tt, st') /\
    document st' = write_all ImageSlot (document st) els (string_of <$> paths) /\
    (forall j e v, els !! j = Some e -> paths !! j = Some (JStr v) ->
       payload (document st') e ImageSlot = Some v) /\
    observer st' = Some (length (heap st)) /\
    (forall e, e ∈ els -> observes st' (length (heap st)) e) /\
    (forall j o, heap st !! j = Some o -> heap st' !! j = Some o).
Proof.
  intros (Htext & Hq & Hnd) Hels Hacc Hall.
  assert (Hne : paths <> []).
  { intros ->. destruct els as [| m ms]; [congruence |].
    destruct (Hall 0) as [v Hv]; [simpl; lia | discriminate]. }
  eexists. split.
  - rewrite (first_loadImage_run P toDOMString st s els _ Htext Hq Hels Hacc).
    cbn [default_to]. destruct paths as [| p paths]; [congruence |].
    cbn [length Nat.eqb negb].
    rewrite (bind_ok _ _ _ _ _ (first_loop_completes els (p :: paths) _ Hall)).
    now apply (subscribe_all_run els _ (length (heap st))).
  - cbn [document set_document observer heap install set_observer set_heap].
    split; [reflexivity |]. split; [| split; [reflexivity | split]].
    + intros j e v He Hp. now apply (written_payload _ _ _ j).
    + intros e He. unfold observes. cbn [heap set_heap].
      rewrite alter_observed_lookup, decide_True by reflexivity.
      rewrite lookup_app_r, Nat.sub_diag by lia. simpl.
      eexists. split; [reflexivity |]. simpl. set_solver.
    + intros j o Hj. rewrite alter_observed_lookup.
      rewrite decide_False by (apply lookup_lt_Some in Hj; lia).
      now apply lookup_app_l_Some.
Qed.

Lemma first_revision_ignores_spare_paths_witness :
  exists st',
    Rev1.loadImage Demo.browser demo_text (JStr "#a")
      (JArray [JStr "a.jpg"; JNum (Fin 7); JStr "c.jpg"]) Demo.fresh = (Ok tt, st') /\
    payload (document st') 0 ImageSlot = Some "a.jpg" /\
    observes st' 0 0.
Proof.
  destruct (first_revision_ignores_spare_paths Demo.browser demo_text Demo.fresh
              "#a" [0] [JStr "a.jpg"; JNum (Fin 7); JStr "c.jpg"])
    as (st' & Hrun & _ & Hpay & _ & Hobs & _).
  - split; [reflexivity |]. split; [reflexivity |]. apply NoDup_ListNoDup.
    repeat constructor; simpl; intuition discriminate.
  - discriminate.
  - reflexivity.
  - intros [| j] Hj; [now exists "a.jpg" | simpl in Hj; lia].
  - exists st'. split; [exact Hrun |]. split; [now apply (Hpay 0) |].
    apply Hobs. set_solver.
Defined.



(** X18. The callback of the first revision, the method [#renderImage]
    itself, runs as the closure [#renderImage(null, null)] of the last
    revision: on every report, for every observer and in every state the two
    return or throw the same and leave the same state. *)
Theorem first_revision_runs_as_the_last (P : Platform) (entries : list Entry)
    (i : nat) (st : State) :
  Rev1.renderImage entries i st = run_callback P (RenderImage None None) entries i st.
Proof.
  unfold Rev1.renderImage. cbn [run_callback]. unfold renderImage.
  revert st. induction entries as [| en entries IH]; intros st; [reflexivity |].
  cbn [forEach]. unfold bind.
  rewrite (first_entry_runs_as_the_last P i en st).
  destruct (renderImage_entry P None None i en st) as [[[] | e] st1]; [apply IH | reflexivity].
Qed.

(** X19. The second revision of [config] and the last make the same checks
    but for the upper bound of [loadAfter]: on every call the two have one
    outcome and one state, unless [loadAfter] is a number above 1, which
    the second revision stores as the threshold and the last one rejects.
    The errors they throw differ in their messages: the last revision puts
    its prefix in front of the messages for [root] and [loadBefore], and
    words the message for [loadAfter] after the new bound. *)
Theorem upper_bound_is_the_only_new_check (root loadBefore loadAfter : jsval)
    (st : State) :
  ((snd (Rev2.config root loadBefore loadAfter st)
      = snd (config (ConfigArgs.mk root loadBefore loadAfter) st) /\
    (fst (Rev2.config root loadBefore loadAfter st) = Ok tt /\
     fst (config (ConfigArgs.mk root loadBefore loadAfter) st) = Ok tt \/
     exists e,
       fst (Rev2.config root loadBefore loadAfter st) = Throw e /\
       fst (config (ConfigArgs.mk root loadBefore loadAfter) st) = Throw e /\
       (e = RootInvalid \/ e = LoadBeforeInvalid \/ e = LoadAfterInvalid) /\
       (e <> LoadAfterInvalid ->
        err_message e = failed_to_construct <$> Rev2.err_message e))) \/
   exists n,
     default_to zero loadAfter = JNum n /\ above_one n /\
     Rev2.config root loadBefore loadAfter st
       = (Ok tt, set_options {| root := default_to JNull root;
                                rootMargin := default_to zero loadBefore;
                                threshold := JNum n |} st) /\
     config (ConfigArgs.mk root loadBefore loadAfter) st = (Throw LoadAfterInvalid, st)) /\
  Rev2.err_message LoadAfterInvalid
    = Some (quoted "loadAfter" +:+ " must be a positive number!") /\
  err_message LoadAfterInvalid
    = Some (failed_to_construct (quoted "loadAfter" +:+ " must be a number between 0 and 1!")).
Proof.
  split; [| split; reflexivity].
  unfold Rev2.config, config. cbn [ConfigArgs.root ConfigArgs.loadBefore ConfigArgs.loadAfter].
  destruct (negb (if negb (is_null (default_to JNull root))
                  then checkValidDOMElement (default_to JNull root) else true)).
  { left. split; [reflexivity |]. right. exists RootInvalid.
    repeat split; auto. }
  destruct (invalid_loadBefore (default_to zero loadBefore)).
  { left. split; [reflexivity |]. right. exists LoadBeforeInvalid.
    repeat split; auto. }
  unfold invalid_loadAfter.
  destruct (Rev2.invalid_loadAfter (default_to zero loadAfter)) eqn:Hold.
  - left. unfold Rev2.invalid_loadAfter in Hold. rewrite Hold. cbn [orb].
    split; [reflexivity |]. right. exists LoadAfterInvalid.
    repeat split; auto. congruence.
  - unfold Rev2.invalid_loadAfter in Hold. rewrite Hold. cbn [orb].
    destruct (js_gt (default_to zero loadAfter) one) eqn:Hgt.
    2:{ left. split; [reflexivity |]. left. split; reflexivity. }
    right.
    destruct (default_to zero loadAfter) as [| | | n | | | | |]; try discriminate.
    exists n. split; [reflexivity |]. split; [| split; reflexivity].
    unfold js_gt, js_lt, one in Hgt.
    destruct n as [| | | q]; simpl in Hgt |- *; try discriminate; try exact I.
    apply negb_true_iff in Hgt. apply Qnot_le_lt. intros Hle.
    apply Qle_bool_iff in Hle. congruence.
Qed.

Lemma upper_bound_is_the_only_new_check_witness :
  config (ConfigArgs.mk (JStr "main") JUndefined JUndefined) Demo.fresh
    = (Throw RootInvalid, Demo.fresh) /\
  err_message RootInvalid = failed_to_construct <$> Rev2.err_message RootInvalid.
Proof.
  pose proof (upper_bound_is_the_only_new_check (JStr "main") JUndefined JUndefined
                Demo.fresh) as H.
  destruct H as [H _]. destruct H as [[_ H] | H].
  - destruct H as [H | H].
    + destruct H as [H1 _]. vm_compute in H1. discriminate H1.
    + destruct H as (e & H1 & _ & _ & Hm).
      assert (He : e = RootInvalid) by (vm_compute in H1; congruence). subst e.
      split; [reflexivity | apply Hm; discriminate].
  - destruct H as (n & Hn & Hab & _). cbn in Hn. inversion Hn; subst n.
    discriminate Hab.
Defined.

(** X20. A call object that the last revision of [config] accepts is
    accepted by the second revision, which stores the same configuration.
    The first revision, which reads the keys [rootMargin] and [threshold]
    where the later ones read [loadBefore] and [loadAfter], accepts it as
    it accepts every call, without a check, and does not look at
    [loadBefore] and [loadAfter]: of an object written for the last
    revision it stores the root, with the margin [0] and the threshold [0]
    of its defaults. *)
Theorem renamed_keys_are_ignored_by_the_first_revision (o : ConfigObject.t)
    (st st' : State) :
  config_last o st = (Ok tt, st') ->
  config_second o st = (Ok tt, st') /\
  config_first o st =
    (Ok tt,
     set_options {| root := default_to JNull (ConfigObject.root o);
                    rootMargin := default_to zero (ConfigObject.rootMargin o);
                    threshold := default_to zero (ConfigObject.threshold o) |} st) /\
  (ConfigObject.rootMargin o = JUndefined -> ConfigObject.threshold o = JUndefined ->
   config_first o st =
     (Ok tt,
      set_options {| root := default_to JNull (ConfigObject.root o);
                     rootMargin := zero; threshold := zero |} st)).
Proof.
  unfold config_last, config_second, config_first, Rev2.config, Rev1.config, config.
  cbn [ConfigArgs.root ConfigArgs.loadBefore ConfigArgs.loadAfter].
  destruct (negb (if negb (is_null (default_to JNull (ConfigObject.root o)))
                  then checkValidDOMElement (default_to JNull (ConfigObject.root o))
                  else true));
    [discriminate |].
  destruct (invalid_loadBefore (default_to zero (ConfigObject.loadBefore o)));
    [discriminate |].
  destruct (invalid_loadAfter (default_to zero (ConfigObject.loadAfter o))) eqn:Hnew;
    [discriminate |].
  unfold invalid_loadAfter in Hnew. apply orb_false_iff in Hnew as [Hold _].
  unfold Rev2.invalid_loadAfter. rewrite Hold. intros H.
  split; [exact H |]. split; [reflexivity |]. intros -> ->. reflexivity.
Qed.

Lemma renamed_keys_are_ignored_by_the_first_revision_witness :
  options
    (snd (config_first
            (ConfigObject.mk (JElement 2) JUndefined JUndefined (JNum (Fin 10))
               (JNum (Fin (1 # 2)))) Demo.fresh))
    = Some {| root := JElement 2; rootMargin := zero; threshold := zero |} /\
  options
    (snd (config_second
            (ConfigObject.mk (JElement 2) JUndefined JUndefined (JNum (Fin 10))
               (JNum (Fin (1 # 2)))) Demo.fresh))
    = Some {| root := JElement 2; rootMargin := JNum (Fin 10);
              threshold := JNum (Fin (1 # 2)) |}.
Proof.
  destruct (renamed_keys_are_ignored_by_the_first_revision
              (ConfigObject.mk (JElement 2) JUndefined JUndefined (JNum (Fin 10))
                 (JNum (Fin (1 # 2)))) Demo.fresh
              (set_options {| root := JElement 2; rootMargin := JNum (Fin 10);
                              threshold := JNum (Fin (1 # 2)) |} Demo.fresh) eq_refl)
    as (H2 & _ & H1).
  split.
  - now rewrite (H1 eq_refl eq_refl).
  - now rewrite H2.
Defined.

(** X21. The first revision of [executeFn] is the last one called with the
    selector and the function alone, up to the wording of the errors: on a
    selector that is a string the two leave the same state and both return
    or both throw, whatever the function argument is and whatever the
    selector matches; the error of the last revision is the error of the
    first with the prefix [Failed to construct "LazyLoad": ] in front of
    its message. The second half of the function check of the first
    revision, on the selector, never decides. *)
Theorem first_executeFn_agrees_with_the_last (P : Platform)
    (toDOMString : jsval -> string) (st : State) (s : string) (exeFn : jsval) :
  (forall x, toDOMString (JStr x) = x) ->
  snd (executeFn P (ExecArgs.mk (JStr s) exeFn JUndefined JUndefined JUndefined) st)
    = snd (Rev1.executeFn P toDOMString (JStr s) exeFn st) /\
  seen err_message
    (fst (executeFn P (ExecArgs.mk (JStr s) exeFn JUndefined JUndefined JUndefined) st))
    = prefixed (seen Rev1.err_message (fst (Rev1.executeFn P toDOMString (JStr s) exeFn st))).
Proof.
  intros Htext.
  unfold Rev1.executeFn, executeFn, Rev1.checkValidCSSSelector, reconfigure.
  cbn [ExecArgs.selector ExecArgs.exeFn ExecArgs.root ExecArgs.loadBefore ExecArgs.loadAfter
       default_to is_null is_undefined typeof jstype_eqb negb orb].
  rewrite Htext.
  unfold require_selector, checkValidCSSSelector, document_querySelector,
    document_querySelectorAll, on_this_observer, observe.
  unfold bind, ret, throw, gets, modify, new_IntersectionObserver.
  destruct (querySelectorAll P (document st) s) as [[| m ms] |] eqn:Hq;
    try (split; reflexivity).
  cbn [head negb orb is_zero zero Qeq_bool].
  destruct (default_to JNull exeFn); try (split; reflexivity).
  change (negb (Qeq_bool 0 0) || negb (Qeq_bool 0 0)) with false. cbv beta iota.
  destruct (acceptsOptions P (options st)); [| split; reflexivity].
  cbn [document set_observer set_heap]. rewrite Hq. split; reflexivity.
Qed.

Lemma first_executeFn_agrees_with_the_last_witness :
  seen err_message
    (fst (executeFn Demo.browser
            (ExecArgs.mk (JStr "#cta") (JNum (Fin 1)) JUndefined JUndefined JUndefined)
            Demo.fresh))
  = prefixed
      (seen Rev1.err_message
         (fst (Rev1.executeFn Demo.browser demo_text (JStr "#cta") (JNum (Fin 1))
                 Demo.fresh))).
Proof.
  apply (first_executeFn_agrees_with_the_last Demo.browser demo_text Demo.fresh "#cta"
           (JNum (Fin 1))).
  reflexivity.
Defined.

(** X22. The first two revisions ask the document about the selector
    before they look at its type. A selector that is no string is therefore
    passed to [document.querySelector] as the text the host makes of it:
    [loadImage] and [executeFn] throw the selector engine's syntax error if
    the engine rejects that text, and the selector error otherwise, and in
    both cases the state is as it was. *)
Theorem first_revision_queries_before_it_checks (P : Platform)
    (toDOMString : jsval -> string) (st : State) (selector other : jsval) :
  (forall x, selector <> JStr x) ->
  Rev1.loadImage P toDOMString selector other st =
    (Throw
       match querySelectorAll P (document st) (toDOMString (default_to JNull selector)) with
       | DomOk _ => SelectorInvalid
       | DomSyntax => DomSyntaxError
       end, st) /\
  Rev1.executeFn P toDOMString selector other st =
    (Throw
       match querySelectorAll P (document st) (toDOMString (default_to JNull selector)) with
       | DomOk _ => SelectorInvalid
       | DomSyntax => DomSyntaxError
       end, st).
Proof.
  intros Hsel.
  assert (Hty : jstype_eqb (typeof (default_to JNull selector)) TString = false).
  { destruct selector; try reflexivity. now destruct (Hsel s). }
  unfold Rev1.loadImage, Rev1.executeFn, Rev1.checkValidCSSSelector,
    document_querySelector, document_querySelectorAll.
  rewrite Hty. unfold bind, ret, throw.
  destruct (querySelectorAll P (document st) (toDOMString (default_to JNull selector)))
    as [l |]; [| split; reflexivity].
  cbn [negb]. rewrite !orb_true_r.
  destruct (head l); cbn [orb]; rewrite ?orb_true_r; split; reflexivity.
Qed.

Lemma first_revision_queries_before_it_checks_witness :
  Rev1.loadImage Demo.browser demo_text JUndefined JUndefined Demo.fresh
    = (Throw SelectorInvalid, Demo.fresh) /\
  Rev1.executeFn Demo.browser demo_text JUndefined JUndefined Demo.fresh
    = (Throw SelectorInvalid, Demo.fresh).
Proof.
  apply (first_revision_queries_before_it_checks Demo.browser demo_text Demo.fresh
           JUndefined JUndefined).
  discriminate.
Defined.

(** X23. The errors of the class kept their wording when the last
    revision put [Failed to construct "LazyLoad": ] in front of every
    message: but for the error of [loadAfter], whose message changed with
    its check, the message of the last revision is that of the second one
    behind the prefix. *)
Theorem messages_gained_a_prefix (e : Err) (m : string) :
  Rev2.err_message e = Some m ->
  e <> LoadAfterInvalid ->
  err_message e = Some (failed_to_construct m).
Proof.
  intros Hm Hne.
  destruct e as [| | | | | | [|] | [|] | | | | | | |]; simpl in Hm;
    try discriminate; try congruence; inversion Hm; reflexivity.
Qed.

Lemma messages_gained_a_prefix_witness :
  err_message (PathNotString ImageSlot)
    = Some (failed_to_construct "Image path must be a string").
Proof.
  apply (messages_gained_a_prefix (PathNotString ImageSlot)); [reflexivity | discriminate].
Defined.
